(** * export_dropbox_paper: a shallow embedding and its verified properties

    The program walks a directory, maps every [*.paper] file to a remote
    Dropbox path, asks the Dropbox client for an export and writes the
    result under a mirrored output tree.

    Modelling conventions.
    - A Python [str] is a list of Unicode code points ([N]); a [bytes]
      object is a list of [Byte.byte].
    - A [pathlib] path (POSIX flavour) is its parsed form: a root and the
      list of components after it.
    - A Python exception is a value of [Exception]; a call that may raise
      returns a [Result].
    - The operating system and the Dropbox service are oracles collected
      in an [Env]; what the program does to them (console lines, directory
      creations, file writes, export requests) is recorded in a trace.
      A call is recorded when it is made, whether it returns or raises;
      what a directory creation or a write raises may depend on the
      calls made before it. *)

From Stdlib Require Import Ascii String Strings.Byte.
From Stdlib Require Import List NArith ZArith Bool Lia.
From Stdlib Require Import Sorting.Permutation Sorting.Sorted.
Import ListNotations.

Set Implicit Arguments.

(* ================================================================== *)
(** * Python strings *)
(* ================================================================== *)

Module PyStr.

(** A string is a sequence of code points. *)
Definition str : Type := list N.

(** ASCII literals of the source text. *)
Definition lit (s : string) : str :=
  List.map N_of_ascii (list_ascii_of_string s).

Fixpoint eqb (a b : str) : bool :=
  match a, b with
  | [], [] => true
  | x :: a', y :: b' => N.eqb x y && eqb a' b'
  | _, _ => false
  end.

(** [a < b] on strings: code point by code point, a proper prefix first. *)
Fixpoint ltb (a b : str) : bool :=
  match a, b with
  | _, [] => false
  | [], _ :: _ => true
  | x :: a', y :: b' => if N.eqb x y then ltb a' b' else N.ltb x y
  end.

(** Truth value of a string: empty is false. *)
Definition truthy (s : str) : bool :=
  match s with [] => false | _ :: _ => true end.

Fixpoint startswith (p s : str) : bool :=
  match p, s with
  | [], _ => true
  | x :: p', y :: s' => N.eqb x y && startswith p' s'
  | _ :: _, [] => false
  end.

Definition endswith (p s : str) : bool :=
  startswith (rev p) (rev s).

(** [s.split(sep)] for a one-character separator: never empty. *)
Fixpoint split (sep : N) (s : str) : list str :=
  match s with
  | [] => [[]]
  | c :: s' =>
      if N.eqb c sep then [] :: split sep s'
      else match split sep s' with
           | [] => [[c]]
           | seg :: segs => (c :: seg) :: segs
           end
  end.

(** [sep.join(parts)]. *)
Fixpoint join (sep : str) (parts : list str) : str :=
  match parts with
  | [] => []
  | [p] => p
  | p :: ps => p ++ sep ++ join sep ps
  end.

(** [s.rsplit(sep, 1)[-1]]: what follows the last separator, or all of
    [s] when there is none. *)
Definition rsplit_last (sep : N) (s : str) : str :=
  last (split sep s) [].

(** [s.replace(a, b)] for one-character [a] and [b]. *)
Definition replace (a b : N) (s : str) : str :=
  List.map (fun c => if N.eqb c a then b else c) s.

(** [s.rfind(c)]: index of the last occurrence, [-1] when absent. *)
Fixpoint rfind_from (c : N) (s : str) (i : Z) (found : Z) : Z :=
  match s with
  | [] => found
  | x :: s' => rfind_from c s' (i + 1)%Z (if N.eqb x c then i else found)
  end.

Definition rfind (c : N) (s : str) : Z := rfind_from c s 0%Z (-1)%Z.

End PyStr.

Import PyStr.

(* ================================================================== *)
(** * Exceptions and results *)
(* ================================================================== *)

(** The exception classes the program raises, catches or lets through.
    Each carries the text [str(error)] renders. *)
Inductive Exception : Type :=
| ApiError (msg : str)            (* dropbox.exceptions.ApiError *)
| AuthError (msg : str)           (* dropbox.exceptions.AuthError *)
| RuntimeError (msg : str)
| ValueError (msg : str)
| UnicodeDecodeError
| SystemExit (msg : str)
| OtherError (msg : str).         (* any other class *)

Inductive Result (A : Type) : Type :=
| Ok (a : A)
| Raise (e : Exception).
Arguments Ok {A} a.
Arguments Raise {A} e.

Definition bind {A B} (r : Result A) (k : A -> Result B) : Result B :=
  match r with
  | Ok a => k a
  | Raise e => Raise e
  end.

Notation "x <- r ;; k" := (bind r (fun x => k))
  (at level 61, r at next level, right associativity).

(* ================================================================== *)
(** * UTF-8 decoding: [bytes.decode("utf-8", errors=...)] *)
(* ================================================================== *)

Module Utf8.

(** The two error handlers the program uses. *)
Inductive Errors := Strict | Replace.

(** U+FFFD REPLACEMENT CHARACTER. *)
Definition REPLACEMENT : N := 0xFFFD.

Definition is_continuation (ch : N) : bool :=
  (0x80 <=? ch)%N && (ch <? 0xC0)%N.

(** An invalid range was met: [Strict] raises, [Replace] puts one
    replacement character and resumes after the range. *)
Definition on_error (errors : Errors) (resume : option str) : option str :=
  match errors with
  | Strict => None
  | Replace => option_map (cons REPLACEMENT) resume
  end.

Definition accept (ch : N) (resume : option str) : option str :=
  option_map (cons ch) resume.

(** The decoder, one lead byte at a time.  An invalid start byte is a
    range of one byte; an invalid continuation byte ends a range made of
    the bytes accepted so far; input that stops inside a sequence is one
    range up to the end. [None] stands for [UnicodeDecodeError]. *)
Fixpoint decode (errors : Errors) (s : list byte) : option str :=
  match s with
  | [] => Some []
  | b1 :: s1 =>
    let ch := Byte.to_N b1 in
    if (ch <? 0x80)%N then accept ch (decode errors s1)
    else if (ch <? 0xC2)%N then
      (* continuation byte or overlong lead: invalid start byte *)
      on_error errors (decode errors s1)
    else if (ch <? 0xE0)%N then
      match s1 with
      | [] => on_error errors (Some [])
      | b2 :: s2 =>
        let ch2 := Byte.to_N b2 in
        if is_continuation ch2
        then accept (N.shiftl ch 6 + ch2 - (N.shiftl 0xC0 6 + 0x80))%N
                  (decode errors s2)
        else on_error errors (decode errors s1)
      end
    else if (ch <? 0xF0)%N then
      match s1 with
      | [] => on_error errors (Some [])
      | b2 :: s2 =>
        let ch2 := Byte.to_N b2 in
        if negb (is_continuation ch2)
           || (if (ch2 <? 0xA0)%N then (ch =? 0xE0)%N else (ch =? 0xED)%N)
        then on_error errors (decode errors s1)
        else
          match s2 with
          | [] => on_error errors (Some [])
          | b3 :: s3 =>
            let ch3 := Byte.to_N b3 in
            if is_continuation ch3
            then accept (N.shiftl ch 12 + N.shiftl ch2 6 + ch3
                       - (N.shiftl 0xE0 12 + N.shiftl 0x80 6 + 0x80))%N
                      (decode errors s3)
            else on_error errors (decode errors s2)
          end
      end
    else if (ch <? 0xF5)%N then
      match s1 with
      | [] => on_error errors (Some [])
      | b2 :: s2 =>
        let ch2 := Byte.to_N b2 in
        if negb (is_continuation ch2)
           || (if (ch2 <? 0x90)%N then (ch =? 0xF0)%N else (ch =? 0xF4)%N)
        then on_error errors (decode errors s1)
        else
          match s2 with
          | [] => on_error errors (Some [])
          | b3 :: s3 =>
            let ch3 := Byte.to_N b3 in
            if negb (is_continuation ch3)
            then on_error errors (decode errors s2)
            else
              match s3 with
              | [] => on_error errors (Some [])
              | b4 :: s4 =>
                let ch4 := Byte.to_N b4 in
                if is_continuation ch4
                then accept (N.shiftl ch 18 + N.shiftl ch2 12
                           + N.shiftl ch3 6 + ch4
                           - (N.shiftl 0xF0 18 + N.shiftl 0x80 12
                              + N.shiftl 0x80 6 + 0x80))%N
                          (decode errors s4)
                else on_error errors (decode errors s3)
              end
          end
      end
    else on_error errors (decode errors s1)
  end.

(** [content.decode("utf-8", errors=...)]. *)
Definition bytes_decode (errors : Errors) (content : list byte) : Result str :=
  match decode errors content with
  | Some text => Ok text
  | None => Raise UnicodeDecodeError
  end.

(** A code point a Python [str] produced by a decoder may hold. *)
Definition is_scalar (ch : N) : bool :=
  (ch <? 0x110000)%N && negb ((0xD800 <=? ch)%N && (ch <? 0xE000)%N).

(** One step of the decoder, for both error handlers at once: either
    a complete sequence is consumed and its code point accepted, whatever
    follows, or an invalid range is met. *)
Inductive Step (s : list byte) : Prop :=
| StepEmit (ch : N) (consumed rest : list byte)
    (Hs : s = consumed ++ rest)
    (Heq : forall errors tl,
        decode errors (consumed ++ tl) = accept ch (decode errors tl))
    (Hne : consumed <> [])
    (Hsc : is_scalar ch = true)
| StepBad (rest : list byte)
    (Heq : forall errors, decode errors s = on_error errors (decode errors rest))
    (Hlen : length rest < length s).

End Utf8.

(* ================================================================== *)
(** * The Dropbox client *)
(* ================================================================== *)

Module Dropbox.

(** [ExportMetadata]: only [name] is read, through [getattr] with a
    default, so the attribute may be missing. *)
Record ExportMetadata := { name : option str }.

(** The HTTP response: only [content] is read. *)
Record Response := { content : list byte }.

End Dropbox.

(* ================================================================== *)
(** * pathlib, POSIX flavour *)
(* ================================================================== *)

Module PurePath.

(** The separator, as a character and as a string. *)
Definition sep : N := 47.
Definition sep_str : str := [sep].
Definition dot : N := 46.

(** A parsed path: the root ([""], ["/"] or ["//"]) and the components
    after it.  There is no drive on POSIX. *)
Record Path := mkPath { root : str; tail : list str }.

(** Components as pathlib keeps them: non-empty, not ["."], without a
    separator. *)
Definition wf_component (c : str) : bool :=
  truthy c && negb (PyStr.eqb c [dot]) && negb (existsb (N.eqb sep) c).

Definition wf_tail (t : list str) : bool := forallb wf_component t.

Fixpoint list_eqb (a b : list str) : bool :=
  match a, b with
  | [], [] => true
  | x :: a', y :: b' => PyStr.eqb x y && list_eqb a' b'
  | _, _ => false
  end.

(** [p == q]. *)
Definition eqb (p q : Path) : bool :=
  PyStr.eqb (root p) (root q) && list_eqb (tail p) (tail q).

(** [posixpath.splitroot]: exactly two leading slashes are kept as a
    root of their own. *)
Definition splitroot (p : str) : str * str :=
  match p with
  | c1 :: p1 =>
      if negb (N.eqb c1 sep) then ([], p)
      else match p1 with
           | c2 :: p2 =>
               if negb (N.eqb c2 sep) then (sep_str, p1)
               else match p2 with
                    | c3 :: _ =>
                        if N.eqb c3 sep then (sep_str, p1)
                        else ([sep; sep], p2)
                    | [] => ([sep; sep], p2)
                    end
           | [] => (sep_str, p1)
           end
  | [] => ([], p)
  end.

(** [Path(s)]: split the root off, drop empty and ["."] components. *)
Definition parse (s : str) : Path :=
  match s with
  | [] => mkPath [] []
  | _ =>
      let (r, rel) := splitroot s in
      mkPath r (filter (fun x => truthy x && negb (PyStr.eqb x [dot]))
                       (split sep rel))
  end.

(** [str(p)]. *)
Definition to_str (p : Path) : str :=
  let s := root p ++ join sep_str (tail p) in
  if truthy s then s else [dot].

(** [p.as_posix()]. *)
Definition as_posix (p : Path) : str := replace sep 47 (to_str p).

(** [p.parts]. *)
Definition parts (p : Path) : list str :=
  if truthy (root p) then root p :: tail p else tail p.

(** [p.name]: the last component, empty when there is none. *)
Definition name (p : Path) : str := last (tail p) [].

(** [p.parent]. *)
Definition parent (p : Path) : Path :=
  match tail p with
  | [] => p
  | _ => mkPath (root p) (removelast (tail p))
  end.

(** [p.parents]: every proper ancestor, nearest first. *)
Fixpoint proper_prefixes (t : list str) : list (list str) :=
  match t with
  | [] => []
  | c :: t' => [] :: List.map (cons c) (proper_prefixes t')
  end.

Definition parents (p : Path) : list Path :=
  List.map (mkPath (root p)) (rev (proper_prefixes (tail p))).

(** [p.is_relative_to(other)]. *)
Definition is_relative_to (p other : Path) : bool :=
  eqb other p || existsb (eqb other) (parents p).

(** [p.relative_to(other)], without [walk_up]. *)
Definition relative_to (p other : Path) : Result Path :=
  if is_relative_to p other
  then Ok (mkPath [] (skipn (length (tail other)) (tail p)))
  else Raise (ValueError (lit "'" ++ to_str p ++ lit "' is not in the subpath of '"
                          ++ to_str other ++ lit "'")).

(** [p / q]: an anchored right operand replaces the left one. *)
Definition joinpath (p q : Path) : Path :=
  if truthy (root q) then q
  else mkPath (root p) (tail p ++ tail q).

(** [p.suffix]: from the last dot of the name, unless that dot is the
    first or the last character. *)
Definition suffix (p : Path) : str :=
  let nm := name p in
  let i := rfind dot nm in
  if ((0 <? i) && (i <? Z.of_nat (length nm) - 1))%Z
  then skipn (Z.to_nat i) nm
  else [].

(** [p.with_suffix(suffix)]. *)
Definition with_suffix (p : Path) (sfx : str) : Result Path :=
  if existsb (N.eqb sep) sfx then
    Raise (ValueError (lit "Invalid suffix"))
  else if (truthy sfx && negb (startswith [dot] sfx)) || PyStr.eqb sfx [dot] then
    Raise (ValueError (lit "Invalid suffix"))
  else
    let nm := name p in
    if negb (truthy nm) then
      Raise (ValueError (to_str p ++ lit " has an empty name"))
    else
      let old_suffix := suffix p in
      let nm' :=
        if negb (truthy old_suffix) then nm ++ sfx
        else firstn (length nm - length old_suffix) nm ++ sfx in
      Ok (mkPath (root p) (removelast (tail p) ++ [nm'])).

(** Extensions [with_suffix] accepts. *)
Definition valid_suffix (sfx : str) : bool :=
  negb (existsb (N.eqb sep) sfx)
  && negb ((truthy sfx && negb (startswith [dot] sfx)) || PyStr.eqb sfx [dot]).

(** [p < q]: the parts compared as lists. *)
Fixpoint list_ltb (a b : list str) : bool :=
  match a, b with
  | _, [] => false
  | [], _ :: _ => true
  | x :: a', y :: b' => if PyStr.eqb x y then list_ltb a' b' else PyStr.ltb x y
  end.

Definition ltb (p q : Path) : bool := list_ltb (parts p) (parts q).

(** [p] is not above [q]. *)
Definition le (p q : Path) : Prop := ltb q p = false.

(** The built-in [sorted]: a stable sort that only asks [<]. *)
Fixpoint insert (x : Path) (l : list Path) : list Path :=
  match l with
  | [] => [x]
  | y :: l' => if ltb y x then y :: insert x l' else x :: l
  end.

Definition sorted (l : list Path) : list Path := fold_right insert [] l.

(** [p] lies at or below [d]: same root, and the components of [d] start
    those of [p]. *)
Fixpoint is_prefix (a b : list str) : bool :=
  match a, b with
  | [], _ => true
  | x :: a', y :: b' => PyStr.eqb x y && is_prefix a' b'
  | _ :: _, [] => false
  end.

Definition at_or_under (d p : Path) : bool :=
  PyStr.eqb (root d) (root p) && is_prefix (tail d) (tail p).

End PurePath.

Import PurePath.

(* ================================================================== *)
(** * The outside world *)
(* ================================================================== *)

(** A directory tree as a recursive listing finds it; entries come in
    the order the operating system lists them. *)
#[warnings="-register-all"] Inductive Tree : Type :=
| File
| Dir (entries : list (str * Tree)).

(** [fnmatch] for patterns made of literal characters and [*]. *)
Definition star : N := 42.

Fixpoint fnmatch (pat nm : str) : bool :=
  match pat with
  | [] => negb (truthy nm)
  | c :: pat' =>
      if N.eqb c star then
        (fix try (s : str) : bool :=
           fnmatch pat' s
           || match s with
              | [] => false
              | _ :: s' => try s'
              end) nm
      else
        match nm with
        | [] => false
        | x :: nm' => N.eqb x c && fnmatch pat' nm'
        end
  end.

(** [here / nm] for a single component. *)
Definition child (here : Path) (nm : str) : Path :=
  mkPath (root here) (tail here ++ [nm]).

(** [here.rglob(pat)] over the tree found at [here]: the matching entries
    of a directory (files and directories alike, hidden ones included),
    then every subdirectory in turn. *)
Fixpoint rglob (pat : str) (here : Path) (t : Tree) : list Path :=
  match t with
  | File => []
  | Dir entries =>
      List.map (child here) (filter (fnmatch pat) (List.map fst entries))
      ++ (fix walk (es : list (str * Tree)) : list Path :=
            match es with
            | [] => []
            | (nm, sub) :: es' => rglob pat (child here nm) sub ++ walk es'
            end) entries
  end.

(** An entry exists in the tree below the listed directory, at the
    given components. *)
Fixpoint node_at (t : Tree) (rel : list str) : Prop :=
  match rel with
  | [] => True
  | c :: rel' =>
      match t with
      | File => False
      | Dir entries => exists sub, In (c, sub) entries /\ node_at sub rel'
      end
  end.

(** What the program does to the outside world, in order: the calls it
    makes, each recorded whether it returns or raises. *)
Inductive Event : Type :=
| Print (line : str)                         (* print(...) *)
| Mkdir (p : Path)                           (* p.mkdir(parents=True, exist_ok=True) *)
| WriteText (p : Path) (text : str)          (* p.write_text(text, encoding="utf-8") *)
| FilesExport (remote_path export_format : str). (* client.files_export(...) *)

(** How a run of [main] ends. *)
Inductive Outcome : Type :=
| Returned (code : Z)
| Raised (e : Exception).

(** The status the process exits with under
    [raise SystemExit(main())]: the returned code, or 1 for a
    [SystemExit] carrying a message and for an uncaught exception. *)
Definition exit_status (o : Outcome) : Z :=
  match o with
  | Returned code => code
  | Raised _ => 1%Z
  end.

(** The parsed command line. *)
Record Args := {
  paper_dir : Path;
  output_dir : Path;
  dropbox_token : option str;
  dropbox_root : Path;
  format : str
}.

(** [a or b] on optional strings; [None] and [""] are false. *)
Definition py_or (a b : option str) : option str :=
  match a with
  | Some (_ :: _) => a
  | _ => b
  end.

Definition opt_truthy (a : option str) : bool :=
  match a with
  | Some s => truthy s
  | None => false
  end.

Definition newline : N := 10.

Section Program.

(** The state of the Dropbox service. *)
Variable R : Type.

(** The oracles: the environment variables; home-directory expansion,
    which raises [RuntimeError] when the home directory cannot be
    determined; the file system as the program reads it ([scan] is the
    tree a recursive listing of a directory finds, [realpath] the
    canonical name [Path.resolve] works out, or what it raises: a
    [RuntimeError] on a symbolic-link loop); the Dropbox client; and
    the file system as the program changes it: [mkdir history p] and
    [write_text history p text] tell what the call raises, if anything,
    on the disk as the calls recorded in [history] have left it. *)
Record Env := {
  environ_get : str -> option str;
  expanduser : Path -> Result Path;
  is_dir : Path -> bool;
  scan : Path -> Tree;
  realpath : Path -> Result str;
  files_export :
    R -> str -> str -> Result (Dropbox.ExportMetadata * Dropbox.Response) * R;
  mkdir : list Event -> Path -> option Exception;
  write_text : list Event -> Path -> str -> option Exception
}.

Variable env : Env.

Record World := { remote : R; trace : list Event }.

Definition emit (e : Event) (w : World) : World :=
  {| remote := remote w; trace := trace w ++ [e] |}.

(* ================================================================== *)
(** * The program *)
(* ================================================================== *)

(** [iter_paper_files]: the [.paper] entries beneath [root], sorted. *)
Definition iter_paper_files (root : Path) : list Path :=
  sorted (rglob (lit "*.paper") root (scan env root)).

(** [p.resolve()]: the canonical name, parsed again, or what the call
    raises. *)
Definition resolve (p : Path) : Result Path :=
  s <- realpath env p ;; Ok (parse s).

(** [compute_remote_path].  The [try] covers both calls of [resolve]
    and [relative_to]; only a [ValueError] is caught. *)
Definition compute_remote_path (local_file dropbox_root : Path) : Result str :=
  match (file <- resolve local_file ;;
         root_dir <- resolve dropbox_root ;;
         relative_to file root_dir) with
  | Ok relative => Ok (lit "/" ++ as_posix relative)
  | Raise (ValueError _) =>
      Raise (RuntimeError (to_str local_file
                           ++ lit " is not inside the Dropbox root "
                           ++ to_str dropbox_root))
  | Raise e => Raise e
  end.

(** [getattr(metadata, "name", default)]. *)
Definition getattr_name (metadata : Dropbox.ExportMetadata) (default : str)
  : str :=
  match Dropbox.name metadata with
  | Some title => title
  | None => default
  end.

(** The text of the response: strict decoding first, the replacing
    handler when that raises [UnicodeDecodeError]. *)
Definition decode_content (response : Dropbox.Response) : Result str :=
  match Utf8.bytes_decode Utf8.Strict (Dropbox.content response) with
  | Raise UnicodeDecodeError =>
      Utf8.bytes_decode Utf8.Replace (Dropbox.content response)
  | r => r
  end.

(** [export_paper]. *)
Definition export_paper (w : World) (remote_path export_format : str)
  : Result str * World :=
  let w1 := emit (FilesExport remote_path export_format) w in
  let (reply, st) := files_export env (remote w1) remote_path export_format in
  let w2 := {| remote := st; trace := trace w1 |} in
  match reply with
  | Raise (ApiError msg) =>
      (Raise (RuntimeError (lit "Dropbox export failed: " ++ msg)), w2)
  | Raise e => (Raise e, w2)
  | Ok (metadata, response) =>
      (text <- decode_content response ;;
       let title := getattr_name metadata (rsplit_last sep remote_path) in
       let suffix :=
         if truthy export_format
         then lit " (exported as " ++ export_format ++ lit ")"
         else [] in
       Ok (lit "# " ++ title ++ suffix ++ [newline; newline] ++ text),
       w2)
  end.

(** The body of the [try] in the loop of [main]. *)
Definition attempt (dropbox_root : Path) (export_format : str)
           (paper_path : Path) (w : World) : Result str * World :=
  match compute_remote_path paper_path dropbox_root with
  | Ok remote_path => export_paper w remote_path export_format
  | Raise e => (Raise e, w)
  end.

(** Where the export of [paper_path] goes. *)
Definition target_of (paper_dir output_dir : Path) (extension : str)
           (paper_path : Path) : Result Path :=
  rel <- relative_to paper_path paper_dir ;;
  relative_target <- with_suffix rel extension ;;
  Ok (joinpath output_dir relative_target).

(** The [for] loop of [main].  The directory creation and the write
    stand after the [try]: what they raise ends the run. *)
Fixpoint process_files (paper_dir output_dir dropbox_root : Path)
         (export_format extension : str)
         (paper_files : list Path) (w : World) : Outcome * World :=
  match paper_files with
  | [] => (Returned 0, w)
  | paper_path :: rest =>
      let w1 := emit (Print (lit "Processing " ++ to_str paper_path)) w in
      let (r, w2) := attempt dropbox_root export_format paper_path w1 in
      match r with
      | Raise (AuthError msg) =>
          (Raised (SystemExit (lit "Dropbox authentication failed: " ++ msg)), w2)
      | Raise (RuntimeError msg) =>
          process_files paper_dir output_dir dropbox_root
                        export_format extension rest
                        (emit (Print (lit "  Skipping: " ++ msg)) w2)
      | Raise e => (Raised e, w2)
      | Ok text =>
          match target_of paper_dir output_dir extension paper_path with
          | Raise e => (Raised e, w2)
          | Ok target_path =>
              let w3 := emit (Mkdir (parent target_path)) w2 in
              match mkdir env (trace w2) (parent target_path) with
              | Some e => (Raised e, w3)
              | None =>
                  let w4 := emit (WriteText target_path text) w3 in
                  match write_text env (trace w3) target_path text with
                  | Some e => (Raised e, w4)
                  | None =>
                      process_files paper_dir output_dir dropbox_root
                                    export_format extension rest w4
                  end
              end
          end
      end
  end.

(** [main], from the parsed arguments on. *)
Definition main (args : Args) (w : World) : Outcome * World :=
  match expanduser env (paper_dir args) with
  | Raise e => (Raised e, w)
  | Ok paper_dir =>
  match expanduser env (output_dir args) with
  | Raise e => (Raised e, w)
  | Ok output_dir =>
  match expanduser env (dropbox_root args) with
  | Raise e => (Raised e, w)
  | Ok dropbox_root =>
      if negb (is_dir env paper_dir) then
        (Raised (SystemExit (lit "--paper-dir must point to a directory: "
                             ++ to_str paper_dir)), w)
      else
        let token :=
          py_or (dropbox_token args)
                (environ_get env (lit "DROPBOX_ACCESS_TOKEN")) in
        if negb (opt_truthy token) then
          (Raised (SystemExit (lit "Dropbox access token missing. Provide --dropbox-token or set DROPBOX_ACCESS_TOKEN.")), w)
        else
          let w1 := emit (Mkdir output_dir) w in
          match mkdir env (trace w) output_dir with
          | Some e => (Raised e, w1)
          | None =>
              let extension :=
                if PyStr.eqb (format args) (lit "markdown") then lit ".md"
                else lit ".html" in
              let paper_files := iter_paper_files paper_dir in
              match paper_files with
              | [] =>
                  (Returned 0,
                   emit (Print (lit "No .paper files found under "
                                ++ to_str paper_dir)) w1)
              | _ =>
                  process_files paper_dir output_dir dropbox_root
                                (format args) extension paper_files w1
              end
          end
  end end end.

End Program.

(* ================================================================== *)
(** * UTF-8 encoding: [str.encode("utf-8")], as [write_text] does *)
(* ================================================================== *)

Module Utf8Encoder.

(** A value below 256 as a byte. *)
Definition byte_of (n : N) : byte :=
  match Byte.of_N n with
  | Some b => b
  | None => x00
  end.

Definition is_surrogate (ch : N) : bool :=
  (0xD800 <=? ch)%N && (ch <=? 0xDFFF)%N.

(** The bytes of one code point.  [None] stands for
    [UnicodeEncodeError], raised on a surrogate, and for a value no
    string can hold. *)
Definition encode_char (ch : N) : option (list byte) :=
  if (ch <? 0x80)%N then Some [byte_of ch]
  else if (ch <? 0x800)%N then
    Some [byte_of (N.lor 0xC0 (N.shiftr ch 6));
          byte_of (N.lor 0x80 (N.land ch 0x3F))]
  else if is_surrogate ch then None
  else if (ch <? 0x10000)%N then
    Some [byte_of (N.lor 0xE0 (N.shiftr ch 12));
          byte_of (N.lor 0x80 (N.land (N.shiftr ch 6) 0x3F));
          byte_of (N.lor 0x80 (N.land ch 0x3F))]
  else if (ch <? 0x110000)%N then
    Some [byte_of (N.lor 0xF0 (N.shiftr ch 18));
          byte_of (N.lor 0x80 (N.land (N.shiftr ch 12) 0x3F));
          byte_of (N.lor 0x80 (N.land (N.shiftr ch 6) 0x3F));
          byte_of (N.lor 0x80 (N.land ch 0x3F))]
  else None.

Fixpoint encode (text : str) : option (list byte) :=
  match text with
  | [] => Some []
  | ch :: text' =>
      match encode_char ch, encode text' with
      | Some bytes, Some rest => Some (bytes ++ rest)
      | _, _ => None
      end
  end.

End Utf8Encoder.

(* ================================================================== *)
(** * The vocabulary of the specification *)
(* ================================================================== *)

(** [file] is contained within [dir]: it is [dir] followed by some
    relative path. *)
Definition contained_in (file dir : Path) : Prop :=
  exists rel, file = joinpath dir (mkPath [] rel).

(** [file] is strictly under [dir]. *)
Definition strictly_under (file dir : Path) : Prop :=
  exists rel, rel <> [] /\ file = joinpath dir (mkPath [] rel).

(** The forward-slash form of a relative path: its components joined by
    ["/"], a single dot for the empty path. *)
Definition posix_form (rel : list str) : str :=
  match rel with
  | [] => lit "."
  | _ => join (lit "/") rel
  end.

(** [seg] is the last ["/"]-separated segment of [s]. *)
Definition last_segment (s seg : str) : Prop :=
  ~ In sep seg /\ (s = seg \/ exists pre, s = pre ++ sep :: seg).

(** Going back from a remote identifier: the leading ["/"] stripped, the
    separators of the operating system put back, the text parsed. *)
Definition os_sep : N := sep.

Definition local_of_remote (remote_path : str) : Path :=
  parse (replace 47 os_sep (skipn 1 remote_path)).

(** A failure of one file that ends the run: anything raised but the
    [RuntimeError] the loop absorbs. *)
Definition fatal (r : Result str) : bool :=
  match r with
  | Raise (RuntimeError _) => false
  | Raise _ => true
  | Ok _ => false
  end.

(** The extension each format stands for. *)
Definition extension_of (export_format : str) : str :=
  if PyStr.eqb export_format (lit "markdown") then lit ".md" else lit ".html".

(** The mirrored output path in the words of the specification: the
    path relative to the local root, re-rooted under the output root,
    its [".paper"] extension swapped for [ext]. *)
Definition swap_extension (ext nm : str) : str :=
  firstn (length nm - length (lit ".paper")) nm ++ ext.

Definition mirrored_output_path (local_root output_root : Path) (ext : str)
           (p : Path) : Path :=
  let rel := skipn (length (tail local_root)) (tail p) in
  mkPath (root output_root)
         (tail output_root ++ removelast rel
          ++ [swap_extension ext (last rel [])]).

(** The paths an event may create or change: a directory creation with
    [parents=True] reaches the directory and its ancestors. *)
Definition touched (e : Event) : list Path :=
  match e with
  | Mkdir p => p :: parents p
  | WriteText p _ => [p]
  | Print _ => []
  | FilesExport _ _ => []
  end.

(** Lexicographic order on lists: a proper prefix first, otherwise the
    first difference decides. *)
Inductive lex_lt (A : Type) (lt : A -> A -> Prop) : list A -> list A -> Prop :=
| lex_prefix : forall y b, lex_lt lt [] (y :: b)
| lex_head : forall x y a b, lt x y -> lex_lt lt (x :: a) (y :: b)
| lex_tail : forall x a b, lex_lt lt a b -> lex_lt lt (x :: a) (x :: b).

(** Strings by code point, paths by component. *)
Definition str_lt : str -> str -> Prop := lex_lt N.lt.

Definition path_lt (p q : Path) : Prop := lex_lt str_lt (parts p) (parts q).

(** The console line that announces a file, and the files a trace
    announces, in order. *)
Definition is_processing (e : Event) : bool :=
  match e with
  | Print line => startswith (lit "Processing ") line
  | _ => false
  end.

Definition announced (tr : list Event) : list Event :=
  filter is_processing tr.

(** Kinds of events, and how many events of a kind a trace holds. *)
Definition is_export (e : Event) : bool :=
  match e with
  | FilesExport _ _ => true
  | _ => false
  end.

Definition is_write (e : Event) : bool :=
  match e with
  | WriteText _ _ => true
  | _ => false
  end.

Definition is_mkdir (e : Event) : bool :=
  match e with
  | Mkdir _ => true
  | _ => false
  end.

Definition is_skipping (e : Event) : bool :=
  match e with
  | Print line => startswith (lit "  Skipping: ") line
  | _ => false
  end.

Definition count (kind : Event -> bool) (tr : list Event) : nat :=
  length (filter kind tr).

(** The exceptions that neither [export_paper] nor the loop of [main]
    catches or converts. *)
Definition passes_through (e : Exception) : bool :=
  match e with
  | ApiError _ => false
  | AuthError _ => false
  | RuntimeError _ => false
  | _ => true
  end.

(** No directory of the tree lists a name twice. *)
Fixpoint unique_names (t : Tree) : Prop :=
  match t with
  | File => True
  | Dir entries =>
      NoDup (List.map fst entries)
      /\ (fix all (es : list (str * Tree)) : Prop :=
            match es with
            | [] => True
            | (_, sub) :: es' => unique_names sub /\ all es'
            end) entries
  end.

(** Every byte of a payload is an ASCII character. *)
Definition ascii_only (payload : list byte) : bool :=
  forallb (fun b => (Byte.to_N b <? 0x80)%N) payload.


(** A run ended by returning. *)
Definition returned (o : Outcome) : bool :=
  match o with
  | Returned _ => true
  | Raised _ => false
  end.

(** A run that cannot start: a home directory cannot be expanded, the
    source is not a directory, or no token is given. *)
Definition unconfigured (R : Type) (env : Env R) (args : Args) : Prop :=
  (exists e, expanduser env (paper_dir args) = Raise e)
  \/ (exists e, expanduser env (output_dir args) = Raise e)
  \/ (exists e, expanduser env (dropbox_root args) = Raise e)
  \/ (exists pd, expanduser env (paper_dir args) = Ok pd
                 /\ is_dir env pd = false)
  \/ opt_truthy (py_or (dropbox_token args)
                       (environ_get env (lit "DROPBOX_ACCESS_TOKEN"))) = false.

Section Handling.

Variable R : Type.
Variable env : Env R.
Variables paper_dir output_dir dropbox_root : Path.
Variables export_format extension : str.

(** What processing one file adds to the trace, and whether the run
    goes on to the next file.  A file is announced; it is then skipped
    with a message, before or after the export request for its remote
    path, or its export is written to its target once the directory of
    the target was created.  A run that ends at this file stops after
    the announcement, the request, the directory creation or the
    write. *)
Inductive file_events (p : Path) : bool -> list Event -> Prop :=
| skipped_unresolved msg :
    compute_remote_path env p dropbox_root = Raise (RuntimeError msg) ->
    file_events p true
      [Print (lit "Processing " ++ to_str p);
       Print (lit "  Skipping: " ++ msg)]
| skipped_export remote_path msg :
    compute_remote_path env p dropbox_root = Ok remote_path ->
    file_events p true
      [Print (lit "Processing " ++ to_str p);
       FilesExport remote_path export_format;
       Print (lit "  Skipping: " ++ msg)]
| written remote_path target text :
    compute_remote_path env p dropbox_root = Ok remote_path ->
    target_of paper_dir output_dir extension p = Ok target ->
    file_events p true
      [Print (lit "Processing " ++ to_str p);
       FilesExport remote_path export_format;
       Mkdir (parent target);
       WriteText target text]
| stopped_unresolved e :
    compute_remote_path env p dropbox_root = Raise e ->
    file_events p false [Print (lit "Processing " ++ to_str p)]
| stopped_export remote_path :
    compute_remote_path env p dropbox_root = Ok remote_path ->
    file_events p false
      [Print (lit "Processing " ++ to_str p);
       FilesExport remote_path export_format]
| stopped_mkdir remote_path target :
    compute_remote_path env p dropbox_root = Ok remote_path ->
    target_of paper_dir output_dir extension p = Ok target ->
    file_events p false
      [Print (lit "Processing " ++ to_str p);
       FilesExport remote_path export_format;
       Mkdir (parent target)]
| stopped_write remote_path target text :
    compute_remote_path env p dropbox_root = Ok remote_path ->
    target_of paper_dir output_dir extension p = Ok target ->
    file_events p false
      [Print (lit "Processing " ++ to_str p);
       FilesExport remote_path export_format;
       Mkdir (parent target);
       WriteText target text].

(** What processing a list of files in order adds to the trace: the
    events of each file in turn, up to the end of the list or to the
    file at which the run ends. *)
Inductive batch_events : list Path -> bool -> list Event -> Prop :=
| batch_done : batch_events [] true []
| batch_next p rest block tr complete :
    file_events p true block ->
    batch_events rest complete tr ->
    batch_events (p :: rest) complete (block ++ tr)
| batch_stop p rest block :
    file_events p false block ->
    batch_events (p :: rest) false block.

End Handling.

(* ================================================================== *)
(** * Sample runs *)
(* ================================================================== *)

Module Demo.

(** The Dropbox service counts the requests it has served. *)
Definition Remote : Type := nat.

Definition path (s : string) : Path := parse (lit s).

(** [~] is the home directory [/home/u]; the home directory of any
    other user is unknown. *)
Definition expand (q : Path) : Result Path :=
  match root q, tail q with
  | [], c :: rest =>
      if PyStr.eqb c (lit "~")
      then Ok (mkPath (lit "/") ([lit "home"; lit "u"] ++ rest))
      else if startswith (lit "~") c
           then Raise (RuntimeError (lit "Could not determine home directory."))
           else Ok q
  | _, _ => Ok q
  end.

Definition Reply : Type := Result (Dropbox.ExportMetadata * Dropbox.Response).

Definition titled (title : string) (payload : list byte) : Reply :=
  Ok ({| Dropbox.name := Some (lit title) |}, {| Dropbox.content := payload |}).

Definition untitled (payload : list byte) : Reply :=
  Ok ({| Dropbox.name := None |}, {| Dropbox.content := payload |}).

(** ["hi"], and ["h"] followed by a byte that starts no sequence. *)
Definition hi : list byte := [x68; x69].
Definition broken : list byte := [x68; xff].

Definition make_env (token : option str) (tree : Tree)
           (real : Path -> Result str) (reply : str -> Reply)
           (make : list Event -> Path -> option Exception)
           (write : list Event -> Path -> str -> option Exception)
  : Env Remote :=
  {| environ_get := fun key =>
       if PyStr.eqb key (lit "DROPBOX_ACCESS_TOKEN") then token else None;
     expanduser := expand;
     is_dir := fun _ => true;
     scan := fun _ => tree;
     realpath := real;
     files_export := fun served remote_path _ => (reply remote_path, S served);
     mkdir := make;
     write_text := write |}.

(** A disk on which nothing is in the way. *)
Definition env_of (token : option str) (tree : Tree) (real : Path -> str)
           (reply : str -> Reply) : Env Remote :=
  make_env token tree (fun q => Ok (real q)) reply
           (fun _ _ => None) (fun _ _ _ => None).

(** A disk that starts without the output tree.  After the calls of
    [history], a path is a directory when a directory creation reached
    it and a file when it was written; a file cannot be opened where a
    directory is, and a directory cannot be created at or below a
    file. *)
Definition directory_after (history : list Event) (p : Path) : bool :=
  existsb (fun e => match e with
                    | Mkdir q => at_or_under p q
                    | _ => false
                    end) history.

Definition file_after (history : list Event) (p : Path) : bool :=
  existsb (fun e => match e with
                    | WriteText q _ => PurePath.eqb p q
                    | _ => false
                    end) history.

Definition posix_mkdir (history : list Event) (p : Path) : option Exception :=
  if file_after history p then Some (OtherError (lit "FileExistsError"))
  else if existsb (file_after history) (parents p)
       then Some (OtherError (lit "NotADirectoryError"))
       else None.

Definition posix_write_text (history : list Event) (p : Path) (text : str)
  : option Exception :=
  if directory_after history p then Some (OtherError (lit "IsADirectoryError"))
  else None.

Definition start : World Remote := {| remote := 0; trace := [] |}.

(** A notes directory inside the Dropbox folder, listed out of order. *)
Definition notes_tree : Tree :=
  Dir [ (lit "c.paper", File);
        (lit "a.paper", File);
        (lit "sub", Dir [ (lit "b.paper", File) ]) ].

(** [c.paper] is a link to a file on another volume. *)
Definition linked (q : Path) : str :=
  if PurePath.eqb q (path "/home/u/Dropbox/notes/c.paper")
  then lit "/mnt/usb/c.paper"
  else to_str q.

Definition notes_env : Env Remote :=
  env_of (Some (lit "secret")) notes_tree linked (fun _ => titled "Note" hi).

Definition notes_args : Args :=
  {| paper_dir := path "~/Dropbox/notes";
     output_dir := path "~/out";
     dropbox_token := None;
     dropbox_root := path "~/Dropbox";
     format := lit "markdown" |}.

(** Five documents; the credentials expire at the third. *)
Definition five_tree : Tree :=
  Dir [ (lit "d1.paper", File); (lit "d2.paper", File); (lit "d3.paper", File);
        (lit "d4.paper", File); (lit "d5.paper", File) ].

Definition expiring (remote_path : str) : Reply :=
  if PyStr.eqb remote_path (lit "/notes/d3.paper")
  then Raise (AuthError (lit "expired_access_token"))
  else titled "Doc" hi.

Definition five_env : Env Remote :=
  env_of (Some (lit "secret")) five_tree to_str expiring.

(** No token anywhere. *)
Definition anonymous_env : Env Remote :=
  env_of None notes_tree to_str (fun _ => titled "Note" hi).

(** A directory holding a file named [.paper] and nothing else. *)
Definition dotfile_env : Env Remote :=
  env_of (Some (lit "secret")) (Dir [ (lit ".paper", File) ]) to_str
         (fun _ => untitled broken).

(** The output directory is the source directory. *)
Definition in_place_args : Args :=
  {| paper_dir := path "~/Dropbox/notes";
     output_dir := path "~/Dropbox/notes";
     dropbox_token := Some (lit "secret");
     dropbox_root := path "~/Dropbox";
     format := lit "html" |}.

(** The service does not know [a.paper]. *)
Definition unknown_a (remote_path : str) : Reply :=
  if PyStr.eqb remote_path (lit "/notes/a.paper")
  then Raise (ApiError (lit "path/not_found"))
  else titled "Note" hi.

Definition unknown_env : Env Remote :=
  env_of (Some (lit "secret")) notes_tree to_str unknown_a.

(** The connection drops at the second request. *)
Definition dropping (remote_path : str) : Reply :=
  if PyStr.eqb remote_path (lit "/notes/c.paper")
  then Raise (OtherError (lit "ConnectionError"))
  else titled "Note" hi.

Definition dropping_env : Env Remote :=
  env_of (Some (lit "secret")) notes_tree to_str dropping.



(** The output directory belongs to a user whose home is unknown. *)
Definition stranger_args : Args :=
  {| paper_dir := path "~/Dropbox/notes";
     output_dir := path "~nosuchuser/out";
     dropbox_token := Some (lit "secret");
     dropbox_root := path "~/Dropbox";
     format := lit "markdown" |}.



(** [c.paper] is a link to [a.paper]. *)
Definition aliased (q : Path) : str :=
  if PurePath.eqb q (path "/home/u/Dropbox/notes/c.paper")
  then lit "/home/u/Dropbox/notes/a.paper"
  else to_str q.

Definition aliased_env : Env Remote :=
  env_of (Some (lit "secret")) notes_tree aliased (fun _ => titled "Note" hi).

(** A directory [a.md] next to a document [a.paper]: the export of
    [a.md/b.paper] makes the output directory [a.md], where the export
    of [a.paper] is to be written. *)
Definition clash_tree : Tree :=
  Dir [ (lit "a.md", Dir [ (lit "b.paper", File) ]);
        (lit "a.paper", File) ].

Definition clash_env : Env Remote :=
  make_env (Some (lit "secret")) clash_tree (fun q => Ok (to_str q))
           (fun _ => titled "Note" hi) posix_mkdir posix_write_text.

(** The output directory names an existing file. *)
Definition blocked_env : Env Remote :=
  make_env (Some (lit "secret")) notes_tree (fun q => Ok (to_str q))
           (fun _ => titled "Note" hi)
           (fun _ p =>
              if PurePath.eqb p (path "/home/u/out")
              then Some (OtherError (lit "FileExistsError"))
              else None)
           posix_write_text.

End Demo.

(* ================================================================== *)
(** * Facts about the decoder *)
(* ================================================================== *)

Module Utf8Facts.
Import Utf8.

Lemma to_N_lt b : (Byte.to_N b < 256)%N.
Proof. destruct b; vm_compute; reflexivity. Qed.

(** One unfolding of the decoder, the tail left as it is. *)
Lemma decode_cons errors b1 s1 :
  decode errors (b1 :: s1)
  = ltac:(let body := eval cbn [decode] in (decode errors (b1 :: s1)) in
          exact body).
Proof. reflexivity. Qed.

Ltac unfold_step :=
  intros ?errors; cbn [app]; rewrite decode_cons;
  repeat match goal with
         | H : _ = true |- _ => rewrite H
         | H : _ = false |- _ => rewrite H
         end;
  cbn [negb orb andb]; reflexivity.

Ltac to_prop :=
  unfold is_scalar, is_continuation in *;
  repeat match goal with
         | H : andb _ _ = true |- _ => apply andb_true_iff in H; destruct H
         | H : andb _ _ = false |- _ => apply andb_false_iff in H; destruct H
         | H : (_ <? _)%N = true |- _ => apply N.ltb_lt in H
         | H : (_ <? _)%N = false |- _ => apply N.ltb_ge in H
         | H : (_ <=? _)%N = true |- _ => apply N.leb_le in H
         | H : (_ <=? _)%N = false |- _ => apply N.leb_gt in H
         | H : (_ =? _)%N = true |- _ => apply N.eqb_eq in H
         | H : (_ =? _)%N = false |- _ => apply N.eqb_neq in H
         end.

Ltac scalar :=
  unfold is_scalar;
  rewrite ?N.shiftl_mul_pow2;
  change (2 ^ 6)%N with 64%N; change (2 ^ 12)%N with 4096%N;
  change (2 ^ 18)%N with 262144%N;
  match goal with
  | |- (?v <? ?hi)%N && negb ((?a <=? ?v)%N && (?v <? ?b)%N) = true =>
      destruct (v <? hi)%N eqn:?, (a <=? v)%N eqn:?, (v <? b)%N eqn:?;
      try reflexivity; exfalso; to_prop; lia
  end.

Ltac bad r := apply StepBad with (rest := r); [ unfold_step | cbn [length]; lia ].
Ltac good c r :=
  eapply StepEmit with (consumed := c) (rest := r);
  [ reflexivity | intros ?tl; unfold_step | discriminate | ].

Lemma decode_step b1 s1 : Step (b1 :: s1).
Proof.
  pose proof (to_N_lt b1) as B1.
  destruct (Byte.to_N b1 <? 0x80)%N eqn:H1.
  { good [b1] s1. scalar. }
  destruct (Byte.to_N b1 <? 0xC2)%N eqn:H2.
  { bad s1. }
  destruct (Byte.to_N b1 <? 0xE0)%N eqn:H3.
  { destruct s1 as [|b2 s2]; [ bad (@nil byte) | ].
    destruct (is_continuation (Byte.to_N b2)) eqn:H4; [ | bad (b2 :: s2) ].
    good [b1; b2] s2. scalar. }
  destruct (Byte.to_N b1 <? 0xF0)%N eqn:H4.
  { destruct s1 as [|b2 s2]; [ bad (@nil byte) | ].
    destruct (is_continuation (Byte.to_N b2)) eqn:C2; [ | bad (b2 :: s2) ].
    destruct (Byte.to_N b2 <? 0xA0)%N eqn:L2.
    - destruct (Byte.to_N b1 =? 0xE0)%N eqn:E1; [ bad (b2 :: s2) | ].
      destruct s2 as [|b3 s3]; [ bad (@nil byte) | ].
      destruct (is_continuation (Byte.to_N b3)) eqn:C3; [ | bad (b3 :: s3) ].
      good [b1; b2; b3] s3. scalar.
    - destruct (Byte.to_N b1 =? 0xED)%N eqn:E1; [ bad (b2 :: s2) | ].
      destruct s2 as [|b3 s3]; [ bad (@nil byte) | ].
      destruct (is_continuation (Byte.to_N b3)) eqn:C3; [ | bad (b3 :: s3) ].
      good [b1; b2; b3] s3. scalar. }
  destruct (Byte.to_N b1 <? 0xF5)%N eqn:H5; [ | bad s1 ].
  destruct s1 as [|b2 s2]; [ bad (@nil byte) | ].
  destruct (is_continuation (Byte.to_N b2)) eqn:C2; [ | bad (b2 :: s2) ].
  destruct (Byte.to_N b2 <? 0x90)%N eqn:L2.
  - destruct (Byte.to_N b1 =? 0xF0)%N eqn:E1; [ bad (b2 :: s2) | ].
    destruct s2 as [|b3 s3]; [ bad (@nil byte) | ].
    destruct (is_continuation (Byte.to_N b3)) eqn:C3; [ | bad (b3 :: s3) ].
    destruct s3 as [|b4 s4]; [ bad (@nil byte) | ].
    destruct (is_continuation (Byte.to_N b4)) eqn:C4; [ | bad (b4 :: s4) ].
    good [b1; b2; b3; b4] s4. scalar.
  - destruct (Byte.to_N b1 =? 0xF4)%N eqn:E1; [ bad (b2 :: s2) | ].
    destruct s2 as [|b3 s3]; [ bad (@nil byte) | ].
    destruct (is_continuation (Byte.to_N b3)) eqn:C3; [ | bad (b3 :: s3) ].
    destruct s3 as [|b4 s4]; [ bad (@nil byte) | ].
    destruct (is_continuation (Byte.to_N b4)) eqn:C4; [ | bad (b4 :: s4) ].
    good [b1; b2; b3; b4] s4. scalar.
Qed.

(** The same step, as the induction on the length needs it. *)
Lemma decode_step_len b1 s1 :
  (exists ch rest,
      (forall errors,
          decode errors (b1 :: s1) = accept ch (decode errors rest))
      /\ length rest < length (b1 :: s1)
      /\ is_scalar ch = true)
  \/ (exists rest,
         (forall errors,
             decode errors (b1 :: s1) = on_error errors (decode errors rest))
         /\ length rest < length (b1 :: s1)).
Proof.
  destruct (decode_step b1 s1) as [ch consumed rest Hs Heq Hne Hsc|rest Heq Hlen].
  - left. exists ch, rest. split; [ | split; [ | exact Hsc ] ].
    + intros errors. rewrite Hs. apply Heq.
    + rewrite Hs, length_app. destruct consumed; [ contradiction | cbn; lia ].
  - right. eauto.
Qed.

Lemma bytes_ind_len (P : list byte -> Prop) :
  (forall s, (forall s', length s' < length s -> P s') -> P s) ->
  forall s, P s.
Proof.
  intros step s.
  assert (H : forall n s', length s' < n -> P s').
  { induction n as [|n IH]; intros s' Hs'; [ lia | ].
    apply step. intros s'' Hs''. apply IH. lia. }
  apply step. intros s' Hs'. apply (H (length s)). exact Hs'.
Qed.

(** Under the replacing handler the decoder always yields a string. *)
Lemma decode_replace_some s : exists t, decode Replace s = Some t.
Proof.
  induction s as [s IH] using bytes_ind_len.
  destruct s as [|b1 s1]; [ exists []; reflexivity | ].
  destruct (decode_step_len b1 s1) as [(ch & rest & Heq & Hlen & _)|(rest & Heq & Hlen)];
    destruct (IH rest Hlen) as [t Ht]; rewrite Heq, Ht; cbn; eauto.
Qed.

(** Whatever the handler, a decoded string holds scalar values only. *)
Lemma decode_scalar errors s :
  forall t, decode errors s = Some t -> Forall (fun ch => is_scalar ch = true) t.
Proof.
  induction s as [s IH] using bytes_ind_len.
  destruct s as [|b1 s1]; intros t Ht.
  { cbn in Ht. injection Ht as <-. constructor. }
  destruct (decode_step_len b1 s1) as [(ch & rest & Heq & Hlen & Hsc)|(rest & Heq & Hlen)];
    rewrite Heq in Ht.
  - unfold accept in Ht. destruct (decode errors rest) as [t'|] eqn:Hr;
      [ | discriminate ].
    cbn in Ht. injection Ht as <-. constructor; [ exact Hsc | ].
    apply (IH rest Hlen). exact Hr.
  - destruct errors; [ discriminate | ].
    cbn in Ht. destruct (decode Replace rest) as [t'|] eqn:Hr;
      [ | discriminate ].
    cbn in Ht. injection Ht as <-. constructor; [ reflexivity | ].
    apply (IH rest Hlen). exact Hr.
Qed.

(** Where strict decoding succeeds the replacing handler changes nothing. *)
Lemma decode_strict_replace s :
  forall t, decode Strict s = Some t -> decode Replace s = Some t.
Proof.
  induction s as [s IH] using bytes_ind_len.
  destruct s as [|b1 s1]; intros t Ht; [ exact Ht | ].
  destruct (decode_step_len b1 s1) as [(ch & rest & Heq & Hlen & _)|(rest & Heq & Hlen)];
    rewrite Heq in Ht |- *.
  - unfold accept in *. destruct (decode Strict rest) as [t'|] eqn:Hr;
      [ | discriminate ].
    rewrite (IH rest Hlen t' Hr). exact Ht.
  - discriminate.
Qed.

(** Where strict decoding raises, the replacing handler leaves at least
    one replacement character. *)
Lemma decode_strict_none_marks s :
  forall t, decode Strict s = None -> decode Replace s = Some t ->
            In REPLACEMENT t.
Proof.
  induction s as [s IH] using bytes_ind_len.
  destruct s as [|b1 s1]; intros t Hs Ht; [ discriminate | ].
  destruct (decode_step_len b1 s1) as [(ch & rest & Heq & Hlen & _)|(rest & Heq & Hlen)];
    rewrite Heq in Hs, Ht.
  - unfold accept in *.
    destruct (decode Replace rest) as [t'|] eqn:Hr; [ | discriminate ].
    cbn in Ht. injection Ht as <-. right.
    apply (IH rest Hlen); [ | exact Hr ].
    destruct (decode Strict rest); [ discriminate | reflexivity ].
  - cbn in Ht. destruct (decode Replace rest) as [t'|]; [ | discriminate ].
    cbn in Ht. injection Ht as <-. left. reflexivity.
Qed.

(** Valid text at the front is decoded as it is, whatever follows and
    whatever the handler. *)
Lemma decode_valid_prefix a :
  forall valid,
    decode Strict a = Some valid ->
    forall errors b,
      decode errors (a ++ b) = option_map (app valid) (decode errors b).
Proof.
  induction a as [a IH] using bytes_ind_len.
  destruct a as [|b1 s1]; intros valid Hv errors b.
  { cbn in Hv. injection Hv as <-. cbn [app].
    destruct (decode errors b); reflexivity. }
  destruct (decode_step b1 s1) as [ch consumed rest Hs Heq Hne Hsc|rest Heq Hlen].
  - rewrite Hs in Hv |- *. rewrite Heq in Hv. rewrite <- app_assoc, Heq.
    unfold accept in *.
    destruct (decode Strict rest) as [valid'|] eqn:Hr; [ | discriminate ].
    cbn in Hv. injection Hv as <-.
    rewrite (IH rest) with (valid := valid'); [ | | exact Hr ].
    + destruct (decode errors b); reflexivity.
    + assert (E : length (b1 :: s1) = length (consumed ++ rest))
        by (rewrite Hs; reflexivity).
      rewrite E, length_app. destruct consumed; [ contradiction | cbn; lia ].
  - rewrite Heq in Hv. discriminate.
Qed.

End Utf8Facts.

(* ================================================================== *)
(** * Facts about strings *)
(* ================================================================== *)

Module PyStrFacts.

Lemma eqb_eq a b : PyStr.eqb a b = true <-> a = b.
Proof.
  revert b. induction a as [|x a IH]; intros [|y b]; cbn; split;
    try discriminate; try reflexivity.
  - intros H. apply andb_true_iff in H as [Hx Ha].
    apply N.eqb_eq in Hx. apply IH in Ha. congruence.
  - intros H. injection H as -> ->. rewrite N.eqb_refl. cbn. apply IH.
    reflexivity.
Qed.

Lemma eqb_refl a : PyStr.eqb a a = true.
Proof. apply eqb_eq. reflexivity. Qed.

Lemma eqb_neq a b : PyStr.eqb a b = false <-> a <> b.
Proof.
  split.
  - intros H E. apply eqb_eq in E. congruence.
  - intros H. destruct (PyStr.eqb a b) eqn:E; [ | reflexivity ].
    apply eqb_eq in E. contradiction.
Qed.

Lemma ltb_irrefl a : PyStr.ltb a a = false.
Proof.
  induction a as [|x a IH]; cbn; [ reflexivity | ].
  rewrite N.eqb_refl. exact IH.
Qed.

Lemma ltb_trans a b c :
  PyStr.ltb a b = true -> PyStr.ltb b c = true -> PyStr.ltb a c = true.
Proof.
  revert b c. induction a as [|x a IH]; intros [|y b] [|z c]; cbn;
    try discriminate; try reflexivity.
  destruct (N.eqb_spec x y) as [->|Hxy].
  - destruct (N.eqb_spec y z) as [->|Hyz]; [ apply IH | trivial ].
  - destruct (N.eqb_spec y z) as [->|Hyz].
    + intros H _. rewrite (proj2 (N.eqb_neq x z) Hxy). exact H.
    + intros H1 H2. apply N.ltb_lt in H1, H2.
      destruct (N.eqb_spec x z) as [->|Hxz]; [ lia | ].
      apply N.ltb_lt. lia.
Qed.

(** Two strings neither of which is below the other are the same. *)
Lemma ltb_total a b :
  PyStr.ltb a b = false -> PyStr.ltb b a = false -> a = b.
Proof.
  revert b. induction a as [|x a IH]; intros [|y b]; cbn;
    try discriminate; try reflexivity.
  rewrite (N.eqb_sym y x).
  destruct (N.eqb_spec x y) as [->|Hxy].
  - intros H1 H2. f_equal. apply IH; assumption.
  - intros H1 H2. apply N.ltb_ge in H1, H2. lia.
Qed.

Lemma replace_same c s : replace c c s = s.
Proof.
  unfold replace. induction s as [|x s IH]; cbn; [ reflexivity | ].
  rewrite IH. destruct (N.eqb_spec x c); congruence.
Qed.

Lemma split_not_nil c s : split c s <> [].
Proof.
  destruct s as [|x s]; cbn; [ discriminate | ].
  destruct (N.eqb x c); [ discriminate | ].
  destruct (split c s); discriminate.
Qed.

(** No segment of a split holds the separator. *)
Lemma split_no_sep c s : Forall (fun seg => ~ In c seg) (split c s).
Proof.
  induction s as [|x s IH]; cbn.
  - constructor; [ intros [] | constructor ].
  - destruct (N.eqb_spec x c) as [->|Hx].
    + constructor; [ intros [] | exact IH ].
    + destruct (split c s) as [|seg segs]; inversion IH; subst;
        constructor; try assumption; try constructor.
      * intros [E|[]]. congruence.
      * intros [E|Hin]; [ congruence | contradiction ].
Qed.

(** Joining the segments back gives the string. *)
Lemma join_split c s : join [c] (split c s) = s.
Proof.
  induction s as [|x s IH]; cbn; [ reflexivity | ].
  destruct (N.eqb_spec x c) as [->|Hx].
  - pose proof (split_not_nil c s) as Hne.
    destruct (split c s) as [|seg segs]; [ contradiction | ].
    cbn in *. rewrite IH. reflexivity.
  - pose proof (split_not_nil c s) as Hne.
    destruct (split c s) as [|seg segs]; [ contradiction | ].
    destruct segs as [|seg' segs]; cbn in *; rewrite <- IH; reflexivity.
Qed.

Lemma split_app_sep c seg s :
  ~ In c seg -> split c (seg ++ c :: s) = seg :: split c s.
Proof.
  induction seg as [|x seg IH]; intros Hseg; cbn.
  - rewrite N.eqb_refl. reflexivity.
  - destruct (N.eqb_spec x c) as [->|Hx].
    + exfalso. apply Hseg. left. reflexivity.
    + rewrite IH; [ reflexivity | ]. intros Hin. apply Hseg. right. exact Hin.
Qed.

Lemma split_no_sep_id c seg : ~ In c seg -> split c seg = [seg].
Proof.
  induction seg as [|x seg IH]; intros Hseg; cbn; [ reflexivity | ].
  destruct (N.eqb_spec x c) as [->|Hx].
  - exfalso. apply Hseg. left. reflexivity.
  - rewrite IH; [ reflexivity | ]. intros Hin. apply Hseg. right. exact Hin.
Qed.

(** Splitting a join of separator-free segments gives the segments. *)
Lemma split_join c l :
  l <> [] -> Forall (fun seg => ~ In c seg) l -> split c (join [c] l) = l.
Proof.
  induction l as [|seg l IH]; intros Hne Hl; [ contradiction | ].
  inversion Hl as [|? ? Hseg Hl']; subst.
  destruct l as [|seg' l].
  - cbn. apply split_no_sep_id. exact Hseg.
  - change (join [c] (seg :: seg' :: l))
      with (seg ++ c :: join [c] (seg' :: l)).
    rewrite split_app_sep by exact Hseg.
    rewrite IH; [ reflexivity | discriminate | exact Hl' ].
Qed.

(** What [rsplit_last] returns is free of the separator and ends the
    string, right after a separator unless it is the whole string. *)
Lemma rsplit_last_spec c s :
  ~ In c (rsplit_last c s)
  /\ (s = rsplit_last c s \/ exists pre, s = pre ++ c :: rsplit_last c s).
Proof.
  unfold rsplit_last. split.
  - pose proof (split_no_sep c s) as H. pose proof (split_not_nil c s) as Hne.
    rewrite Forall_forall in H. apply H.
    destruct (exists_last Hne) as (l & a & E). rewrite E.
    rewrite last_last. apply in_or_app. right. left. reflexivity.
  - induction s as [|x s IH]; cbn; [ left; reflexivity | ].
    pose proof (split_not_nil c s) as Hne.
    destruct (N.eqb_spec x c) as [->|Hx].
    + right. destruct (split c s) as [|seg segs] eqn:E; [ contradiction | ].
      destruct IH as [IH|[pre IH]].
      * exists []. cbn [app]. f_equal. exact IH.
      * exists (c :: pre). cbn [app]. f_equal. exact IH.
    + destruct (split c s) as [|seg segs] eqn:E; [ contradiction | ].
      destruct segs as [|seg' segs].
      * cbn in *. left. destruct IH as [IH|[pre IH]].
        -- f_equal. exact IH.
        -- exfalso. pose proof (split_no_sep c s) as H. rewrite E in H.
           apply Forall_inv in H. apply H.
           pose proof (join_split c s) as J. rewrite E in J. cbn in J.
           rewrite J, IH. apply in_or_app. right. left. reflexivity.
      * right. destruct IH as [IH|[pre IH]].
        -- exfalso. pose proof (join_split c s) as J. rewrite E in J.
           pose proof (split_no_sep c s) as H. rewrite E in H.
           assert (Hin : In c s).
           { rewrite <- J. change (join [c] (seg :: seg' :: segs))
               with (seg ++ c :: join [c] (seg' :: segs)).
             apply in_or_app. right. left. reflexivity. }
           rewrite IH in Hin.
           rewrite Forall_forall in H.
           apply (H (last (seg :: seg' :: segs) [])); [ | exact Hin ].
           destruct (@exists_last _ (seg :: seg' :: segs)) as (l & a & El);
             [ discriminate | ].
           rewrite El, last_last. apply in_or_app. right. left. reflexivity.
        -- exists (x :: pre). cbn [app]. f_equal. exact IH.
Qed.

(** A pattern without [*] matches itself only. *)
Lemma fnmatch_literal pat :
  ~ In star pat -> forall nm, fnmatch pat nm = PyStr.eqb nm pat.
Proof.
  induction pat as [|c pat IH]; intros Hpat nm; cbn.
  - destruct nm; reflexivity.
  - destruct (N.eqb_spec c star) as [->|Hc].
    + exfalso. apply Hpat. left. reflexivity.
    + destruct nm as [|x nm]; [ reflexivity | ].
      rewrite IH; [ reflexivity | ].
      intros Hin. apply Hpat. right. exact Hin.
Qed.

(** A leading [*] followed by a literal: the name ends with the literal. *)
Lemma fnmatch_star_literal pat nm :
  ~ In star pat ->
  fnmatch (star :: pat) nm = true <-> exists stem, nm = stem ++ pat.
Proof.
  intros Hpat. cbn [fnmatch]. change (N.eqb star star) with true. cbv iota.
  induction nm as [|x nm IH].
  - rewrite fnmatch_literal by exact Hpat. rewrite orb_false_r. split.
    + intros H. apply eqb_eq in H. exists []. exact H.
    + intros [stem H]. apply eqb_eq.
      destruct stem; [ exact H | discriminate ].
  - rewrite orb_true_iff, IH. rewrite fnmatch_literal by exact Hpat. split.
    + intros [H|[stem H]].
      * apply eqb_eq in H. exists []. exact H.
      * exists (x :: stem). cbn. f_equal. exact H.
    + intros [[|y stem] H].
      * left. apply eqb_eq. exact H.
      * right. injection H as _ H. exists stem. exact H.
Qed.

Lemma fnmatch_paper nm :
  fnmatch (lit "*.paper") nm = true <-> exists stem, nm = stem ++ lit ".paper".
Proof.
  change (lit "*.paper") with (star :: lit ".paper").
  apply fnmatch_star_literal.
  cbv. intros H. repeat (destruct H as [H|H]; [ discriminate | ]). exact H.
Qed.

End PyStrFacts.

(* ================================================================== *)
(** * Facts about paths *)
(* ================================================================== *)

Module PurePathFacts.

Import PyStrFacts.

Lemma list_eqb_eq a b : list_eqb a b = true <-> a = b.
Proof.
  revert b. induction a as [|x a IH]; intros [|y b]; cbn; split;
    try discriminate; try reflexivity.
  - intros H. apply andb_true_iff in H as [Hx Ha].
    apply eqb_eq in Hx. apply IH in Ha. congruence.
  - intros H. injection H as -> ->. rewrite eqb_refl. cbn. apply IH.
    reflexivity.
Qed.

Lemma path_eqb_eq p q : PurePath.eqb p q = true <-> p = q.
Proof.
  unfold PurePath.eqb. rewrite andb_true_iff, eqb_eq, list_eqb_eq.
  destruct p, q; cbn. split.
  - intros [-> ->]. reflexivity.
  - intros H. injection H as -> ->. split; reflexivity.
Qed.

Lemma is_prefix_iff a b : is_prefix a b = true <-> exists rest, b = a ++ rest.
Proof.
  revert b. induction a as [|x a IH]; intros b; cbn.
  - split; [ intros _; exists b; reflexivity | reflexivity ].
  - destruct b as [|y b].
    + split; [ discriminate | intros [rest H]; discriminate ].
    + rewrite andb_true_iff, eqb_eq, IH. split.
      * intros [-> [rest ->]]. exists rest. reflexivity.
      * intros [rest H]. injection H as -> ->. split; [ reflexivity | eauto ].
Qed.

Lemma in_proper_prefixes q t :
  In q (proper_prefixes t) <-> exists rest, rest <> [] /\ t = q ++ rest.
Proof.
  revert q. induction t as [|c t IH]; intros q; cbn.
  - split; [ intros [] | ].
    intros (rest & Hne & H). destruct q, rest; try discriminate.
    contradiction.
  - rewrite in_map_iff. split.
    + intros [<-|(q' & <- & Hq')].
      * exists (c :: t). split; [ discriminate | reflexivity ].
      * apply IH in Hq' as (rest & Hne & ->). exists rest.
        split; [ exact Hne | reflexivity ].
    + intros (rest & Hne & H). destruct q as [|x q].
      * left. reflexivity.
      * right. injection H as -> ->. exists q. split; [ reflexivity | ].
        apply IH. exists rest. split; [ exact Hne | reflexivity ].
Qed.

(** [is_relative_to] is containment: the same root, and the components
    of [other] start those of [p]. *)
Lemma is_relative_to_iff p other :
  is_relative_to p other = true
  <-> root p = root other /\ exists rel, tail p = tail other ++ rel.
Proof.
  unfold is_relative_to, parents.
  rewrite orb_true_iff, path_eqb_eq, existsb_exists. split.
  - intros [->|(q & Hq & E)].
    + split; [ reflexivity | ]. exists []. rewrite app_nil_r. reflexivity.
    + apply path_eqb_eq in E. subst q.
      apply in_map_iff in Hq as (t & Ht & Hin).
      apply in_rev, in_proper_prefixes in Hin as (rest & _ & Hrest).
      subst other. cbn. split; [ reflexivity | ]. exists rest. exact Hrest.
  - intros [Hr [rel Ht]]. destruct rel as [|c rel].
    + left. rewrite app_nil_r in Ht. destruct p, other; cbn in *. congruence.
    + right. exists other. split; [ | apply path_eqb_eq; reflexivity ].
      apply in_map_iff. exists (tail other). split.
      * destruct other; cbn in *. congruence.
      * apply -> in_rev. apply in_proper_prefixes. exists (c :: rel).
        split; [ discriminate | exact Ht ].
Qed.

Lemma skipn_length_app (a b : list str) : skipn (length a) (a ++ b) = b.
Proof. induction a as [|x a IH]; cbn; [ reflexivity | exact IH ]. Qed.

(** [relative_to] takes the root's components off the front. *)
Lemma relative_to_under other rel :
  relative_to (joinpath other (mkPath [] rel)) other = Ok (mkPath [] rel).
Proof.
  unfold relative_to, joinpath. cbn.
  replace (is_relative_to _ other) with true.
  - rewrite skipn_length_app. reflexivity.
  - symmetry. apply is_relative_to_iff. cbn. split; [ reflexivity | ].
    exists rel. reflexivity.
Qed.


Lemma at_or_under_iff d p :
  at_or_under d p = true <-> exists rel, p = joinpath d (mkPath [] rel).
Proof.
  unfold at_or_under, joinpath. cbn.
  rewrite andb_true_iff, eqb_eq, is_prefix_iff. split.
  - intros [Hr [rel Ht]]. exists rel. destruct p; cbn in *. congruence.
  - intros [rel ->]. cbn. split; [ reflexivity | eauto ].
Qed.

Lemma existsb_sep_false c : existsb (N.eqb sep) c = false <-> ~ In sep c.
Proof.
  split.
  - intros H Hin. assert (E : existsb (N.eqb sep) c = true); [ | congruence ].
    apply existsb_exists. exists sep. split; [ exact Hin | apply N.eqb_refl ].
  - intros H. destruct (existsb (N.eqb sep) c) eqn:E; [ | reflexivity ].
    exfalso. apply H. apply existsb_exists in E as (x & Hin & Hx).
    apply N.eqb_eq in Hx. subst x. exact Hin.
Qed.

Lemma wf_component_iff c :
  wf_component c = true <-> c <> [] /\ c <> [dot] /\ ~ In sep c.
Proof.
  unfold wf_component.
  rewrite !andb_true_iff, !negb_true_iff, eqb_neq, existsb_sep_false.
  destruct c; cbn; intuition congruence.
Qed.

Lemma wf_tail_app a b : wf_tail (a ++ b) = wf_tail a && wf_tail b.
Proof. apply forallb_app. Qed.

(** Parsing yields well-formed components only. *)
Lemma wf_parse s : wf_tail (tail (parse s)) = true.
Proof.
  unfold parse. destruct s as [|c s]; [ reflexivity | ].
  destruct (splitroot (c :: s)) as [r rel]. cbn [tail].
  apply forallb_forall. intros x Hx.
  apply filter_In in Hx as [Hin Hf].
  apply andb_true_iff in Hf as [Ht Hd]. apply negb_true_iff in Hd.
  apply wf_component_iff. split; [ | split ].
  - intros ->. discriminate.
  - apply eqb_neq. exact Hd.
  - pose proof (split_no_sep sep rel) as H. rewrite Forall_forall in H.
    apply H. exact Hin.
Qed.

Lemma join_wf_cons c rel :
  wf_tail (c :: rel) = true ->
  exists x s, join sep_str (c :: rel) = x :: s /\ x <> sep.
Proof.
  intros H. cbn in H. apply andb_true_iff in H as [Hc _].
  apply wf_component_iff in Hc as (Hne & _ & Hsep).
  destruct c as [|x c]; [ contradiction | ].
  assert (Hx : x <> sep) by (intros ->; apply Hsep; left; reflexivity).
  destruct rel; cbn; eauto.
Qed.

(** Parsing the joined components of a relative path gives it back. *)
Lemma parse_join rel :
  wf_tail rel = true -> parse (join sep_str rel) = mkPath [] rel.
Proof.
  intros Hwf. destruct rel as [|c rel]; [ reflexivity | ].
  destruct (join_wf_cons _ _ Hwf) as (x & s & E & Hx).
  unfold parse. rewrite E. unfold splitroot.
  rewrite (proj2 (N.eqb_neq x sep) Hx). cbn [negb]. rewrite <- E. f_equal.
  rewrite split_join.
  - apply forallb_filter_id. apply forallb_forall. intros y Hy.
    unfold wf_tail in Hwf. rewrite forallb_forall in Hwf.
    specialize (Hwf y Hy). apply wf_component_iff in Hwf as (Hne & Hd & _).
    apply andb_true_iff. split.
    + destruct y; [ contradiction | reflexivity ].
    + apply negb_true_iff, eqb_neq. exact Hd.
  - discriminate.
  - apply Forall_forall. intros y Hy.
    unfold wf_tail in Hwf. rewrite forallb_forall in Hwf.
    specialize (Hwf y Hy). apply wf_component_iff in Hwf. tauto.
Qed.

(** The text of a relative path: its components joined, or a dot. *)
Lemma to_str_relative rel :
  wf_tail rel = true ->
  to_str (mkPath [] rel)
  = match rel with [] => [dot] | _ => join sep_str rel end.
Proof.
  intros Hwf. unfold to_str. cbn [root tail app].
  destruct rel as [|c rel]; [ reflexivity | ].
  destruct (join_wf_cons _ _ Hwf) as (x & s & -> & _). reflexivity.
Qed.

Lemma as_posix_to_str p : as_posix p = to_str p.
Proof. apply replace_same. Qed.

(** ** The order on paths *)

Lemma list_ltb_irrefl a : list_ltb a a = false.
Proof.
  induction a as [|x a IH]; cbn; [ reflexivity | ].
  rewrite eqb_refl. exact IH.
Qed.

Lemma list_ltb_trans a b c :
  list_ltb a b = true -> list_ltb b c = true -> list_ltb a c = true.
Proof.
  revert b c. induction a as [|x a IH]; intros [|y b] [|z c]; cbn;
    try discriminate; try reflexivity.
  destruct (PyStr.eqb x y) eqn:Exy.
  - apply eqb_eq in Exy. subst y.
    destruct (PyStr.eqb x z) eqn:Exz; [ apply IH | trivial ].
  - destruct (PyStr.eqb y z) eqn:Eyz.
    + apply eqb_eq in Eyz. subst z. rewrite Exy. trivial.
    + intros H1 H2. pose proof (ltb_trans _ _ _ H1 H2) as H.
      destruct (PyStr.eqb x z) eqn:Exz; [ | exact H ].
      apply eqb_eq in Exz. subst z. rewrite ltb_irrefl in H. discriminate.
Qed.

Lemma list_ltb_total a b :
  list_ltb a b = false -> list_ltb b a = false -> a = b.
Proof.
  revert b. induction a as [|x a IH]; intros [|y b]; cbn;
    try discriminate; try reflexivity.
  destruct (PyStr.eqb x y) eqn:Exy.
  - apply eqb_eq in Exy. subst y. rewrite eqb_refl.
    intros H1 H2. f_equal. apply IH; assumption.
  - destruct (PyStr.eqb y x) eqn:Eyx.
    + apply eqb_eq in Eyx. subst y. rewrite eqb_refl in Exy. discriminate.
    + intros H1 H2. apply eqb_neq in Exy. exfalso. apply Exy.
      apply ltb_total; assumption.
Qed.

Lemma le_refl p : le p p.
Proof. apply list_ltb_irrefl. Qed.

Lemma ltb_le p q : ltb p q = true -> le p q.
Proof.
  unfold le, ltb. intros H.
  destruct (list_ltb (parts q) (parts p)) eqn:E; [ | reflexivity ].
  pose proof (list_ltb_trans _ _ _ H E) as C.
  rewrite list_ltb_irrefl in C. discriminate.
Qed.

Lemma le_antisym p q : le p q -> le q p -> parts p = parts q.
Proof. unfold le, ltb. intros H1 H2. apply list_ltb_total; assumption. Qed.

Lemma le_trans p q r : le p q -> le q r -> le p r.
Proof.
  unfold le, ltb. intros Hqp Hrq.
  destruct (list_ltb (parts r) (parts p)) eqn:Hrp; [ | reflexivity ].
  destruct (list_ltb (parts p) (parts q)) eqn:Hpq.
  - pose proof (list_ltb_trans _ _ _ Hrp Hpq). congruence.
  - rewrite (list_ltb_total _ _ Hpq Hqp) in Hrp. congruence.
Qed.

Lemma same_root_parts p q : root p = root q -> parts p = parts q -> p = q.
Proof.
  unfold parts. destruct p as [rp tp], q as [rq tq]. cbn. intros -> H.
  destruct (truthy rq); [ injection H as -> | subst ]; reflexivity.
Qed.

(** ** The built-in [sorted] *)

Lemma insert_perm x l : Permutation (x :: l) (insert x l).
Proof.
  induction l as [|y l IH]; cbn; [ apply Permutation_refl | ].
  destruct (ltb y x); [ | apply Permutation_refl ].
  eapply perm_trans; [ apply perm_swap | ]. apply perm_skip. exact IH.
Qed.

Lemma sorted_perm l : Permutation l (sorted l).
Proof.
  induction l as [|x l IH]; cbn; [ constructor | ].
  eapply perm_trans; [ apply perm_skip; exact IH | apply insert_perm ].
Qed.

Lemma insert_sorted x l :
  StronglySorted le l -> StronglySorted le (insert x l).
Proof.
  induction 1 as [|y l Hl IH Hy]; cbn.
  - constructor; constructor.
  - destruct (ltb y x) eqn:E.
    + constructor; [ exact IH | ].
      apply Forall_forall. intros z Hz.
      apply (Permutation_in _ (Permutation_sym (insert_perm x l))) in Hz.
      destruct Hz as [<-|Hz]; [ apply ltb_le; exact E | ].
      rewrite Forall_forall in Hy. apply Hy. exact Hz.
    + constructor; [ constructor; assumption | ].
      constructor; [ exact E | ].
      apply Forall_forall. intros z Hz. rewrite Forall_forall in Hy.
      apply le_trans with y; [ exact E | apply Hy; exact Hz ].
Qed.

Lemma sorted_sorted l : StronglySorted le (sorted l).
Proof.
  induction l as [|x l IH]; cbn; [ constructor | ].
  apply insert_sorted. exact IH.
Qed.

(** Two sorted arrangements of the same paths are the same list, as soon
    as the paths are told apart by their parts. *)
Lemma sorted_unique l1 :
  forall l2,
    (forall p q, In p l1 -> In q l1 -> parts p = parts q -> p = q) ->
    StronglySorted le l1 -> StronglySorted le l2 -> Permutation l1 l2 ->
    l1 = l2.
Proof.
  induction l1 as [|x l1 IH]; intros l2 Hinj S1 S2 HP.
  - apply Permutation_nil in HP. congruence.
  - destruct l2 as [|y l2].
    { symmetry in HP. apply Permutation_nil in HP. discriminate. }
    apply StronglySorted_inv in S1 as [S1 Hx].
    apply StronglySorted_inv in S2 as [S2 Hy].
    rewrite Forall_forall in Hx, Hy.
    assert (Hyin : In y (x :: l1)).
    { apply (Permutation_in _ (Permutation_sym HP)). left. reflexivity. }
    assert (Hxin : In x (y :: l2)).
    { apply (Permutation_in _ HP). left. reflexivity. }
    assert (E : x = y).
    { apply Hinj; [ left; reflexivity | exact Hyin | ].
      apply le_antisym.
      - destruct Hyin as [->|Hyin]; [ apply le_refl | apply Hx; exact Hyin ].
      - destruct Hxin as [->|Hxin]; [ apply le_refl | apply Hy; exact Hxin ]. }
    subst y. f_equal. apply IH.
    + intros p q Hp Hq. apply Hinj; right; assumption.
    + exact S1.
    + exact S2.
    + apply Permutation_cons_inv with x. exact HP.
Qed.

End PurePathFacts.

(* ================================================================== *)
(** * Facts about suffixes and recursive listings *)
(* ================================================================== *)

Module ListingFacts.

Import PyStrFacts PurePathFacts.

Lemma rfind_from_absent c s i found :
  ~ In c s -> rfind_from c s i found = found.
Proof.
  revert i found. induction s as [|x s IH]; intros i found H; cbn;
    [ reflexivity | ].
  destruct (N.eqb_spec x c) as [->|Hx].
  - exfalso. apply H. left. reflexivity.
  - apply IH. intros Hin. apply H. right. exact Hin.
Qed.

Lemma rfind_from_app c a b i found :
  rfind_from c (a ++ b) i found
  = rfind_from c b (i + Z.of_nat (length a))%Z (rfind_from c a i found).
Proof.
  revert i found. induction a as [|x a IH]; intros i found; cbn [app].
  - cbn. rewrite Z.add_0_r. reflexivity.
  - cbn [rfind_from length]. rewrite IH. f_equal. lia.
Qed.

(** The last dot of [stem + ".ext"] when [ext] has none. *)
Lemma rfind_last_dot stem ext :
  ~ In dot ext -> rfind dot (stem ++ dot :: ext) = Z.of_nat (length stem).
Proof.
  intros H. unfold rfind. rewrite rfind_from_app. cbn [rfind_from].
  rewrite N.eqb_refl. rewrite rfind_from_absent by exact H. lia.
Qed.

Lemma last_snoc (dir : list str) nm : last (dir ++ [nm]) [] = nm.
Proof. apply last_last. Qed.

Lemma firstn_length_app (a b : str) : firstn (length a) (a ++ b) = a.
Proof.
  induction a as [|x a IH]; cbn; [ reflexivity | ]. rewrite IH. reflexivity.
Qed.

(** [suffix] of a name ending in [".paper"]: the extension, unless the
    name is nothing else. *)
Lemma suffix_paper r dir stem :
  suffix (mkPath r (dir ++ [stem ++ lit ".paper"]))
  = if truthy stem then lit ".paper" else [].
Proof.
  unfold suffix, PurePath.name. cbn [tail]. rewrite last_snoc.
  change (lit ".paper") with (dot :: lit "paper").
  rewrite rfind_last_dot.
  2:{ cbv. intros H. repeat (destruct H as [H|H]; [ discriminate | ]).
      exact H. }
  rewrite Nat2Z.id.
  destruct stem as [|x stem]; [ reflexivity | ].
  match goal with |- (if ?c then _ else _) = _ => replace c with true end.
  2:{ symmetry. apply andb_true_iff.
      split; apply Z.ltb_lt; rewrite ?length_app; cbn [length];
        change (length (lit "paper")) with 5; lia. }
  cbn [truthy].
  change (skipn (length (x :: stem)) ((x :: stem) ++ dot :: lit "paper")
          = dot :: lit "paper").
  induction (x :: stem) as [|y l IH]; [ reflexivity | exact IH ].
Qed.

(** [with_suffix] on a name ending in [".paper"]: the extension is
    replaced, or added when the name is nothing but [".paper"]. *)
Lemma with_suffix_paper r dir stem sfx :
  valid_suffix sfx = true ->
  with_suffix (mkPath r (dir ++ [stem ++ lit ".paper"])) sfx
  = Ok (mkPath r (dir ++ [(if truthy stem then stem else lit ".paper") ++ sfx])).
Proof.
  intros Hv. unfold valid_suffix in Hv.
  apply andb_true_iff in Hv as [H1 H2].
  apply negb_true_iff in H1, H2.
  unfold with_suffix. rewrite H1, H2. rewrite suffix_paper.
  unfold PurePath.name. cbn [tail root]. rewrite last_snoc.
  rewrite removelast_last.
  replace (truthy (stem ++ lit ".paper")) with true
    by (destruct stem; reflexivity).
  cbn [negb].
  destruct stem as [|x stem]; cbn [truthy negb]; [ reflexivity | ].
  rewrite length_app.
  replace (length (x :: stem) + length (lit ".paper") - length (lit ".paper"))
    with (length (x :: stem)) by lia.
  rewrite firstn_length_app. reflexivity.
Qed.

(** ** Recursive listings *)

Section TreeInduction.

Variable P : Tree -> Prop.
Hypothesis P_File : P File.
Hypothesis P_Dir :
  forall entries, Forall (fun e => P (snd e)) entries -> P (Dir entries).

Fixpoint Tree_nested_ind (t : Tree) : P t :=
  match t with
  | File => P_File
  | Dir entries =>
      @P_Dir entries
        ((fix all (es : list (str * Tree)) : Forall (fun e => P (snd e)) es :=
            match es with
            | [] => Forall_nil _
            | e :: es' =>
                Forall_cons e
                  (match e return P (snd e) with
                   | (_, sub) => Tree_nested_ind sub
                   end)
                  (all es')
            end) entries)
  end.

End TreeInduction.

Lemma rglob_Dir pat here entries :
  rglob pat here (Dir entries)
  = List.map (child here) (filter (fnmatch pat) (List.map fst entries))
    ++ flat_map (fun e => rglob pat (child here (fst e)) (snd e)) entries.
Proof.
  cbn [rglob]. f_equal.
  induction entries as [|[nm sub] es IH]; cbn; [ reflexivity | ].
  rewrite IH. reflexivity.
Qed.

(** What a recursive listing finds: exactly the entries below [here]
    whose name matches the pattern. *)
Lemma in_rglob pat t :
  forall here p,
    In p (rglob pat here t)
    <-> exists dir nm,
          node_at t (dir ++ [nm]) /\ fnmatch pat nm = true
          /\ p = mkPath (root here) (tail here ++ dir ++ [nm]).
Proof.
  induction t as [|entries IH] using Tree_nested_ind; intros here p.
  - cbn [rglob In]. split; [ intros [] | ].
    intros (dir & nm & H & _). destruct dir; exact H.
  - rewrite Forall_forall in IH.
    rewrite rglob_Dir, in_app_iff, in_map_iff, in_flat_map. split.
    + intros [(nm & <- & Hnm)|(e & He & Hp)].
      * apply filter_In in Hnm as [Hin Hm].
        apply in_map_iff in Hin as ([nm' sub] & E & Hin). cbn in E. subst nm'.
        exists [], nm. split; [ | split; [ exact Hm | reflexivity ] ].
        cbn. exists sub. split; [ exact Hin | exact I ].
      * apply (IH e He) in Hp as (dir & nm & Hnode & Hm & ->).
        exists (fst e :: dir), nm. split; [ | split; [ exact Hm | ] ].
        -- cbn. exists (snd e). split; [ | exact Hnode ].
           destruct e; exact He.
        -- cbn. rewrite <- app_assoc. reflexivity.
    + intros ([|c dir] & nm & Hnode & Hm & ->).
      * left. exists nm. split; [ reflexivity | ].
        apply filter_In. split; [ | exact Hm ].
        cbn in Hnode. destruct Hnode as (sub & Hin & _).
        apply in_map_iff. exists (nm, sub). split; [ reflexivity | exact Hin ].
      * right. cbn in Hnode. destruct Hnode as (sub & Hin & Hnode).
        exists (c, sub). split; [ exact Hin | ].
        apply (IH (c, sub) Hin). exists dir, nm.
        split; [ exact Hnode | split; [ exact Hm | ] ].
        cbn. rewrite <- app_assoc. reflexivity.
Qed.

End ListingFacts.

(* ================================================================== *)
(** * Facts about the program *)
(* ================================================================== *)

Section ProgramFacts.

Import PyStrFacts PurePathFacts ListingFacts.

Variable R : Type.
Variable env : Env R.

Lemma resolve_wf p file :
  resolve env p = Ok file -> wf_tail (tail file) = true.
Proof.
  unfold resolve, bind. destruct (realpath env p); [ | discriminate ].
  intros H. injection H as <-. apply wf_parse.
Qed.

Lemma resolve_raise p e :
  resolve env p = Raise e <-> realpath env p = Raise e.
Proof.
  unfold resolve, bind. destruct (realpath env p); split; congruence.
Qed.

Lemma under_wf p file root_dir rel :
  resolve env p = Ok file ->
  file = joinpath root_dir (mkPath [] rel) ->
  wf_tail rel = true.
Proof.
  intros Hr H. pose proof (resolve_wf _ Hr) as Hwf. rewrite H in Hwf.
  unfold joinpath in Hwf. cbn in Hwf. rewrite wf_tail_app in Hwf.
  apply andb_true_iff in Hwf. tauto.
Qed.

Lemma posix_form_to_str rel :
  wf_tail rel = true -> as_posix (mkPath [] rel) = posix_form rel.
Proof.
  intros H. rewrite as_posix_to_str, to_str_relative by exact H.
  destruct rel; reflexivity.
Qed.

Lemma contained_in_iff file dir :
  contained_in file dir <-> is_relative_to file dir = true.
Proof.
  unfold contained_in. rewrite is_relative_to_iff. split.
  - intros [rel ->]. cbn. split; [ reflexivity | eauto ].
  - intros [Hr [rel Ht]]. exists rel. unfold joinpath. cbn.
    destruct file; cbn in *. congruence.
Qed.

(** Once both paths are resolved, [compute_remote_path] is a matter of
    [relative_to]. *)
Lemma compute_remote_path_resolved local_file dropbox_root file root_dir :
  resolve env local_file = Ok file ->
  resolve env dropbox_root = Ok root_dir ->
  compute_remote_path env local_file dropbox_root
  = match relative_to file root_dir with
    | Ok relative => Ok (lit "/" ++ as_posix relative)
    | Raise (ValueError _) =>
        Raise (RuntimeError (to_str local_file
                             ++ lit " is not inside the Dropbox root "
                             ++ to_str dropbox_root))
    | Raise e => Raise e
    end.
Proof.
  intros H1 H2. unfold compute_remote_path. rewrite H1. cbn [bind].
  rewrite H2. reflexivity.
Qed.

Lemma compute_remote_path_under local_file dropbox_root file root_dir rel :
  resolve env local_file = Ok file ->
  resolve env dropbox_root = Ok root_dir ->
  file = joinpath root_dir (mkPath [] rel) ->
  compute_remote_path env local_file dropbox_root
  = Ok (lit "/" ++ posix_form rel).
Proof.
  intros H1 H2 H.
  rewrite (compute_remote_path_resolved _ _ H1 H2), H, relative_to_under.
  rewrite posix_form_to_str; [ reflexivity | ].
  apply (under_wf _ H1 H).
Qed.


(** What [resolve] raises, [compute_remote_path] raises: the file is
    resolved first, and a [ValueError] is caught like that of
    [relative_to]. *)
Lemma compute_remote_path_unresolved local_file dropbox_root e :
  resolve env local_file = Raise e
  \/ (exists file, resolve env local_file = Ok file
                   /\ resolve env dropbox_root = Raise e) ->
  compute_remote_path env local_file dropbox_root
  = Raise (match e with
           | ValueError _ =>
               RuntimeError (to_str local_file
                             ++ lit " is not inside the Dropbox root "
                             ++ to_str dropbox_root)
           | _ => e
           end).
Proof.
  unfold compute_remote_path.
  intros [H|(file & H1 & H2)].
  - rewrite H. cbn [bind]. destruct e; reflexivity.
  - rewrite H1. cbn [bind]. rewrite H2. cbn [bind]. destruct e; reflexivity.
Qed.

(** What [compute_remote_path] returns, it returns for a file contained
    within the root. *)
Lemma compute_remote_path_inv local_file dropbox_root remote_path :
  compute_remote_path env local_file dropbox_root = Ok remote_path ->
  exists file root_dir rel,
    resolve env local_file = Ok file
    /\ resolve env dropbox_root = Ok root_dir
    /\ wf_tail rel = true
    /\ file = joinpath root_dir (mkPath [] rel)
    /\ remote_path = lit "/" ++ posix_form rel.
Proof.
  intros H.
  destruct (resolve env local_file) as [file|e] eqn:H1.
  2:{ rewrite (compute_remote_path_unresolved local_file dropbox_root
                 (or_introl H1)) in H. discriminate. }
  destruct (resolve env dropbox_root) as [root_dir|e] eqn:H2.
  2:{ rewrite (@compute_remote_path_unresolved local_file dropbox_root e) in H;
        [ discriminate | right; eauto ]. }
  destruct (is_relative_to file root_dir) eqn:E.
  - apply contained_in_iff in E as [rel Hrel].
    exists file, root_dir, rel.
    rewrite (compute_remote_path_under _ _ H1 H2 Hrel) in H.
    split; [ reflexivity | ]. split; [ reflexivity | ].
    split; [ apply (under_wf _ H1 Hrel) | ].
    split; [ exact Hrel | congruence ].
  - rewrite (compute_remote_path_resolved _ _ H1 H2) in H.
    unfold relative_to in H. rewrite E in H. discriminate.
Qed.

(** What [compute_remote_path] raises is its own [RuntimeError] or what
    the resolution of one of the two paths raised. *)
Lemma compute_remote_path_raise_inv local_file dropbox_root e :
  compute_remote_path env local_file dropbox_root = Raise e ->
  e = RuntimeError (to_str local_file
                    ++ lit " is not inside the Dropbox root "
                    ++ to_str dropbox_root)
  \/ realpath env local_file = Raise e
  \/ realpath env dropbox_root = Raise e.
Proof.
  intros H.
  destruct (resolve env local_file) as [file|e1] eqn:H1.
  2:{ rewrite (compute_remote_path_unresolved local_file dropbox_root
                 (or_introl H1)) in H.
      apply resolve_raise in H1.
      destruct e1; injection H as <-; auto. }
  destruct (resolve env dropbox_root) as [root_dir|e2] eqn:H2.
  2:{ rewrite (@compute_remote_path_unresolved local_file dropbox_root e2) in H;
        [ | right; eauto ].
      apply resolve_raise in H2.
      destruct e2; injection H as <-; auto. }
  rewrite (compute_remote_path_resolved _ _ H1 H2) in H.
  unfold relative_to in H.
  destruct (is_relative_to file root_dir); [ discriminate | ].
  injection H as <-. auto.
Qed.

Lemma decode_content_ok response :
  exists text,
    decode_content response = Ok text
    /\ Utf8.decode Utf8.Replace (Dropbox.content response) = Some text.
Proof.
  unfold decode_content, Utf8.bytes_decode.
  destruct (Utf8Facts.decode_replace_some (Dropbox.content response))
    as [text Ht].
  destruct (Utf8.decode Utf8.Strict (Dropbox.content response))
    as [text'|] eqn:Hs.
  - apply Utf8Facts.decode_strict_replace in Hs.
    exists text'. split; [ reflexivity | exact Hs ].
  - exists text. rewrite Ht. split; [ reflexivity | reflexivity ].
Qed.

Lemma export_paper_ok w remote_path export_format metadata response st :
  files_export env (remote w) remote_path export_format
  = (Ok (metadata, response), st) ->
  exists text,
    Utf8.decode Utf8.Replace (Dropbox.content response) = Some text
    /\ export_paper env w remote_path export_format
       = (Ok (lit "# "
              ++ getattr_name metadata (rsplit_last sep remote_path)
              ++ (if truthy export_format
                  then lit " (exported as " ++ export_format ++ lit ")"
                  else [])
              ++ [newline; newline] ++ text),
          {| remote := st;
             trace := trace w ++ [FilesExport remote_path export_format] |}).
Proof.
  intros H. destruct (decode_content_ok response) as (text & Hd & Hr).
  exists text. split; [ exact Hr | ].
  unfold export_paper. cbn [remote emit trace]. rewrite H, Hd. reflexivity.
Qed.

Lemma export_paper_raise w remote_path export_format e st :
  files_export env (remote w) remote_path export_format = (Raise e, st) ->
  export_paper env w remote_path export_format
  = (Raise (match e with
            | ApiError msg => RuntimeError (lit "Dropbox export failed: " ++ msg)
            | _ => e
            end),
     {| remote := st;
        trace := trace w ++ [FilesExport remote_path export_format] |}).
Proof.
  intros H. unfold export_paper. cbn [remote emit trace]. rewrite H.
  destruct e; reflexivity.
Qed.

(** [export_paper] adds the request to the trace, whatever comes back. *)
Lemma export_paper_trace w remote_path export_format :
  trace (snd (export_paper env w remote_path export_format))
  = trace w ++ [FilesExport remote_path export_format].
Proof.
  unfold export_paper. cbn [emit remote trace].
  destruct (files_export env (remote w) remote_path export_format)
    as [[[metadata response]|e] st]; [ reflexivity | ].
  destruct e; reflexivity.
Qed.

(** ** Where an export is written *)

Lemma parent_snoc r (dir : list str) nm :
  parent (mkPath r (dir ++ [nm])) = mkPath r dir.
Proof.
  unfold parent. cbn [tail root]. rewrite removelast_last.
  destruct (dir ++ [nm]) eqn:E; [ | reflexivity ].
  destruct dir; discriminate.
Qed.

Lemma with_suffix_shape rel sfx q :
  with_suffix (mkPath [] rel) sfx = Ok q ->
  exists nm, q = mkPath [] (removelast rel ++ [nm]).
Proof.
  unfold with_suffix.
  repeat match goal with
         | |- context [if ?c then _ else _] => destruct c
         end; try discriminate; intros H; injection H as <-; eauto.
Qed.

(** A target lies under the output directory, and so does its parent. *)
Lemma target_of_shape pd od ext p target :
  target_of pd od ext p = Ok target ->
  exists dir nm,
    target = mkPath (root od) (tail od ++ dir ++ [nm])
    /\ parent target = mkPath (root od) (tail od ++ dir).
Proof.
  unfold target_of, bind, relative_to.
  destruct (is_relative_to p pd); [ | discriminate ].
  destruct (with_suffix _ ext) as [q|] eqn:Hq; [ | discriminate ].
  apply with_suffix_shape in Hq as [nm ->].
  intros H. injection H as <-. unfold joinpath. cbn [root tail truthy].
  exists (removelast (skipn (length (tail pd)) (tail p))), nm.
  split; [ reflexivity | ].
  rewrite app_assoc, parent_snoc. reflexivity.
Qed.

(** The target of a discovered file. *)
Lemma target_of_discovered pd od ext dir stem :
  valid_suffix ext = true ->
  target_of pd od ext
            (mkPath (root pd) (tail pd ++ dir ++ [stem ++ lit ".paper"]))
  = Ok (mkPath (root od)
               (tail od ++ dir
                ++ [(if truthy stem then stem else lit ".paper") ++ ext])).
Proof.
  intros Hv. unfold target_of, bind.
  change (mkPath (root pd) (tail pd ++ dir ++ [stem ++ lit ".paper"]))
    with (joinpath pd (mkPath [] (dir ++ [stem ++ lit ".paper"]))).
  rewrite relative_to_under, with_suffix_paper by exact Hv. reflexivity.
Qed.

Lemma valid_suffix_extension export_format :
  valid_suffix (extension_of export_format) = true.
Proof. unfold extension_of. destruct (PyStr.eqb _ _); reflexivity. Qed.

(** The target computation raises [ValueError] only. *)
Lemma target_of_raises pd od ext p e :
  target_of pd od ext p = Raise e -> exists msg, e = ValueError msg.
Proof.
  unfold target_of, bind, relative_to.
  destruct (is_relative_to p pd).
  - unfold with_suffix.
    repeat match goal with
           | |- context [if ?c then _ else _] => destruct c
           end; intros H; try discriminate; injection H as <-; eauto.
  - intros H. injection H as <-. eauto.
Qed.

(** ** The loop *)

Section Loop.

Variables paper_dir output_dir dropbox_root : Path.
Variables export_format extension : str.

Let loop :=
  process_files env paper_dir output_dir dropbox_root export_format extension.

Let processing (p : Path) : Event := Print (lit "Processing " ++ to_str p).

(** The directory creation and the write that follow a successful
    export, and the files after them. *)
Let store (target : Path) (text : str) (rest : list Path) (w2 : World R)
  : Outcome * World R :=
  match mkdir env (trace w2) (parent target) with
  | Some e => (Raised e, emit (Mkdir (parent target)) w2)
  | None =>
      match write_text env (trace w2 ++ [Mkdir (parent target)]) target text with
      | Some e =>
          (Raised e,
           emit (WriteText target text) (emit (Mkdir (parent target)) w2))
      | None =>
          loop rest
               (emit (WriteText target text) (emit (Mkdir (parent target)) w2))
      end
  end.

Lemma loop_cons_raise p rest w e w2 :
  attempt env dropbox_root export_format p (emit (processing p) w)
  = (Raise e, w2) ->
  loop (p :: rest) w
  = match e with
    | AuthError msg =>
        (Raised (SystemExit (lit "Dropbox authentication failed: " ++ msg)), w2)
    | RuntimeError msg =>
        loop rest (emit (Print (lit "  Skipping: " ++ msg)) w2)
    | _ => (Raised e, w2)
    end.
Proof.
  intros H. unfold loop, processing in *. cbn [process_files]. rewrite H.
  destruct e; reflexivity.
Qed.

Lemma loop_cons_ok p rest w text w2 :
  attempt env dropbox_root export_format p (emit (processing p) w)
  = (Ok text, w2) ->
  loop (p :: rest) w
  = match target_of paper_dir output_dir extension p with
    | Raise e => (Raised e, w2)
    | Ok target_path => store target_path text rest w2
    end.
Proof.
  intros H. unfold loop, store, processing in *. cbn [process_files].
  rewrite H. reflexivity.
Qed.


(** An authentication failure ends the loop on the spot. *)
Lemma loop_auth p rest w remote_path msg st :
  compute_remote_path env p dropbox_root = Ok remote_path ->
  files_export env (remote w) remote_path export_format
  = (Raise (AuthError msg), st) ->
  loop (p :: rest) w
  = (Raised (SystemExit (lit "Dropbox authentication failed: " ++ msg)),
     {| remote := st;
        trace := trace w ++ [processing p;
                             FilesExport remote_path export_format] |}).
Proof.
  intros Hp He.
  rewrite (@loop_cons_raise p rest w (AuthError msg)
             {| remote := st;
                trace := trace w ++ [processing p;
                                     FilesExport remote_path export_format] |});
    [ reflexivity | ].
  unfold attempt. rewrite Hp.
  rewrite (@export_paper_raise (emit (processing p) w) remote_path
             export_format (AuthError msg) st) by exact He.
  cbn [emit trace remote]. rewrite <- app_assoc. reflexivity.
Qed.

(** The case analysis of one turn of the loop. *)
Lemma loop_cons p rest w :
  loop (p :: rest) w
  = let (r, w2) :=
      attempt env dropbox_root export_format p (emit (processing p) w) in
    match r with
    | Raise (AuthError msg) =>
        (Raised (SystemExit (lit "Dropbox authentication failed: " ++ msg)), w2)
    | Raise (RuntimeError msg) =>
        loop rest (emit (Print (lit "  Skipping: " ++ msg)) w2)
    | Raise e => (Raised e, w2)
    | Ok text =>
        match target_of paper_dir output_dir extension p with
        | Raise e => (Raised e, w2)
        | Ok target_path => store target_path text rest w2
        end
    end.
Proof. reflexivity. Qed.

(** The loop over a batch cut in two. *)
Lemma loop_app pre post w :
  loop (pre ++ post) w
  = match loop pre w with
    | (Returned _, w1) => loop post w1
    | (Raised e, w1) => (Raised e, w1)
    end.
Proof.
  revert w. induction pre as [|p pre IH]; intros w.
  - reflexivity.
  - cbn [app]. rewrite !loop_cons.
    destruct (attempt env dropbox_root export_format p _) as [[text|e] w2].
    + destruct (target_of paper_dir output_dir extension p);
        [ | reflexivity ].
      unfold store.
      destruct (mkdir env _ _); [ reflexivity | ].
      destruct (write_text env _ _ _); [ reflexivity | apply IH ].
    + destruct e; try reflexivity. apply IH.
Qed.

Lemma loop_returns_zero files w code w' :
  loop files w = (Returned code, w') -> code = 0%Z.
Proof.
  revert w. induction files as [|p files IH]; intros w.
  - cbn. intros H. injection H as <- _. reflexivity.
  - rewrite loop_cons.
    destruct (attempt env dropbox_root export_format p _) as [[text|e] w2].
    + destruct (target_of paper_dir output_dir extension p);
        [ | discriminate ].
      unfold store.
      destruct (mkdir env _ _); [ discriminate | ].
      destruct (write_text env _ _ _); [ discriminate | apply IH ].
    + destruct e; try discriminate. apply IH.
Qed.

(** What one attempt adds to the trace: at most the export request. *)
Lemma attempt_trace p w :
  exists new,
    trace (snd (attempt env dropbox_root export_format p w)) = trace w ++ new
    /\ Forall (fun e => exists r f, e = FilesExport r f) new.
Proof.
  unfold attempt.
  destruct (compute_remote_path env p dropbox_root) as [remote_path|e].
  - exists [FilesExport remote_path export_format]. split.
    + apply export_paper_trace.
    + constructor; [ eauto | constructor ].
  - exists []. split; [ cbn; rewrite app_nil_r; reflexivity | constructor ].
Qed.

(** Every event of the loop is a console line, an export request, or a
    directory creation or write for a computed target. *)
Lemma loop_trace (Q : Event -> Prop) :
  (forall line, Q (Print line)) ->
  (forall r f, Q (FilesExport r f)) ->
  (forall p target text,
      target_of paper_dir output_dir extension p = Ok target ->
      Q (Mkdir (parent target)) /\ Q (WriteText target text)) ->
  forall files w,
  exists new, trace (snd (loop files w)) = trace w ++ new /\ Forall Q new.
Proof.
  intros QP QE QT.
  induction files as [|p files IH]; intros w.
  - exists []. split; [ cbn; rewrite app_nil_r; reflexivity | constructor ].
  - rewrite loop_cons.
    destruct (attempt_trace p (emit (processing p) w)) as (na & Ha & Qa).
    assert (Qa' : Forall Q na).
    { eapply Forall_impl; [ | exact Qa ]. intros e (r & f & ->). apply QE. }
    destruct (attempt env dropbox_root export_format p _) as [res w2].
    cbn [snd emit trace] in Ha.
    assert (Hpre : Forall Q (processing p :: na)).
    { constructor; [ apply QP | exact Qa' ]. }
    assert (Hdone : exists new, trace w2 = trace w ++ new /\ Forall Q new).
    { exists (processing p :: na). split; [ | exact Hpre ].
      rewrite Ha, <- app_assoc. reflexivity. }
    destruct res as [text|e].
    + destruct (target_of paper_dir output_dir extension p) as [target|e] eqn:Ht;
        [ | exact Hdone ].
      destruct (QT p target text Ht) as [Qm Qw].
      unfold store.
      destruct (mkdir env _ _).
      { exists ((processing p :: na) ++ [Mkdir (parent target)]). split.
        - cbn [snd emit trace]. rewrite Ha, <- !app_assoc. reflexivity.
        - apply Forall_app. split; [ exact Hpre | ].
          constructor; [ exact Qm | constructor ]. }
      destruct (write_text env _ _ _).
      { exists ((processing p :: na)
                ++ [Mkdir (parent target); WriteText target text]). split.
        - cbn [snd emit trace]. rewrite Ha, <- !app_assoc. reflexivity.
        - apply Forall_app. split; [ exact Hpre | ].
          constructor; [ exact Qm | constructor; [ exact Qw | constructor ] ]. }
      destruct (IH (emit (WriteText target text)
                         (emit (Mkdir (parent target)) w2)))
        as (new & Hn & Qn).
      exists ((processing p :: na)
              ++ [Mkdir (parent target); WriteText target text] ++ new).
      split.
      * rewrite Hn. cbn [emit trace]. rewrite Ha.
        rewrite <- !app_assoc. reflexivity.
      * apply Forall_app. split; [ exact Hpre | ].
        constructor; [ exact Qm | constructor; [ exact Qw | exact Qn ] ].
    + destruct e; try exact Hdone.
      destruct (IH (emit (Print (lit "  Skipping: " ++ msg)) w2))
        as (new & Hn & Qn).
      exists ((processing p :: na)
              ++ [Print (lit "  Skipping: " ++ msg)] ++ new).
      split.
      * rewrite Hn. cbn [emit trace]. rewrite Ha.
        rewrite <- !app_assoc. reflexivity.
      * apply Forall_app. split; [ exact Hpre | ].
        constructor; [ apply QP | exact Qn ].
Qed.

Lemma announced_app a b : announced (a ++ b) = announced a ++ announced b.
Proof. apply filter_app. Qed.

Lemma announced_attempt p w :
  announced (trace (snd (attempt env dropbox_root export_format p w)))
  = announced (trace w).
Proof.
  destruct (attempt_trace p w) as (new & -> & Hnew).
  rewrite announced_app.
  replace (announced new) with (@nil Event); [ apply app_nil_r | ].
  induction Hnew as [|e new (r & f & ->) _ IH]; [ reflexivity | exact IH ].
Qed.

(** The files the loop announces are the first files of the batch, in
    the order of the batch: all of them when the loop runs to its end. *)
Lemma loop_announced files :
  forall w,
  exists k,
    announced (trace (snd (loop files w)))
    = announced (trace w) ++ List.map processing (firstn k files)
    /\ (forall code, fst (loop files w) = Returned code -> k = length files).
Proof.
  induction files as [|p files IH]; intros w.
  - exists 0. cbn. rewrite app_nil_r. split; reflexivity.
  - rewrite loop_cons.
    pose proof (announced_attempt p (emit (processing p) w)) as Ha.
    destruct (attempt env dropbox_root export_format p _) as [res w2].
    cbn [snd emit trace] in Ha. rewrite announced_app in Ha.
    change (announced [processing p]) with [processing p] in Ha.
    assert (Hstop : forall e (w3 : World R),
               announced (trace w3) = announced (trace w2) ->
               exists k,
                 announced (trace (snd (Raised e, w3)))
                 = announced (trace w)
                   ++ List.map processing (firstn k (p :: files))
                 /\ (forall code, fst (Raised e, w3) = Returned code ->
                                  k = length (p :: files))).
    { intros e w3 E. exists 1. cbn [snd fst firstn List.map]. rewrite E, Ha.
      split; [ reflexivity | discriminate ]. }
    destruct res as [text|e].
    + destruct (target_of paper_dir output_dir extension p) as [target|e];
        [ | apply Hstop; reflexivity ].
      unfold store.
      destruct (mkdir env _ _).
      { apply Hstop. cbn [emit trace]. rewrite announced_app.
        apply app_nil_r. }
      destruct (write_text env _ _ _).
      { apply Hstop. cbn [emit trace]. rewrite !announced_app.
        cbn [announced filter is_processing]. rewrite !app_nil_r.
        reflexivity. }
      destruct (IH (emit (WriteText target text)
                         (emit (Mkdir (parent target)) w2)))
        as (k & Hk & Hret).
      exists (S k). split.
      * rewrite Hk. cbn [emit trace]. rewrite !announced_app, Ha.
        cbn [announced filter is_processing firstn List.map app].
        rewrite ?app_nil_r, <- ?app_assoc. reflexivity.
      * intros code Hc. cbn [length]. f_equal. apply (Hret code). exact Hc.
    + destruct e; try (apply Hstop; reflexivity).
      destruct (IH (emit (Print (lit "  Skipping: " ++ msg)) w2))
        as (k & Hk & Hret).
      exists (S k). split.
      * rewrite Hk. cbn [emit trace]. rewrite !announced_app, Ha.
        change (announced [Print (lit "  Skipping: " ++ msg)]) with (@nil Event).
        cbn [firstn List.map app].
        rewrite ?app_nil_r, <- ?app_assoc. reflexivity.
      * intros code Hc. cbn [length]. f_equal. apply (Hret code). exact Hc.
Qed.

(** A batch in which no attempt fails fatally and no directory creation
    or write raises is processed to its end. *)
Lemma loop_completes files :
  (forall p, In p files ->
             exists target,
               target_of paper_dir output_dir extension p = Ok target) ->
  (forall p w, In p files ->
               fatal (fst (attempt env dropbox_root export_format p w)) = false) ->
  (forall p target history text,
      In p files ->
      target_of paper_dir output_dir extension p = Ok target ->
      mkdir env history (parent target) = None
      /\ write_text env history target text = None) ->
  forall w, exists w', loop files w = (Returned 0, w').
Proof.
  induction files as [|p files IH]; intros Ht Hf Hio w.
  - exists w. reflexivity.
  - rewrite loop_cons.
    pose proof (Hf p (emit (processing p) w) (or_introl eq_refl)) as Hp.
    assert (Hrest : forall w', exists w'', loop files w' = (Returned 0, w'')).
    { apply IH; intros; [ apply Ht | apply Hf | eapply Hio; eauto ];
        right; assumption. }
    destruct (attempt env dropbox_root export_format p _) as [[text|e] w2].
    + destruct (Ht p (or_introl eq_refl)) as [target Htarget].
      rewrite Htarget. unfold store.
      destruct (Hio p target (trace w2) text (or_introl eq_refl) Htarget)
        as [-> _].
      destruct (Hio p target (trace w2 ++ [Mkdir (parent target)]) text
                    (or_introl eq_refl) Htarget) as [_ ->].
      apply Hrest.
    + destruct e; try discriminate. apply Hrest.
Qed.

(** The trace of the loop, file by file. *)
Lemma loop_events files :
  forall w,
  exists new,
    trace (snd (loop files w)) = trace w ++ new
    /\ batch_events env paper_dir output_dir dropbox_root
                    export_format extension
                    files (returned (fst (loop files w))) new.
Proof.
  induction files as [|p files IH]; intros w.
  - exists []. cbn. rewrite app_nil_r. split; [ reflexivity | constructor ].
  - rewrite loop_cons. unfold attempt.
    destruct (compute_remote_path env p dropbox_root) as [remote_path|e] eqn:Hc.
    + pose proof (export_paper_trace (emit (processing p) w)
                                     remote_path export_format) as Ht.
      destruct (export_paper env (emit (processing p) w) remote_path
                             export_format) as [res w2].
      cbn [snd emit trace] in Ht. rewrite <- app_assoc in Ht. cbn [app] in Ht.
      assert (Hstop : forall e,
                 exists new,
                   trace (snd (Raised e, w2)) = trace w ++ new
                   /\ batch_events env paper_dir output_dir dropbox_root
                                   export_format extension (p :: files)
                                   (returned (fst (Raised e, w2))) new).
      { intros e. eexists. split; [ exact Ht | ].
        apply batch_stop. eapply stopped_export. exact Hc. }
      assert (Hskip : forall msg,
                 exists new,
                   trace (snd (loop files
                                    (emit (Print (lit "  Skipping: " ++ msg)) w2)))
                   = trace w ++ new
                   /\ batch_events env paper_dir output_dir dropbox_root
                        export_format extension (p :: files)
                        (returned
                           (fst (loop files
                                      (emit (Print (lit "  Skipping: " ++ msg))
                                            w2)))) new).
      { intros msg.
        destruct (IH (emit (Print (lit "  Skipping: " ++ msg)) w2))
          as (new & Hn & Hb).
        exists ([processing p; FilesExport remote_path export_format;
                 Print (lit "  Skipping: " ++ msg)] ++ new).
        split.
        - rewrite Hn. cbn [emit trace]. rewrite Ht, <- !app_assoc.
          reflexivity.
        - apply batch_next; [ | exact Hb ].
          eapply skipped_export. exact Hc. }
      destruct res as [text|e].
      * destruct (target_of paper_dir output_dir extension p)
          as [target|e] eqn:Htarget; [ | apply Hstop ].
        unfold store.
        destruct (mkdir env _ _).
        { eexists. split.
          - cbn [snd emit trace]. rewrite Ht, <- app_assoc. reflexivity.
          - apply batch_stop. eapply stopped_mkdir; eassumption. }
        destruct (write_text env _ _ _).
        { eexists. split.
          - cbn [snd emit trace]. rewrite Ht, <- !app_assoc. reflexivity.
          - apply batch_stop. eapply stopped_write; eassumption. }
        destruct (IH (emit (WriteText target text)
                           (emit (Mkdir (parent target)) w2)))
          as (new & Hn & Hb).
        exists ([processing p; FilesExport remote_path export_format;
                 Mkdir (parent target); WriteText target text] ++ new).
        split.
        -- rewrite Hn. cbn [emit trace]. rewrite Ht, <- !app_assoc.
           reflexivity.
        -- apply batch_next; [ | exact Hb ].
           eapply written; eassumption.
      * destruct e; try apply Hstop. apply Hskip.
    + assert (Hstop : forall e',
                 exists new,
                   trace (snd (Raised e', emit (processing p) w))
                   = trace w ++ new
                   /\ batch_events env paper_dir output_dir dropbox_root
                                   export_format extension (p :: files)
                                   (returned
                                      (fst (Raised e', emit (processing p) w)))
                                   new).
      { intros e'. eexists. split; [ reflexivity | ].
        apply batch_stop. eapply stopped_unresolved. exact Hc. }
      destruct e; try apply Hstop.
      destruct (IH (emit (Print (lit "  Skipping: " ++ msg))
                         (emit (processing p) w))) as (new & Hn & Hb).
      exists ([processing p; Print (lit "  Skipping: " ++ msg)] ++ new).
      split.
      * rewrite Hn. cbn [emit trace]. rewrite <- !app_assoc. reflexivity.
      * apply batch_next; [ | exact Hb ].
        apply skipped_unresolved. exact Hc.
Qed.

End Loop.

(** ** Discovery *)

Lemma in_iter_paper_files pd p :
  In p (iter_paper_files env pd)
  <-> In p (rglob (lit "*.paper") pd (scan env pd)).
Proof.
  unfold iter_paper_files. split; apply Permutation_in.
  - apply Permutation_sym, sorted_perm.
  - apply sorted_perm.
Qed.

(** A discovered path is an entry of the tree below the directory,
    named [stem + ".paper"]. *)
Lemma discovered_shape pd p :
  In p (iter_paper_files env pd)
  <-> exists dir stem,
        node_at (scan env pd) (dir ++ [stem ++ lit ".paper"])
        /\ p = mkPath (root pd) (tail pd ++ dir ++ [stem ++ lit ".paper"]).
Proof.
  rewrite in_iter_paper_files, in_rglob. split.
  - intros (dir & nm & Hn & Hm & ->).
    apply fnmatch_paper in Hm as [stem ->]. eauto.
  - intros (dir & stem & Hn & ->). exists dir, (stem ++ lit ".paper").
    split; [ exact Hn | split; [ | reflexivity ] ].
    apply fnmatch_paper. eauto.
Qed.

(** The order in which the operating system lists the entries does not
    show in the result. *)
Lemma iter_paper_files_any_order pd listed :
  Permutation (rglob (lit "*.paper") pd (scan env pd)) listed ->
  sorted listed = iter_paper_files env pd.
Proof.
  intros HP. symmetry. unfold iter_paper_files. apply sorted_unique.
  - intros p q Hp Hq. apply same_root_parts.
    apply in_iter_paper_files, in_rglob in Hp as (? & ? & _ & _ & ->).
    apply in_iter_paper_files, in_rglob in Hq as (? & ? & _ & _ & ->).
    reflexivity.
  - apply sorted_sorted.
  - apply sorted_sorted.
  - eapply perm_trans; [ apply Permutation_sym, sorted_perm | ].
    eapply perm_trans; [ exact HP | apply sorted_perm ].
Qed.

(** ** [main] *)

Section Main.

Variable args : Args.

Lemma main_unconfigured w :
  unconfigured env args -> exists e, main env args w = (Raised e, w).
Proof.
  unfold main, unconfigured.
  intros [[e H]|[[e H]|[[e H]|[(pd & H & Hd)|H]]]].
  - rewrite H. eauto.
  - destruct (expanduser env (paper_dir args)); [ | eauto ].
    rewrite H. eauto.
  - destruct (expanduser env (paper_dir args)); [ | eauto ].
    destruct (expanduser env (output_dir args)); [ | eauto ].
    rewrite H. eauto.
  - rewrite H.
    destruct (expanduser env (output_dir args)); [ | eauto ].
    destruct (expanduser env (dropbox_root args)); [ | eauto ].
    rewrite Hd. cbn [negb]. eauto.
  - destruct (expanduser env (paper_dir args)); [ | eauto ].
    destruct (expanduser env (output_dir args)); [ | eauto ].
    destruct (expanduser env (dropbox_root args)); [ | eauto ].
    destruct (is_dir env _); cbn [negb]; [ | eauto ].
    rewrite H. cbn [negb]. eauto.
Qed.

Lemma py_or_falsy a b :
  opt_truthy a = false -> opt_truthy b = false ->
  opt_truthy (py_or a b) = false.
Proof. destruct a as [[|c s]|]; cbn; congruence. Qed.

Variables pd od dr : Path.
Hypothesis Hpd : expanduser env (paper_dir args) = Ok pd.
Hypothesis Hod : expanduser env (output_dir args) = Ok od.
Hypothesis Hdr : expanduser env (dropbox_root args) = Ok dr.

Lemma main_not_dir w :
  is_dir env pd = false ->
  main env args w
  = (Raised (SystemExit (lit "--paper-dir must point to a directory: "
                         ++ to_str pd)), w).
Proof. intros Hd. unfold main. rewrite Hpd, Hod, Hdr, Hd. reflexivity. Qed.

Lemma main_no_token w :
  is_dir env pd = true ->
  opt_truthy (py_or (dropbox_token args)
                    (environ_get env (lit "DROPBOX_ACCESS_TOKEN"))) = false ->
  main env args w
  = (Raised (SystemExit (lit "Dropbox access token missing. Provide --dropbox-token or set DROPBOX_ACCESS_TOKEN.")),
     w).
Proof.
  intros Hd Ht. unfold main. rewrite Hpd, Hod, Hdr, Hd, Ht. reflexivity.
Qed.

Lemma main_blocked w e :
  is_dir env pd = true ->
  opt_truthy (py_or (dropbox_token args)
                    (environ_get env (lit "DROPBOX_ACCESS_TOKEN"))) = true ->
  mkdir env (trace w) od = Some e ->
  main env args w = (Raised e, emit (Mkdir od) w).
Proof.
  intros Hd Ht Hm. unfold main. rewrite Hpd, Hod, Hdr, Hd, Ht, Hm.
  reflexivity.
Qed.

Lemma main_run w :
  is_dir env pd = true ->
  opt_truthy (py_or (dropbox_token args)
                    (environ_get env (lit "DROPBOX_ACCESS_TOKEN"))) = true ->
  mkdir env (trace w) od = None ->
  iter_paper_files env pd <> [] ->
  main env args w
  = process_files env pd od dr (format args) (extension_of (format args))
                  (iter_paper_files env pd) (emit (Mkdir od) w).
Proof.
  intros Hd Ht Hm Hf. unfold main. rewrite Hpd, Hod, Hdr, Hd, Ht, Hm.
  cbn [negb].
  destruct (iter_paper_files env pd); [ contradiction | reflexivity ].
Qed.

Lemma main_empty w :
  is_dir env pd = true ->
  opt_truthy (py_or (dropbox_token args)
                    (environ_get env (lit "DROPBOX_ACCESS_TOKEN"))) = true ->
  mkdir env (trace w) od = None ->
  iter_paper_files env pd = [] ->
  main env args w
  = (Returned 0,
     emit (Print (lit "No .paper files found under " ++ to_str pd))
          (emit (Mkdir od) w)).
Proof.
  intros Hd Ht Hm Hf. unfold main. rewrite Hpd, Hod, Hdr, Hd, Ht, Hm.
  cbn [negb]. rewrite Hf. reflexivity.
Qed.

(** A run that got past its checks is the creation of the output
    directory followed, when that returns, by the loop or by the line
    that says there is nothing to do. *)
Lemma main_configured w :
  is_dir env pd = true ->
  opt_truthy (py_or (dropbox_token args)
                    (environ_get env (lit "DROPBOX_ACCESS_TOKEN"))) = true ->
  main env args w
  = match mkdir env (trace w) od with
    | Some e => (Raised e, emit (Mkdir od) w)
    | None =>
        match iter_paper_files env pd with
        | [] =>
            (Returned 0,
             emit (Print (lit "No .paper files found under " ++ to_str pd))
                  (emit (Mkdir od) w))
        | files =>
            process_files env pd od dr (format args)
                          (extension_of (format args)) files (emit (Mkdir od) w)
        end
    end.
Proof.
  intros Hd Ht. unfold main. rewrite Hpd, Hod, Hdr, Hd, Ht. cbn [negb].
  destruct (mkdir env (trace w) od); [ reflexivity | ].
  destruct (iter_paper_files env pd); reflexivity.
Qed.

End Main.

End ProgramFacts.

(* ================================================================== *)
(** * The order of the program is the lexicographic one *)
(* ================================================================== *)

Module OrderFacts.

Import PyStrFacts PurePathFacts.

Lemma str_ltb_lex a b : PyStr.ltb a b = true <-> str_lt a b.
Proof.
  unfold str_lt. split.
  - revert b. induction a as [|x a IH]; intros [|y b]; cbn;
      try discriminate.
    + intros _. constructor.
    + destruct (N.eqb_spec x y) as [->|Hxy]; intros H.
      * apply lex_tail. apply IH. exact H.
      * apply lex_head. apply N.ltb_lt. exact H.
  - induction 1 as [y b|x y a b Hlt|x a b _ IH]; cbn.
    + reflexivity.
    + destruct (N.eqb_spec x y) as [->|_]; [ lia | apply N.ltb_lt; exact Hlt ].
    + rewrite N.eqb_refl. exact IH.
Qed.

Lemma str_lt_irrefl a : ~ str_lt a a.
Proof.
  intros H. apply str_ltb_lex in H. rewrite ltb_irrefl in H. discriminate.
Qed.

Lemma list_ltb_lex a b : list_ltb a b = true <-> lex_lt str_lt a b.
Proof.
  split.
  - revert b. induction a as [|x a IH]; intros [|y b]; cbn;
      try discriminate.
    + intros _. constructor.
    + destruct (PyStr.eqb x y) eqn:E; intros H.
      * apply eqb_eq in E. subst y. apply lex_tail. apply IH. exact H.
      * apply lex_head. apply str_ltb_lex. exact H.
  - induction 1 as [y b|x y a b Hlt|x a b _ IH]; cbn.
    + reflexivity.
    + destruct (PyStr.eqb x y) eqn:E.
      * apply eqb_eq in E. subst y. exfalso. exact (str_lt_irrefl Hlt).
      * apply str_ltb_lex. exact Hlt.
    + rewrite eqb_refl. exact IH.
Qed.

Lemma path_ltb_lex p q : ltb p q = true <-> path_lt p q.
Proof. apply list_ltb_lex. Qed.

Lemma le_not_lt p q : le p q <-> ~ path_lt q p.
Proof.
  unfold le. rewrite <- path_ltb_lex. destruct (ltb q p); split;
    congruence.
Qed.

End OrderFacts.

(* ================================================================== *)
(** * The properties of the program *)
(* ================================================================== *)

Import PyStrFacts PurePathFacts ListingFacts OrderFacts.

(** C1.  When both paths resolve and the resolved local file is
    contained within the resolved Dropbox root, there is exactly one
    relative path [rel] that leads from the root to the file; it is
    what [relative_to] computes, its forward-slash form is its
    components joined by ["/"] (a dot when there is none), and
    [compute_remote_path] returns exactly ["/"] followed by that
    form. *)
Theorem compute_remote_path_contained
        (R : Type) (env : Env R)
        (local_file dropbox_root file root_dir : Path) :
  resolve env local_file = Ok file ->
  resolve env dropbox_root = Ok root_dir ->
  contained_in file root_dir ->
  exists rel,
    file = joinpath root_dir (mkPath [] rel)
    /\ (forall rel', file = joinpath root_dir (mkPath [] rel') -> rel' = rel)
    /\ relative_to file root_dir = Ok (mkPath [] rel)
    /\ as_posix (mkPath [] rel) = posix_form rel
    /\ compute_remote_path env local_file dropbox_root
       = Ok (lit "/" ++ posix_form rel).
Proof.
  intros H1 H2 [rel H]. exists rel.
  pose proof (under_wf env _ H1 H) as Hwf.
  assert (Hrel : relative_to file root_dir = Ok (mkPath [] rel)).
  { rewrite H. apply relative_to_under. }
  assert (Hposix : as_posix (mkPath [] rel) = posix_form rel).
  { rewrite as_posix_to_str, to_str_relative by exact Hwf.
    destruct rel; reflexivity. }
  split; [ exact H | ]. split; [ | split; [ exact Hrel | split ] ].
  - intros rel' H'. rewrite H in H'. unfold joinpath in H'. cbn in H'.
    injection H' as H'. apply app_inv_head in H'. congruence.
  - exact Hposix.
  - rewrite (compute_remote_path_resolved env _ _ H1 H2), Hrel, Hposix.
    reflexivity.
Qed.

Lemma compute_remote_path_contained_witness :
  contained_in (Demo.path "/home/u/Dropbox/notes/sub/b.paper")
               (Demo.path "/home/u/Dropbox")
  /\ compute_remote_path Demo.notes_env
       (Demo.path "/home/u/Dropbox/notes/sub/b.paper")
       (Demo.path "/home/u/Dropbox")
     = Ok (lit "/notes/sub/b.paper").
Proof.
  assert (Hin : contained_in (Demo.path "/home/u/Dropbox/notes/sub/b.paper")
                             (Demo.path "/home/u/Dropbox")).
  { exists [lit "notes"; lit "sub"; lit "b.paper"]. reflexivity. }
  split; [ exact Hin | ].
  destruct (@compute_remote_path_contained _ Demo.notes_env
              (Demo.path "/home/u/Dropbox/notes/sub/b.paper")
              (Demo.path "/home/u/Dropbox")
              (Demo.path "/home/u/Dropbox/notes/sub/b.paper")
              (Demo.path "/home/u/Dropbox") eq_refl eq_refl Hin)
    as (rel & _ & Huniq & _ & _ & Hc).
  rewrite <- (Huniq [lit "notes"; lit "sub"; lit "b.paper"] eq_refl) in Hc.
  exact Hc.
Defined.

(** C8.  For a local file that resolves strictly under the resolved
    Dropbox root, with [rel] its path relative to the root: resolving
    it to a remote identifier, stripping the leading ["/"], restoring
    the separators of the operating system and parsing the text gives
    the relative path back, the very path [relative_to] computes. *)
Theorem remote_path_round_trip
        (R : Type) (env : Env R)
        (local_file dropbox_root file root_dir : Path) (rel : list str) :
  resolve env local_file = Ok file ->
  resolve env dropbox_root = Ok root_dir ->
  rel <> [] ->
  file = joinpath root_dir (mkPath [] rel) ->
  exists remote_path,
    compute_remote_path env local_file dropbox_root = Ok remote_path
    /\ local_of_remote remote_path = mkPath [] rel
    /\ relative_to file root_dir = Ok (local_of_remote remote_path).
Proof.
  intros H1 H2 Hne H. exists (lit "/" ++ posix_form rel).
  assert (Hback : local_of_remote (lit "/" ++ posix_form rel) = mkPath [] rel).
  { unfold local_of_remote. change (skipn 1 (lit "/" ++ posix_form rel))
      with (posix_form rel).
    unfold os_sep. change 47%N with sep. rewrite replace_same.
    destruct rel as [|c rel]; [ contradiction | ].
    apply parse_join. apply (under_wf env _ H1 H). }
  split; [ apply (compute_remote_path_under env _ _ H1 H2 H) | ].
  split; [ exact Hback | ].
  rewrite Hback, H. apply relative_to_under.
Qed.

Lemma remote_path_round_trip_witness :
  exists remote_path,
    compute_remote_path Demo.notes_env
      (Demo.path "/home/u/Dropbox/notes/sub/b.paper")
      (Demo.path "/home/u/Dropbox") = Ok remote_path
    /\ local_of_remote remote_path = Demo.path "notes/sub/b.paper"
    /\ relative_to (Demo.path "/home/u/Dropbox/notes/sub/b.paper")
                   (Demo.path "/home/u/Dropbox")
       = Ok (local_of_remote remote_path).
Proof.
  apply (@remote_path_round_trip _ Demo.notes_env
           (Demo.path "/home/u/Dropbox/notes/sub/b.paper")
           (Demo.path "/home/u/Dropbox")
           (Demo.path "/home/u/Dropbox/notes/sub/b.paper")
           (Demo.path "/home/u/Dropbox")
           [lit "notes"; lit "sub"; lit "b.paper"]).
  - reflexivity.
  - reflexivity.
  - discriminate.
  - reflexivity.
Defined.

(** C4.  When the client returns metadata and a response, [export_paper]
    returns exactly: the heading line ["# "], the title and, for a
    non-empty format, [" (exported as <format>)"]; the end of that line;
    an empty line; the text.  The title is the name the metadata
    reports or, without one, the last ["/"]-separated segment of the
    remote path.  The text is the payload of the response decoded as
    UTF-8 with the replacing handler, which for a valid payload is its
    strict decoding. *)
Theorem export_paper_heading
        (R : Type) (env : Env R) (w : World R)
        (remote_path export_format : str)
        (metadata : Dropbox.ExportMetadata) (response : Dropbox.Response)
        (st : R) :
  files_export env (remote w) remote_path export_format
  = (Ok (metadata, response), st) ->
  exists title text,
    match Dropbox.name metadata with
    | Some reported => title = reported
    | None => last_segment remote_path title
    end
    /\ Utf8.decode Utf8.Replace (Dropbox.content response) = Some text
    /\ (forall valid,
           Utf8.decode Utf8.Strict (Dropbox.content response) = Some valid ->
           text = valid)
    /\ fst (export_paper env w remote_path export_format)
       = Ok ((lit "# " ++ title
              ++ (if truthy export_format
                  then lit " (exported as " ++ export_format ++ lit ")"
                  else []))
             ++ [newline] ++ [newline] ++ text).
Proof.
  intros H.
  destruct (export_paper_ok env w remote_path export_format H)
    as (text & Hr & He).
  exists (getattr_name metadata (rsplit_last sep remote_path)), text.
  split; [ | split; [ exact Hr | split ] ].
  - unfold getattr_name. destruct (Dropbox.name metadata); [ reflexivity | ].
    apply rsplit_last_spec.
  - intros valid Hv. apply Utf8Facts.decode_strict_replace in Hv. congruence.
  - rewrite He. cbn [fst]. rewrite <- !app_assoc. reflexivity.
Qed.

Lemma export_paper_heading_witness :
  exists title text,
    last_segment (lit "/notes/sub/b.paper") title
    /\ Utf8.decode Utf8.Replace Demo.broken = Some text
    /\ fst (export_paper Demo.dotfile_env Demo.start
                         (lit "/notes/sub/b.paper") (lit "markdown"))
       = Ok ((lit "# " ++ title ++ lit " (exported as markdown)")
             ++ [newline] ++ [newline] ++ text).
Proof.
  destruct (@export_paper_heading _ Demo.dotfile_env Demo.start
              (lit "/notes/sub/b.paper") (lit "markdown")
              {| Dropbox.name := None |} {| Dropbox.content := Demo.broken |}
              1 eq_refl) as (title & text & Ht & Hd & _ & He).
  exists title, text. split; [ exact Ht | ]. split; [ exact Hd | exact He ].
Defined.

(** C5.  Whatever bytes the client returns, decoding does not fail the
    export: [export_paper] returns a string.  Its text is the strict
    decoding where the bytes are valid UTF-8; where they are not, it is
    the decoding under the replacing handler and holds a replacement
    character.  In both cases valid text at the front of the bytes is
    kept as it is, and the text is made of Unicode scalar values. *)
Theorem export_paper_decoding_never_fails
        (R : Type) (env : Env R) (w : World R)
        (remote_path export_format : str)
        (metadata : Dropbox.ExportMetadata) (response : Dropbox.Response)
        (st : R) :
  files_export env (remote w) remote_path export_format
  = (Ok (metadata, response), st) ->
  exists text heading,
    decode_content response = Ok text
    /\ fst (export_paper env w remote_path export_format)
       = Ok (heading ++ text)
    /\ (forall valid,
           Utf8.decode Utf8.Strict (Dropbox.content response) = Some valid ->
           text = valid)
    /\ (Utf8.decode Utf8.Strict (Dropbox.content response) = None ->
        Utf8.decode Utf8.Replace (Dropbox.content response) = Some text
        /\ In Utf8.REPLACEMENT text)
    /\ (forall front back valid,
           Dropbox.content response = front ++ back ->
           Utf8.decode Utf8.Strict front = Some valid ->
           exists rest, text = valid ++ rest)
    /\ Forall (fun ch => Utf8.is_scalar ch = true) text.
Proof.
  intros H.
  destruct (decode_content_ok response) as (text & Hd & Hr).
  destruct (export_paper_ok env w remote_path export_format H)
    as (text' & Hr' & He).
  assert (text' = text) by congruence. subst text'.
  exists text. eexists. split; [ exact Hd | ].
  split; [ rewrite He; cbn [fst]; rewrite !app_assoc; reflexivity | ].
  split; [ | split; [ | split ] ].
  - intros valid Hv. apply Utf8Facts.decode_strict_replace in Hv. congruence.
  - intros Hn. split; [ exact Hr | ].
    apply (Utf8Facts.decode_strict_none_marks _ Hn Hr).
  - intros front back valid Hc Hv. rewrite Hc in Hr.
    rewrite (Utf8Facts.decode_valid_prefix _ Hv) in Hr.
    destruct (Utf8.decode Utf8.Replace back) as [rest|]; [ | discriminate ].
    cbn in Hr. injection Hr as <-. eauto.
  - apply (Utf8Facts.decode_scalar _ _ Hr).
Qed.

Lemma export_paper_decoding_never_fails_witness :
  exists text heading,
    decode_content {| Dropbox.content := Demo.broken |} = Ok text
    /\ fst (export_paper Demo.dotfile_env Demo.start
                         (lit "/notes/.paper") (lit "html"))
       = Ok (heading ++ text)
    /\ In Utf8.REPLACEMENT text.
Proof.
  destruct (@export_paper_decoding_never_fails _ Demo.dotfile_env Demo.start
              (lit "/notes/.paper") (lit "html")
              {| Dropbox.name := None |} {| Dropbox.content := Demo.broken |}
              1 eq_refl) as (text & heading & Hd & He & _ & Hbad & _ & _).
  exists text, heading. split; [ exact Hd | ]. split; [ exact He | ].
  apply Hbad. reflexivity.
Defined.

(** C9.  With no token in the [--dropbox-token] flag and none in the
    environment (absent or empty), [main] ends with an exception, hence
    a non-zero exit status, and the world is as it was: no directory
    was created, no file written, no request sent.  The exception is a
    [SystemExit] with a message, unless the expansion of a home
    directory, which comes first, has raised. *)
Theorem main_missing_token
        (R : Type) (env : Env R) (args : Args) (w : World R) :
  opt_truthy (dropbox_token args) = false ->
  opt_truthy (environ_get env (lit "DROPBOX_ACCESS_TOKEN")) = false ->
  exists e,
    main env args w = (Raised e, w)
    /\ exit_status (fst (main env args w)) <> 0%Z
    /\ (forall pd od dr,
           expanduser env (paper_dir args) = Ok pd ->
           expanduser env (output_dir args) = Ok od ->
           expanduser env (dropbox_root args) = Ok dr ->
           exists msg, e = SystemExit msg).
Proof.
  intros Hflag Henv.
  pose proof (py_or_falsy _ _ Hflag Henv) as Htoken.
  destruct (@main_unconfigured _ env args w) as [e Hm].
  { do 4 right. exact Htoken. }
  exists e. split; [ exact Hm | ]. split; [ rewrite Hm; discriminate | ].
  intros pd od dr Hpd Hod Hdr.
  destruct (is_dir env pd) eqn:Hd.
  - rewrite (main_no_token env args Hpd Hod Hdr w Hd Htoken) in Hm.
    injection Hm as <-. eauto.
  - rewrite (main_not_dir env args Hpd Hod Hdr w Hd) in Hm.
    injection Hm as <-. eauto.
Qed.

Lemma main_missing_token_witness :
  exists msg,
    main Demo.anonymous_env Demo.notes_args Demo.start
    = (Raised (SystemExit msg), Demo.start)
    /\ exit_status (fst (main Demo.anonymous_env Demo.notes_args Demo.start))
       <> 0%Z.
Proof.
  destruct (@main_missing_token _ Demo.anonymous_env Demo.notes_args Demo.start
              eq_refl eq_refl) as (e & Hm & Hexit & Hclass).
  destruct (Hclass (Demo.path "/home/u/Dropbox/notes")
                   (Demo.path "/home/u/out") (Demo.path "/home/u/Dropbox")
                   eq_refl eq_refl eq_refl) as [msg E].
  exists msg. rewrite <- E. split; [ exact Hm | exact Hexit ].
Defined.

(** C3.  The run got past its checks and created the output directory;
    the sorted files are [pre], then [k], then [post]; the files of
    [pre] were processed without an abort, leaving the world [w1]; the
    export request for [k] raises [AuthError].  Then [main] raises
    [SystemExit], the exit status is not zero, and the world at the
    abort is [w1] with the announcement of [k] and its export request
    added: what was written for [pre] is still there, nothing is written
    for [k], and the files announced are those of [pre] and [k], none of
    [post]. *)
Theorem authentication_failure_aborts
        (R : Type) (env : Env R) (args : Args) (w w1 : World R)
        (pd od dr : Path) (pre post : list Path) (k : Path)
        (remote_path msg : str) (st : R) :
  expanduser env (paper_dir args) = Ok pd ->
  expanduser env (output_dir args) = Ok od ->
  expanduser env (dropbox_root args) = Ok dr ->
  is_dir env pd = true ->
  opt_truthy (py_or (dropbox_token args)
                    (environ_get env (lit "DROPBOX_ACCESS_TOKEN"))) = true ->
  mkdir env (trace w) od = None ->
  iter_paper_files env pd = pre ++ k :: post ->
  process_files env pd od dr (format args) (extension_of (format args))
                pre (emit (Mkdir od) w) = (Returned 0, w1) ->
  compute_remote_path env k dr = Ok remote_path ->
  files_export env (remote w1) remote_path (format args)
  = (Raise (AuthError msg), st) ->
  main env args w
  = (Raised (SystemExit (lit "Dropbox authentication failed: " ++ msg)),
     {| remote := st;
        trace := trace w1 ++ [Print (lit "Processing " ++ to_str k);
                              FilesExport remote_path (format args)] |})
  /\ exit_status (fst (main env args w)) <> 0%Z
  /\ announced (trace (snd (main env args w)))
     = announced (trace w)
       ++ List.map (fun p => Print (lit "Processing " ++ to_str p))
                   (pre ++ [k]).
Proof.
  intros Hpd Hod Hdr Hd Ht Hmk Hf Hpre Hk He.
  assert (Hm : main env args w
               = (Raised (SystemExit (lit "Dropbox authentication failed: "
                                      ++ msg)),
                  {| remote := st;
                     trace := trace w1
                              ++ [Print (lit "Processing " ++ to_str k);
                                  FilesExport remote_path (format args)] |})).
  { rewrite (main_run env args Hpd Hod Hdr w Hd Ht Hmk).
    - rewrite Hf, loop_app, Hpre. apply loop_auth; assumption.
    - rewrite Hf. destruct pre; discriminate. }
  split; [ exact Hm | ]. split; [ rewrite Hm; discriminate | ].
  rewrite Hm. cbn [snd trace]. rewrite announced_app.
  destruct (loop_announced env pd od dr (format args)
              (extension_of (format args)) pre (emit (Mkdir od) w))
    as (n & Hn & Hall).
  rewrite Hpre in Hn, Hall. cbn [snd fst] in Hn, Hall.
  rewrite (Hall 0%Z eq_refl), firstn_all in Hn. rewrite Hn.
  cbn [emit trace]. rewrite announced_app.
  change (announced [Mkdir od]) with (@nil Event).
  rewrite app_nil_r, map_app, <- app_assoc. reflexivity.
Qed.

Lemma authentication_failure_aborts_witness :
  main Demo.five_env Demo.notes_args Demo.start
  = (Raised (SystemExit (lit "Dropbox authentication failed: expired_access_token")),
     {| remote := 3;
        trace :=
          [ Mkdir (Demo.path "/home/u/out");
            Print (lit "Processing /home/u/Dropbox/notes/d1.paper");
            FilesExport (lit "/notes/d1.paper") (lit "markdown");
            Mkdir (Demo.path "/home/u/out");
            WriteText (Demo.path "/home/u/out/d1.md")
                      (lit "# Doc (exported as markdown)"
                       ++ [newline; newline] ++ lit "hi");
            Print (lit "Processing /home/u/Dropbox/notes/d2.paper");
            FilesExport (lit "/notes/d2.paper") (lit "markdown");
            Mkdir (Demo.path "/home/u/out");
            WriteText (Demo.path "/home/u/out/d2.md")
                      (lit "# Doc (exported as markdown)"
                       ++ [newline; newline] ++ lit "hi");
            Print (lit "Processing /home/u/Dropbox/notes/d3.paper");
            FilesExport (lit "/notes/d3.paper") (lit "markdown") ] |}).
Proof.
  apply (@authentication_failure_aborts _ Demo.five_env Demo.notes_args
           Demo.start
           (snd (process_files Demo.five_env
                   (Demo.path "/home/u/Dropbox/notes")
                   (Demo.path "/home/u/out")
                   (Demo.path "/home/u/Dropbox")
                   (lit "markdown") (lit ".md")
                   [Demo.path "/home/u/Dropbox/notes/d1.paper";
                    Demo.path "/home/u/Dropbox/notes/d2.paper"]
                   (emit (Mkdir (Demo.path "/home/u/out")) Demo.start)))
           (Demo.path "/home/u/Dropbox/notes")
           (Demo.path "/home/u/out")
           (Demo.path "/home/u/Dropbox")
           [Demo.path "/home/u/Dropbox/notes/d1.paper";
            Demo.path "/home/u/Dropbox/notes/d2.paper"]
           [Demo.path "/home/u/Dropbox/notes/d4.paper";
            Demo.path "/home/u/Dropbox/notes/d5.paper"]
           (Demo.path "/home/u/Dropbox/notes/d3.paper")
           (lit "/notes/d3.paper") (lit "expired_access_token") 3);
    reflexivity.
Defined.




Lemma mirrored_output_path_shape pd od ext dir stem :
  mirrored_output_path pd od ext
    (mkPath (root pd) (tail pd ++ dir ++ [stem ++ lit ".paper"]))
  = mkPath (root od) (tail od ++ dir ++ [stem ++ ext]).
Proof.
  unfold mirrored_output_path, swap_extension. cbn [tail].
  rewrite skipn_length_app, removelast_last, last_last, length_app.
  replace (length stem + length (lit ".paper") - length (lit ".paper"))
    with (length stem) by lia.
  rewrite firstn_length_app. reflexivity.
Qed.

(** C6, as the specification words it, fails for an entry named exactly
    [.paper]: the listing finds it, its export succeeds, and the text is
    written to [.paper.md], the extension added, while the mirrored path
    with the extension swapped is [.md], to which nothing is written. *)
Lemma dotfile_extension_not_swapped :
  let pd := Demo.path "/home/u/Dropbox/notes" in
  let od := Demo.path "/home/u/out" in
  let p := Demo.path "/home/u/Dropbox/notes/.paper" in
  let run := main Demo.dotfile_env Demo.notes_args Demo.start in
  iter_paper_files Demo.dotfile_env pd = [p]
  /\ fst run = Returned 0
  /\ (exists text,
         fst (attempt Demo.dotfile_env (Demo.path "/home/u/Dropbox")
                      (lit "markdown") p Demo.start) = Ok text
         /\ In (WriteText (Demo.path "/home/u/out/.paper.md") text)
               (trace (snd run)))
  /\ mirrored_output_path pd od (lit ".md") p = Demo.path "/home/u/out/.md"
  /\ ~ (exists text,
           In (WriteText (mirrored_output_path pd od (lit ".md") p) text)
              (trace (snd run))).
Proof.
  cbv zeta. split; [ reflexivity | ]. split; [ reflexivity | ].
  split; [ | split; [ reflexivity | ] ].
  - eexists. split; [ reflexivity | ].
    vm_compute. do 4 right. left. reflexivity.
  - intros [text H]. vm_compute in H.
    repeat (destruct H as [H|H]; [ discriminate | ]). exact H.
Qed.

(** C6, amended.  The run got past its checks and created the output
    directory; the sorted files are [pre], then [p], then [post];
    [pre] was processed without an abort, leaving [w1]; the export of
    [p] succeeds with [text]; and [p] is not named exactly [.paper].
    Then [p] is the source directory followed by directories [dir] and
    a name [stem ++ ".paper"], and the run asks for the directory
    [output_dir/dir] to be created (with its parents) and then for
    [text] to be written to [output_dir/dir/stem ++ ext], the mirrored
    output path; [ext] is [.md] for the markdown format and [.html] for
    the html format.  When neither call raises the run goes on with
    [post]; when one does, the run ends there with what it raised. *)
Theorem export_written_to_mirrored_path
        (R : Type) (env : Env R) (args : Args) (w w1 w2 : World R)
        (pd od dr : Path) (pre post : list Path) (p : Path) (text : str) :
  let ext := extension_of (format args) in
  expanduser env (paper_dir args) = Ok pd ->
  expanduser env (output_dir args) = Ok od ->
  expanduser env (dropbox_root args) = Ok dr ->
  is_dir env pd = true ->
  opt_truthy (py_or (dropbox_token args)
                    (environ_get env (lit "DROPBOX_ACCESS_TOKEN"))) = true ->
  mkdir env (trace w) od = None ->
  iter_paper_files env pd = pre ++ p :: post ->
  process_files env pd od dr (format args) ext pre (emit (Mkdir od) w)
  = (Returned 0, w1) ->
  attempt env dr (format args) p
          (emit (Print (lit "Processing " ++ to_str p)) w1) = (Ok text, w2) ->
  PurePath.name p <> lit ".paper" ->
  exists dir stem,
    p = mkPath (root pd) (tail pd ++ dir ++ [stem ++ lit ".paper"])
    /\ mirrored_output_path pd od ext p
       = mkPath (root od) (tail od ++ dir ++ [stem ++ ext])
    /\ (let folder := mkPath (root od) (tail od ++ dir) in
        let target := mirrored_output_path pd od ext p in
        let w3 := emit (Mkdir folder) w2 in
        let w4 := emit (WriteText target text) w3 in
        main env args w
        = match mkdir env (trace w2) folder with
          | Some e => (Raised e, w3)
          | None =>
              match write_text env (trace w3) target text with
              | Some e => (Raised e, w4)
              | None => process_files env pd od dr (format args) ext post w4
              end
          end)
    /\ (format args = lit "markdown" -> ext = lit ".md")
    /\ (format args = lit "html" -> ext = lit ".html").
Proof.
  intros ext Hpd Hod Hdr Hd Ht Hmk Hf Hpre Ha Hname.
  assert (Hin : In p (iter_paper_files env pd)).
  { rewrite Hf. apply in_or_app. right. left. reflexivity. }
  apply discovered_shape in Hin as (dir & stem & _ & Hp).
  assert (Hstem : truthy stem = true).
  { destruct stem; [ | reflexivity ]. exfalso. apply Hname.
    rewrite Hp. unfold PurePath.name. cbn [tail].
    rewrite !app_assoc. apply last_last. }
  assert (Hmirror : mirrored_output_path pd od ext p
                    = mkPath (root od) (tail od ++ dir ++ [stem ++ ext])).
  { rewrite Hp. apply mirrored_output_path_shape. }
  exists dir, stem. split; [ exact Hp | ]. split; [ exact Hmirror | ].
  split; [ | split; intros E; unfold ext; rewrite E; reflexivity ].
  cbv zeta. rewrite Hmirror.
  rewrite (main_run env args Hpd Hod Hdr w Hd Ht Hmk).
  - fold ext. rewrite Hf, loop_app, Hpre.
    rewrite (loop_cons_ok env pd od dr (format args) ext p post w1 Ha).
    rewrite Hp at 1. unfold ext at 1.
    rewrite target_of_discovered by apply valid_suffix_extension.
    rewrite Hstem. fold ext. cbv zeta.
    rewrite app_assoc, parent_snoc, <- app_assoc.
    reflexivity.
  - rewrite Hf. destruct pre; discriminate.
Qed.

Lemma export_written_to_mirrored_path_witness :
  let pd := Demo.path "/home/u/Dropbox/notes" in
  let od := Demo.path "/home/u/out" in
  let dr := Demo.path "/home/u/Dropbox" in
  let p := Demo.path "/home/u/Dropbox/notes/sub/b.paper" in
  let w1 :=
    snd (process_files Demo.notes_env pd od dr (lit "markdown") (lit ".md")
           [Demo.path "/home/u/Dropbox/notes/a.paper";
            Demo.path "/home/u/Dropbox/notes/c.paper"]
           (emit (Mkdir od) Demo.start)) in
  let w2 :=
    snd (attempt Demo.notes_env dr (lit "markdown") p
           (emit (Print (lit "Processing " ++ to_str p)) w1)) in
  mirrored_output_path pd od (lit ".md") p = Demo.path "/home/u/out/sub/b.md"
  /\ main Demo.notes_env Demo.notes_args Demo.start
     = (Returned 0,
        emit (WriteText (Demo.path "/home/u/out/sub/b.md")
                        (lit "# Note (exported as markdown)"
                         ++ [newline; newline] ++ lit "hi"))
             (emit (Mkdir (Demo.path "/home/u/out/sub")) w2)).
Proof.
  cbv zeta.
  destruct (@export_written_to_mirrored_path _ Demo.notes_env Demo.notes_args
              Demo.start
              (snd (process_files Demo.notes_env
                      (Demo.path "/home/u/Dropbox/notes")
                      (Demo.path "/home/u/out") (Demo.path "/home/u/Dropbox")
                      (lit "markdown") (lit ".md")
                      [Demo.path "/home/u/Dropbox/notes/a.paper";
                       Demo.path "/home/u/Dropbox/notes/c.paper"]
                      (emit (Mkdir (Demo.path "/home/u/out")) Demo.start)))
              (snd (attempt Demo.notes_env (Demo.path "/home/u/Dropbox")
                      (lit "markdown")
                      (Demo.path "/home/u/Dropbox/notes/sub/b.paper")
                      (emit (Print (lit "Processing "
                                    ++ to_str (Demo.path "/home/u/Dropbox/notes/sub/b.paper")))
                            (snd (process_files Demo.notes_env
                                    (Demo.path "/home/u/Dropbox/notes")
                                    (Demo.path "/home/u/out")
                                    (Demo.path "/home/u/Dropbox")
                                    (lit "markdown") (lit ".md")
                                    [Demo.path "/home/u/Dropbox/notes/a.paper";
                                     Demo.path "/home/u/Dropbox/notes/c.paper"]
                                    (emit (Mkdir (Demo.path "/home/u/out"))
                                          Demo.start))))))
              (Demo.path "/home/u/Dropbox/notes")
              (Demo.path "/home/u/out") (Demo.path "/home/u/Dropbox")
              [Demo.path "/home/u/Dropbox/notes/a.paper";
               Demo.path "/home/u/Dropbox/notes/c.paper"]
              []
              (Demo.path "/home/u/Dropbox/notes/sub/b.paper")
              (lit "# Note (exported as markdown)"
               ++ [newline; newline] ++ lit "hi"))
    as (dir & stem & Hp & Hm & Hrun & _);
    try reflexivity.
  - vm_compute. discriminate.
  - assert (Hdir : dir = [lit "sub"]).
    { vm_compute in Hp. injection Hp as Hp.
      apply (@app_inj_tail _ [lit "sub"] dir (lit "b.paper")) in Hp.
      symmetry. apply Hp. }
    subst dir. split; [ reflexivity | ]. exact Hrun.
Defined.

Lemma sorted_le_lex l :
  StronglySorted le l -> StronglySorted (fun p q => ~ path_lt q p) l.
Proof.
  induction 1 as [|p l _ IH Hp]; constructor; [ exact IH | ].
  eapply Forall_impl; [ | exact Hp ]. intros q. apply le_not_lt.
Qed.

(** C7.  The files [main] works on are [iter_paper_files] of the source
    directory: (1) exactly the entries of the tree below it whose name
    ends in [.paper]; (2) each as often as the listing yields it;
    (3) in lexicographic order of their parts; (4) the same list
    whatever order the operating system lists the entries in.  (5) A
    run that got past its checks and created the output directory
    processes the files of that list one after the other, in the order
    of the list: what it adds to the trace after the directory creation
    is, file by file, the announcement of the file followed by its
    export request and its skip message or the creation of its output
    directory and the write of its output; the files so processed are
    all the files of the list exactly when [main] returns, and
    otherwise the files up to the one at which the run ends. *)
Theorem discovery_sorted_and_processed_in_order
        (R : Type) (env : Env R) (args : Args) (w : World R)
        (pd od dr : Path) :
  let listing := rglob (lit "*.paper") pd (scan env pd) in
  let files := iter_paper_files env pd in
  expanduser env (paper_dir args) = Ok pd ->
  expanduser env (output_dir args) = Ok od ->
  expanduser env (dropbox_root args) = Ok dr ->
  (forall p,
      In p files
      <-> exists dir stem,
            node_at (scan env pd) (dir ++ [stem ++ lit ".paper"])
            /\ p = mkPath (root pd) (tail pd ++ dir ++ [stem ++ lit ".paper"]))
  /\ Permutation listing files
  /\ StronglySorted (fun p q => ~ path_lt q p) files
  /\ (forall listed, Permutation listing listed -> sorted listed = files)
  /\ (is_dir env pd = true ->
      opt_truthy (py_or (dropbox_token args)
                        (environ_get env (lit "DROPBOX_ACCESS_TOKEN"))) = true ->
      mkdir env (trace w) od = None ->
      files <> [] ->
      exists tr,
        trace (snd (main env args w)) = trace w ++ Mkdir od :: tr
        /\ batch_events env pd od dr (format args) (extension_of (format args))
                        files (returned (fst (main env args w))) tr).
Proof.
  intros listing files Hpd Hod Hdr.
  split; [ intros p; apply discovered_shape | ].
  split; [ apply sorted_perm | ].
  split.
  { apply sorted_le_lex, sorted_sorted. }
  split; [ intros listed; apply iter_paper_files_any_order | ].
  intros Hd Ht Hmk Hne.
  rewrite (main_run env args Hpd Hod Hdr w Hd Ht Hmk Hne). fold files.
  destruct (loop_events env pd od dr (format args) (extension_of (format args))
                        files (emit (Mkdir od) w)) as (tr & Htr & Hb).
  exists tr. split; [ | exact Hb ].
  rewrite Htr. cbn [emit trace]. rewrite <- app_assoc. reflexivity.
Qed.

Lemma discovery_sorted_and_processed_in_order_witness :
  let pd := Demo.path "/home/u/Dropbox/notes" in
  let od := Demo.path "/home/u/out" in
  let dr := Demo.path "/home/u/Dropbox" in
  let files := [ Demo.path "/home/u/Dropbox/notes/a.paper";
                 Demo.path "/home/u/Dropbox/notes/c.paper";
                 Demo.path "/home/u/Dropbox/notes/sub/b.paper" ] in
  sorted [ Demo.path "/home/u/Dropbox/notes/sub/b.paper";
           Demo.path "/home/u/Dropbox/notes/a.paper";
           Demo.path "/home/u/Dropbox/notes/c.paper" ]
  = iter_paper_files Demo.notes_env pd
  /\ iter_paper_files Demo.notes_env pd = files
  /\ exists tr,
      trace (snd (main Demo.notes_env Demo.notes_args Demo.start))
      = Mkdir od :: tr
      /\ batch_events Demo.notes_env pd od dr (lit "markdown") (lit ".md")
                      files true tr.
Proof.
  cbv zeta.
  destruct (@discovery_sorted_and_processed_in_order _ Demo.notes_env
              Demo.notes_args Demo.start
              (Demo.path "/home/u/Dropbox/notes") (Demo.path "/home/u/out")
              (Demo.path "/home/u/Dropbox") eq_refl eq_refl eq_refl)
    as (_ & _ & _ & Hany & Hrun).
  split; [ | split; [ reflexivity | ] ].
  - apply Hany.
    change (Permutation
              [ Demo.path "/home/u/Dropbox/notes/c.paper";
                Demo.path "/home/u/Dropbox/notes/a.paper";
                Demo.path "/home/u/Dropbox/notes/sub/b.paper" ]
              [ Demo.path "/home/u/Dropbox/notes/sub/b.paper";
                Demo.path "/home/u/Dropbox/notes/a.paper";
                Demo.path "/home/u/Dropbox/notes/c.paper" ]).
    eapply perm_trans; [ apply perm_skip, perm_swap | ].
    eapply perm_trans; [ apply perm_swap | ].
    apply perm_skip, perm_swap.
  - apply Hrun; try reflexivity. discriminate.
Defined.

Lemma in_parents q p :
  In q (parents p)
  <-> root q = root p /\ exists rest, rest <> [] /\ tail p = tail q ++ rest.
Proof.
  unfold parents. rewrite in_map_iff. split.
  - intros (t & <- & Hin). apply in_rev, in_proper_prefixes in Hin.
    cbn. split; [ reflexivity | exact Hin ].
  - intros (Hr & Hrest). exists (tail q). split.
    + destruct q; cbn in *. congruence.
    + apply -> in_rev. apply in_proper_prefixes. exact Hrest.
Qed.

Lemma prefix_comparable (a b x y : list str) :
  a ++ x = b ++ y -> is_prefix a b = true \/ is_prefix b a = true.
Proof.
  revert b. induction a as [|c a IH]; intros [|d b] H; cbn.
  - left. reflexivity.
  - left. reflexivity.
  - right. reflexivity.
  - cbn in H. injection H as -> H. rewrite eqb_refl. cbn. apply (IH b H).
Qed.

(** Below the output directory, nothing reaches into a source directory
    that neither holds the output directory nor lies within it. *)
Lemma touched_outside_source pd od p q :
  at_or_under pd od = false -> at_or_under od pd = false ->
  at_or_under od p = true -> In q (p :: parents p) ->
  at_or_under pd q = false.
Proof.
  intros H1 H2 Hp Hq.
  destruct (at_or_under pd q) eqn:E; [ exfalso | reflexivity ].
  assert (Hqp : at_or_under q p = true).
  { destruct Hq as [<-|Hq].
    - apply at_or_under_iff. exists []. unfold joinpath. cbn.
      rewrite app_nil_r. destruct p; reflexivity.
    - apply in_parents in Hq as (Hr & rest & _ & Ht).
      apply at_or_under_iff. exists rest. unfold joinpath. cbn.
      destruct p; cbn in *. congruence. }
  apply at_or_under_iff in E as [r1 E], Hqp as [r2 Hqp], Hp as [r3 Hp].
  subst q. rewrite Hqp in Hp. unfold joinpath in Hp. cbn in Hp.
  injection Hp as Hr Ht. rewrite <- app_assoc in Ht.
  unfold at_or_under in H1, H2. rewrite Hr in H1, H2.
  rewrite eqb_refl in H1, H2. cbn in H1, H2.
  destruct (prefix_comparable _ _ _ _ Ht); congruence.
Qed.

(** C10, as the specification words it, fails when the output directory
    is the source directory: an export is then written next to its
    source. *)
Lemma in_place_run_writes_under_source :
  let pd := Demo.path "/home/u/Dropbox/notes" in
  let target := Demo.path "/home/u/Dropbox/notes/a.html" in
  expanduser Demo.notes_env (paper_dir Demo.in_place_args) = Ok pd
  /\ strictly_under target pd
  /\ exists text,
      In (WriteText target text)
         (trace (snd (main Demo.notes_env Demo.in_place_args Demo.start))).
Proof.
  cbv zeta. split; [ reflexivity | ]. split.
  - exists [lit "a.html"]. split; [ discriminate | reflexivity ].
  - eexists. vm_compute. do 4 right. left. reflexivity.
Qed.

(** C10, amended.  What a run adds to the trace: every directory
    creation is for the output directory or a directory under it, and
    every write is for a path strictly under the output directory.
    When the output directory is not at or under the source directory
    and the source directory is not at or under the output directory, no
    path a run creates or writes (the parents a directory creation
    brings along included) is at or under the source directory.  A run
    in which the expansion of a home directory raises adds nothing. *)
Theorem writes_stay_under_output_dir
        (R : Type) (env : Env R) (args : Args) (w : World R) :
  exists new,
    trace (snd (main env args w)) = trace w ++ new
    /\ (forall od,
           expanduser env (output_dir args) = Ok od ->
           Forall (fun e => match e with
                            | Mkdir p => at_or_under od p = true
                            | WriteText p _ => strictly_under p od
                            | _ => True
                            end) new)
    /\ (forall pd od,
           expanduser env (paper_dir args) = Ok pd ->
           expanduser env (output_dir args) = Ok od ->
           at_or_under pd od = false -> at_or_under od pd = false ->
           Forall (fun e => forall q, In q (touched e) ->
                                      at_or_under pd q = false) new)
    /\ (forall e,
           expanduser env (paper_dir args) = Raise e
           \/ expanduser env (output_dir args) = Raise e
           \/ expanduser env (dropbox_root args) = Raise e ->
           new = []).
Proof.
  set (Q := fun (od : Path) (e : Event) =>
              match e with
              | Mkdir p => at_or_under od p = true
              | WriteText p _ => strictly_under p od
              | _ => True
              end).
  set (Good := fun res : Outcome * World R =>
                 exists new,
                   trace (snd res) = trace w ++ new
                   /\ (forall od, expanduser env (output_dir args) = Ok od ->
                                  Forall (Q od) new)
                   /\ (forall e,
                          expanduser env (paper_dir args) = Raise e
                          \/ expanduser env (output_dir args) = Raise e
                          \/ expanduser env (dropbox_root args) = Raise e ->
                          new = [])).
  assert (Hnothing : forall o, Good (o, w)).
  { intros o. exists []. cbn [snd]. rewrite app_nil_r.
    split; [ reflexivity | ]. split; [ constructor | reflexivity ]. }
  assert (Hmain : Good (main env args w)).
  { destruct (expanduser env (paper_dir args)) as [pd|e1] eqn:Hpd.
    2:{ destruct (@main_unconfigured _ env args w) as [e ->];
          [ left; eauto | apply Hnothing ]. }
    destruct (expanduser env (output_dir args)) as [od|e2] eqn:Hod.
    2:{ destruct (@main_unconfigured _ env args w) as [e ->];
          [ right; left; eauto | apply Hnothing ]. }
    destruct (expanduser env (dropbox_root args)) as [dr|e3] eqn:Hdr.
    2:{ destruct (@main_unconfigured _ env args w) as [e ->];
          [ right; right; left; eauto | apply Hnothing ]. }
    assert (Hclass : forall res new,
               trace (snd res) = trace w ++ new ->
               Forall (Q od) new -> Good res).
    { intros res new Hn HQ. exists new. split; [ exact Hn | ]. split.
      - intros od' E. assert (od' = od) by congruence. subst od'. exact HQ.
      - intros e [E|[E|E]]; congruence. }
    assert (Hod' : at_or_under od od = true).
    { apply at_or_under_iff. exists []. unfold joinpath. cbn.
      rewrite app_nil_r. destruct od; reflexivity. }
    destruct (is_dir env pd) eqn:Hd.
    2:{ rewrite (main_not_dir env args Hpd Hod Hdr w Hd). apply Hnothing. }
    destruct (opt_truthy (py_or (dropbox_token args)
                                (environ_get env (lit "DROPBOX_ACCESS_TOKEN"))))
      eqn:Ht.
    2:{ rewrite (main_no_token env args Hpd Hod Hdr w Hd Ht). apply Hnothing. }
    rewrite (main_configured env args Hpd Hod Hdr w Hd Ht).
    destruct (mkdir env (trace w) od).
    { apply (Hclass _ [Mkdir od]); [ reflexivity | ].
      constructor; [ exact Hod' | constructor ]. }
    destruct (iter_paper_files env pd) as [|p0 files0].
    - apply (Hclass _ [Mkdir od; Print (lit "No .paper files found under "
                                        ++ to_str pd)]).
      + cbn [snd emit trace]. rewrite <- app_assoc. reflexivity.
      + constructor; [ exact Hod' | constructor; [ exact I | constructor ] ].
    - destruct (@loop_trace _ env pd od dr (format args)
                  (extension_of (format args)) (Q od))
        with (files := p0 :: files0) (w := emit (Mkdir od) w)
        as (new & Hn & Qn).
      + intros line. exact I.
      + intros r f. exact I.
      + intros p target text Htarget.
        apply target_of_shape in Htarget as (dir & nm & -> & Hparent).
        rewrite Hparent. split.
        * apply at_or_under_iff. exists dir. reflexivity.
        * exists (dir ++ [nm]). split; [ destruct dir; discriminate | reflexivity ].
      + apply (Hclass _ (Mkdir od :: new)).
        * rewrite Hn. cbn [emit trace]. rewrite <- app_assoc. reflexivity.
        * constructor; [ exact Hod' | exact Qn ]. }
  destruct Hmain as (new & Hn & Qn & Hraise).
  exists new. split; [ exact Hn | ]. split; [ exact Qn | ].
  split; [ | exact Hraise ].
  intros pd od Hpd Hod H1 H2. eapply Forall_impl; [ | exact (Qn od Hod) ].
  intros e He q Hq. destruct e as [line|p|p text|r f]; cbn in Hq;
    try contradiction.
  - apply (@touched_outside_source pd od p q H1 H2 He Hq).
  - destruct Hq as [<-|[]]. destruct He as (rel & _ & ->).
    eapply (@touched_outside_source pd od); [ exact H1 | exact H2 | | left; reflexivity ].
    apply at_or_under_iff. eauto.
Qed.

Lemma writes_stay_under_output_dir_witness :
  Forall (fun e => forall q, In q (touched e) ->
                             at_or_under (Demo.path "/home/u/Dropbox/notes") q
                             = false)
         (trace (snd (main Demo.notes_env Demo.notes_args Demo.start))).
Proof.
  destruct (@writes_stay_under_output_dir _ Demo.notes_env Demo.notes_args
              Demo.start) as (new & Hn & _ & Hout & _).
  rewrite Hn.
  apply (Hout (Demo.path "/home/u/Dropbox/notes") (Demo.path "/home/u/out"));
    reflexivity.
Defined.

(* ================================================================== *)
(** * Further facts about the loop *)
(* ================================================================== *)

Section LoopAccounts.

Variable R : Type.
Variable env : Env R.
Variables paper_dir output_dir dropbox_root : Path.
Variables export_format extension : str.

Let loop :=
  process_files env paper_dir output_dir dropbox_root export_format extension.

Let processing (p : Path) : Event := Print (lit "Processing " ++ to_str p).

Lemma count_app kind a b : count kind (a ++ b) = count kind a + count kind b.
Proof. unfold count. rewrite filter_app, length_app. reflexivity. Qed.

(** The books of one file. *)
Lemma file_events_counts p complete block :
  file_events env paper_dir output_dir dropbox_root export_format extension
              p complete block ->
  count is_processing block = 1
  /\ count is_export block <= 1
  /\ count is_mkdir block <= count is_export block
  /\ count is_write block <= count is_mkdir block
  /\ (complete = true ->
      count is_mkdir block = count is_write block
      /\ count is_write block + count is_skipping block = 1)
  /\ (complete = false -> count is_skipping block = 0).
Proof.
  assert (Hp : forall rest,
             count is_processing (processing p :: rest)
             = S (count is_processing rest)) by reflexivity.
  assert (He : forall rest, count is_export (processing p :: rest)
                            = count is_export rest) by reflexivity.
  assert (Hm : forall rest, count is_mkdir (processing p :: rest)
                            = count is_mkdir rest) by reflexivity.
  assert (Hw : forall rest, count is_write (processing p :: rest)
                            = count is_write rest) by reflexivity.
  assert (Hs : forall rest, count is_skipping (processing p :: rest)
                            = count is_skipping rest) by reflexivity.
  assert (Sp : forall msg, count is_processing
                             [Print (lit "  Skipping: " ++ msg)] = 0)
    by reflexivity.
  assert (Ss : forall msg, count is_skipping
                             [Print (lit "  Skipping: " ++ msg)] = 1)
    by reflexivity.
  unfold processing in *.
  destruct 1; rewrite Hp, He, Hm, Hw, Hs; cbn [count filter length is_processing
    is_export is_mkdir is_write is_skipping];
    rewrite ?Sp, ?Ss;
    repeat split; intros; try discriminate; try lia;
    try (change (count is_processing
                   (FilesExport remote_path export_format
                    :: [Print (lit "  Skipping: " ++ msg)]))
           with (count is_processing [Print (lit "  Skipping: " ++ msg)]);
         rewrite Sp; reflexivity).
Qed.

(** The books of a batch. *)
Lemma batch_events_counts files complete tr :
  batch_events env paper_dir output_dir dropbox_root export_format extension
               files complete tr ->
  count is_processing tr <= length files
  /\ count is_export tr <= count is_processing tr
  /\ count is_mkdir tr <= count is_export tr
  /\ count is_write tr <= count is_mkdir tr
  /\ count is_mkdir tr <= 1 + count is_write tr
  /\ count is_skipping tr + count is_mkdir tr <= count is_processing tr
  /\ (complete = true ->
      count is_processing tr = length files
      /\ count is_mkdir tr = count is_write tr
      /\ count is_write tr + count is_skipping tr = length files).
Proof.
  induction 1 as [|p rest block tr complete Hb _ IH|p rest block Hb].
  - cbn. repeat split; lia.
  - destruct (file_events_counts Hb) as (B1 & B2 & B3 & B4 & B5 & _).
    destruct (B5 eq_refl) as [B6 B7].
    destruct IH as (I1 & I2 & I3 & I4 & I5 & I6 & I7).
    rewrite !count_app. cbn [length].
    repeat (split; [ lia | ]).
    intros E. destruct (I7 E) as (J1 & J2 & J3). repeat split; lia.
  - destruct (file_events_counts Hb) as (B1 & B2 & B3 & B4 & _ & B6).
    specialize (B6 eq_refl). cbn [length].
    repeat (split; [ lia | ]). discriminate.
Qed.

(** An [ApiError], [AuthError] or [RuntimeError] that escapes the loop
    was raised by the file system, not by the client: the loop and
    [export_paper] handle those of the client. *)
Lemma loop_escape files :
  forall w e,
    fst (loop files w) = Raised e ->
    passes_through e = false ->
    (exists p, realpath env p = Raise e)
    \/ (exists history p, mkdir env history p = Some e)
    \/ (exists history p text, write_text env history p text = Some e).
Proof.
  induction files as [|p files IH]; intros w e.
  - discriminate.
  - unfold loop. rewrite loop_cons. fold loop. unfold attempt.
    destruct (compute_remote_path env p dropbox_root) as [remote_path|e']
      eqn:Hc.
    + destruct (files_export env
                  (remote (emit (Print (lit "Processing " ++ to_str p)) w))
                  remote_path export_format) as [[[metadata response]|e'] st]
        eqn:Hx.
      * destruct (export_paper_ok env _ _ _ Hx) as (text & _ & ->).
        destruct (target_of paper_dir output_dir extension p)
          as [target|e''] eqn:Ht.
        -- destruct (mkdir env _ (parent target)) as [e0|] eqn:Hm.
           { cbn [fst]. intros E _. injection E as <-. right. left. eauto. }
           destruct (write_text env _ target _) as [e0|] eqn:Hw.
           { cbn [fst]. intros E _. injection E as <-. right. right. eauto. }
           apply IH.
        -- apply target_of_raises in Ht as [msg ->].
           cbn [fst]. intros E. injection E as <-. discriminate.
      * rewrite (export_paper_raise env _ _ _ Hx).
        destruct e'; cbn [fst]; try apply IH;
          intros E; injection E as <-; discriminate.
    + destruct e'; cbn [fst]; try apply IH;
        try (intros E; injection E as <-; discriminate).
      intros E _. injection E as <-.
      apply compute_remote_path_raise_inv in Hc as [Hc|[Hc|Hc]];
        [ discriminate | left; eauto | left; eauto ].
Qed.

End LoopAccounts.

(* ================================================================== *)
(** * Further properties of [main] *)
(* ================================================================== *)





(** An export the service rejects with [ApiError] costs the file only:
    the run announces the file, sends the one request, prints
    ["  Skipping: Dropbox export failed: ..."], writes nothing and goes
    on with the files that follow. *)
Theorem api_error_is_skipped
        (R : Type) (env : Env R) (args : Args) (w w1 : World R)
        (pd od dr : Path) (pre post : list Path) (p : Path)
        (remote_path msg : str) (st : R) :
  expanduser env (paper_dir args) = Ok pd ->
  expanduser env (output_dir args) = Ok od ->
  expanduser env (dropbox_root args) = Ok dr ->
  is_dir env pd = true ->
  opt_truthy (py_or (dropbox_token args)
                    (environ_get env (lit "DROPBOX_ACCESS_TOKEN"))) = true ->
  mkdir env (trace w) od = None ->
  iter_paper_files env pd = pre ++ p :: post ->
  process_files env pd od dr (format args) (extension_of (format args))
                pre (emit (Mkdir od) w) = (Returned 0, w1) ->
  compute_remote_path env p dr = Ok remote_path ->
  files_export env (remote w1) remote_path (format args)
  = (Raise (ApiError msg), st) ->
  main env args w
  = process_files env pd od dr (format args) (extension_of (format args)) post
      {| remote := st;
         trace := trace w1
                  ++ [Print (lit "Processing " ++ to_str p);
                      FilesExport remote_path (format args);
                      Print (lit "  Skipping: Dropbox export failed: " ++ msg)] |}.
Proof.
  intros Hpd Hod Hdr Hd Ht Hmk Hf Hpre Hp He.
  rewrite (main_run env args Hpd Hod Hdr w Hd Ht Hmk);
    [ | rewrite Hf; destruct pre; discriminate ].
  rewrite Hf, loop_app, Hpre.
  rewrite (@loop_cons_raise _ env pd od dr (format args)
             (extension_of (format args)) p post w1
             (RuntimeError (lit "Dropbox export failed: " ++ msg))
             {| remote := st;
                trace := trace w1
                         ++ [Print (lit "Processing " ++ to_str p);
                             FilesExport remote_path (format args)] |}).
  - unfold emit. cbn [remote trace]. rewrite <- app_assoc. reflexivity.
  - unfold attempt. rewrite Hp.
    rewrite (@export_paper_raise _ env
               (emit (Print (lit "Processing " ++ to_str p)) w1)
               remote_path (format args) (ApiError msg) st) by exact He.
    cbn [emit trace remote]. rewrite <- app_assoc. reflexivity.
Qed.

Lemma api_error_is_skipped_witness :
  main Demo.unknown_env Demo.notes_args Demo.start
  = process_files Demo.unknown_env
      (Demo.path "/home/u/Dropbox/notes") (Demo.path "/home/u/out")
      (Demo.path "/home/u/Dropbox") (lit "markdown") (lit ".md")
      [Demo.path "/home/u/Dropbox/notes/c.paper";
       Demo.path "/home/u/Dropbox/notes/sub/b.paper"]
      {| remote := 1;
         trace :=
           [ Mkdir (Demo.path "/home/u/out");
             Print (lit "Processing /home/u/Dropbox/notes/a.paper");
             FilesExport (lit "/notes/a.paper") (lit "markdown");
             Print (lit "  Skipping: Dropbox export failed: path/not_found") ] |}.
Proof.
  apply (@api_error_is_skipped _ Demo.unknown_env Demo.notes_args Demo.start
           (emit (Mkdir (Demo.path "/home/u/out")) Demo.start)
           (Demo.path "/home/u/Dropbox/notes") (Demo.path "/home/u/out")
           (Demo.path "/home/u/Dropbox")
           []
           [Demo.path "/home/u/Dropbox/notes/c.paper";
            Demo.path "/home/u/Dropbox/notes/sub/b.paper"]
           (Demo.path "/home/u/Dropbox/notes/a.paper")
           (lit "/notes/a.paper") (lit "path/not_found") 1);
    reflexivity.
Defined.

(** An exception of the client that is neither [ApiError], [AuthError]
    nor [RuntimeError] is not handled anywhere: [main] ends with that
    very exception, right after the request, and the files that follow
    are not touched. *)
Theorem unexpected_error_propagates
        (R : Type) (env : Env R) (args : Args) (w w1 : World R)
        (pd od dr : Path) (pre post : list Path) (p : Path)
        (remote_path : str) (e : Exception) (st : R) :
  expanduser env (paper_dir args) = Ok pd ->
  expanduser env (output_dir args) = Ok od ->
  expanduser env (dropbox_root args) = Ok dr ->
  is_dir env pd = true ->
  opt_truthy (py_or (dropbox_token args)
                    (environ_get env (lit "DROPBOX_ACCESS_TOKEN"))) = true ->
  mkdir env (trace w) od = None ->
  iter_paper_files env pd = pre ++ p :: post ->
  process_files env pd od dr (format args) (extension_of (format args))
                pre (emit (Mkdir od) w) = (Returned 0, w1) ->
  compute_remote_path env p dr = Ok remote_path ->
  files_export env (remote w1) remote_path (format args) = (Raise e, st) ->
  passes_through e = true ->
  main env args w
  = (Raised e,
     {| remote := st;
        trace := trace w1
                 ++ [Print (lit "Processing " ++ to_str p);
                     FilesExport remote_path (format args)] |})
  /\ exit_status (fst (main env args w)) = 1%Z.
Proof.
  intros Hpd Hod Hdr Hd Ht Hmk Hf Hpre Hp He Hpass.
  assert (Hm : main env args w
               = (Raised e,
                  {| remote := st;
                     trace := trace w1
                              ++ [Print (lit "Processing " ++ to_str p);
                                  FilesExport remote_path (format args)] |})).
  { rewrite (main_run env args Hpd Hod Hdr w Hd Ht Hmk);
      [ | rewrite Hf; destruct pre; discriminate ].
    rewrite Hf, loop_app, Hpre.
    rewrite (@loop_cons_raise _ env pd od dr (format args)
               (extension_of (format args)) p post w1 e
               {| remote := st;
                  trace := trace w1
                           ++ [Print (lit "Processing " ++ to_str p);
                               FilesExport remote_path (format args)] |}).
    - destruct e; try discriminate; reflexivity.
    - unfold attempt. rewrite Hp.
      rewrite (@export_paper_raise _ env
                 (emit (Print (lit "Processing " ++ to_str p)) w1)
                 remote_path (format args) e st) by exact He.
      cbn [emit trace remote]. rewrite <- app_assoc.
      destruct e; try discriminate; reflexivity. }
  split; [ exact Hm | rewrite Hm; reflexivity ].
Qed.

Lemma unexpected_error_propagates_witness :
  main Demo.dropping_env Demo.notes_args Demo.start
  = (Raised (OtherError (lit "ConnectionError")),
     {| remote := 2;
        trace :=
          [ Mkdir (Demo.path "/home/u/out");
            Print (lit "Processing /home/u/Dropbox/notes/a.paper");
            FilesExport (lit "/notes/a.paper") (lit "markdown");
            Mkdir (Demo.path "/home/u/out");
            WriteText (Demo.path "/home/u/out/a.md")
                      (lit "# Note (exported as markdown)"
                       ++ [newline; newline] ++ lit "hi");
            Print (lit "Processing /home/u/Dropbox/notes/c.paper");
            FilesExport (lit "/notes/c.paper") (lit "markdown") ] |}).
Proof.
  apply (@unexpected_error_propagates _ Demo.dropping_env Demo.notes_args
           Demo.start
           (snd (process_files Demo.dropping_env
                   (Demo.path "/home/u/Dropbox/notes")
                   (Demo.path "/home/u/out") (Demo.path "/home/u/Dropbox")
                   (lit "markdown") (lit ".md")
                   [Demo.path "/home/u/Dropbox/notes/a.paper"]
                   (emit (Mkdir (Demo.path "/home/u/out")) Demo.start)))
           (Demo.path "/home/u/Dropbox/notes") (Demo.path "/home/u/out")
           (Demo.path "/home/u/Dropbox")
           [Demo.path "/home/u/Dropbox/notes/a.paper"]
           [Demo.path "/home/u/Dropbox/notes/sub/b.paper"]
           (Demo.path "/home/u/Dropbox/notes/c.paper")
           (lit "/notes/c.paper") (OtherError (lit "ConnectionError")) 2);
    reflexivity.
Defined.

(** [main] returns no code but 0, and the exit status is 0 exactly when
    [main] returns.  An [ApiError], [AuthError] or [RuntimeError] of
    the client never escapes [main]: when [main] ends with an exception
    of one of these classes, it was raised by the expansion of a home
    directory, by the resolution of a path, by a directory creation or
    by a write. *)
Theorem main_outcomes
        (R : Type) (env : Env R) (args : Args) (w : World R) :
  (forall code, fst (main env args w) = Returned code -> code = 0%Z)
  /\ (forall e,
         fst (main env args w) = Raised e ->
         passes_through e = false ->
         (exists p, expanduser env p = Raise e)
         \/ (exists p, realpath env p = Raise e)
         \/ (exists history p, mkdir env history p = Some e)
         \/ (exists history p text, write_text env history p text = Some e))
  /\ (exit_status (fst (main env args w)) = 0%Z
      <-> exists w', main env args w = (Returned 0, w')).
Proof.
  assert (H : (exists w', main env args w = (Returned 0, w'))
              \/ (exists e w',
                     main env args w = (Raised e, w')
                     /\ (passes_through e = false ->
                         (exists p, expanduser env p = Raise e)
                         \/ (exists p, realpath env p = Raise e)
                         \/ (exists history p, mkdir env history p = Some e)
                         \/ (exists history p text,
                                write_text env history p text = Some e)))).
  { destruct (expanduser env (paper_dir args)) as [pd|e1] eqn:Hpd.
    2:{ right. exists e1, w. split; [ unfold main; rewrite Hpd; reflexivity | ].
        intros _. left. eauto. }
    destruct (expanduser env (output_dir args)) as [od|e2] eqn:Hod.
    2:{ right. exists e2, w.
        split; [ unfold main; rewrite Hpd, Hod; reflexivity | ].
        intros _. left. eauto. }
    destruct (expanduser env (dropbox_root args)) as [dr|e3] eqn:Hdr.
    2:{ right. exists e3, w.
        split; [ unfold main; rewrite Hpd, Hod, Hdr; reflexivity | ].
        intros _. left. eauto. }
    destruct (is_dir env pd) eqn:Hd.
    2:{ right. rewrite (main_not_dir env args Hpd Hod Hdr w Hd).
        eexists _, w. split; [ reflexivity | discriminate ]. }
    destruct (opt_truthy (py_or (dropbox_token args)
                                (environ_get env (lit "DROPBOX_ACCESS_TOKEN"))))
      eqn:Ht.
    2:{ right. rewrite (main_no_token env args Hpd Hod Hdr w Hd Ht).
        eexists _, w. split; [ reflexivity | discriminate ]. }
    rewrite (main_configured env args Hpd Hod Hdr w Hd Ht).
    destruct (mkdir env (trace w) od) as [e0|] eqn:Hmk.
    { right. eexists e0, _. split; [ reflexivity | ].
      intros _. right. right. left. eauto. }
    destruct (iter_paper_files env pd) as [|p0 files0]; [ left; eauto | ].
    pose proof (@loop_returns_zero _ env pd od dr (format args)
                  (extension_of (format args)) (p0 :: files0)
                  (emit (Mkdir od) w)) as Hz.
    pose proof (@loop_escape _ env pd od dr (format args)
                  (extension_of (format args)) (p0 :: files0)
                  (emit (Mkdir od) w)) as He.
    destruct (process_files env pd od dr (format args)
                (extension_of (format args)) (p0 :: files0)
                (emit (Mkdir od) w)) as [[code|e0] w'].
    - left. rewrite (Hz code w' eq_refl). eauto.
    - right. exists e0, w'. split; [ reflexivity | ].
      intros Hp. right. apply (He e0 eq_refl Hp). }
  destruct H as [[w' Hm]|(e & w' & Hm & He)]; rewrite Hm; cbn [fst].
  - split; [ | split ].
    + intros code E. injection E as <-. reflexivity.
    + discriminate.
    + split; [ eauto | reflexivity ].
  - split; [ | split ].
    + discriminate.
    + intros e' E. injection E as <-. exact He.
    + split; [ discriminate | intros [w'' E]; discriminate ].
Qed.

Lemma main_outcomes_witness :
  exit_status (fst (main Demo.notes_env Demo.notes_args Demo.start)) = 0%Z
  /\ fst (main Demo.notes_env Demo.stranger_args Demo.start)
     = Raised (RuntimeError (lit "Could not determine home directory."))
  /\ exists p,
      expanduser Demo.notes_env p
      = Raise (RuntimeError (lit "Could not determine home directory.")).
Proof.
  destruct (@main_outcomes _ Demo.notes_env Demo.notes_args Demo.start)
    as (_ & _ & Hexit).
  destruct (@main_outcomes _ Demo.notes_env Demo.stranger_args Demo.start)
    as (_ & Hesc & _).
  split.
  { apply (proj2 Hexit).
    exists (snd (main Demo.notes_env Demo.notes_args Demo.start)).
    vm_compute. reflexivity. }
  split; [ vm_compute; reflexivity | ].
  destruct (Hesc (RuntimeError (lit "Could not determine home directory."))
                 eq_refl eq_refl) as [Hx|[[p Hp]|[(h & p & Hp)|(h & p & t & Hp)]]].
  - exact Hx.
  - unfold Demo.notes_env, Demo.env_of, Demo.make_env in Hp. cbn in Hp.
    discriminate.
  - discriminate.
  - discriminate.
Defined.

(** The books of a run.  Among the events a run adds: no more writes
    than directory creations (every write comes after the creation of
    its directory), no more directory creations than export requests
    but for the output directory itself (nothing is stored that was not
    exported), at most two directory creations more than writes, no
    more requests than announced files (no request is repeated), and no
    more announced files than discovered ones.  When [main] returns,
    every discovered file was announced, each was either written or
    skipped with a message, and every directory creation but that of
    the output directory was followed by its write. *)
Theorem main_accounts
        (R : Type) (env : Env R) (args : Args) (w : World R) :
  exists new,
    trace (snd (main env args w)) = trace w ++ new
    /\ count is_write new <= count is_mkdir new
    /\ count is_mkdir new <= 1 + count is_export new
    /\ count is_mkdir new <= 2 + count is_write new
    /\ count is_export new <= count is_processing new
    /\ (forall pd,
           expanduser env (paper_dir args) = Ok pd ->
           count is_processing new <= length (iter_paper_files env pd)
           /\ (forall code,
                  fst (main env args w) = Returned code ->
                  count is_processing new = length (iter_paper_files env pd)
                  /\ count is_write new + count is_skipping new
                     = length (iter_paper_files env pd)
                  /\ count is_mkdir new = 1 + count is_write new)).
Proof.
  set (Books := fun res : Outcome * World R =>
         exists new,
           trace (snd res) = trace w ++ new
           /\ count is_write new <= count is_mkdir new
           /\ count is_mkdir new <= 1 + count is_export new
           /\ count is_mkdir new <= 2 + count is_write new
           /\ count is_export new <= count is_processing new
           /\ (forall pd,
                  expanduser env (paper_dir args) = Ok pd ->
                  count is_processing new <= length (iter_paper_files env pd)
                  /\ (forall code,
                         fst res = Returned code ->
                         count is_processing new
                         = length (iter_paper_files env pd)
                         /\ count is_write new + count is_skipping new
                            = length (iter_paper_files env pd)
                         /\ count is_mkdir new = 1 + count is_write new))).
  assert (Hnothing : forall e, Books (Raised e, w)).
  { intros e. exists []. cbn [snd fst]. rewrite app_nil_r.
    split; [ reflexivity | ]. cbn. do 4 (split; [ lia | ]).
    intros pd _. split; [ lia | discriminate ]. }
  change (Books (main env args w)).
  destruct (expanduser env (paper_dir args)) as [pd|e1] eqn:Hpd.
  2:{ destruct (@main_unconfigured _ env args w) as [e ->];
        [ left; eauto | apply Hnothing ]. }
  destruct (expanduser env (output_dir args)) as [od|e2] eqn:Hod.
  2:{ destruct (@main_unconfigured _ env args w) as [e ->];
        [ right; left; eauto | apply Hnothing ]. }
  destruct (expanduser env (dropbox_root args)) as [dr|e3] eqn:Hdr.
  2:{ destruct (@main_unconfigured _ env args w) as [e ->];
        [ right; right; left; eauto | apply Hnothing ]. }
  destruct (is_dir env pd) eqn:Hd.
  2:{ rewrite (main_not_dir env args Hpd Hod Hdr w Hd). apply Hnothing. }
  destruct (opt_truthy (py_or (dropbox_token args)
                              (environ_get env (lit "DROPBOX_ACCESS_TOKEN"))))
    eqn:Ht.
  2:{ rewrite (main_no_token env args Hpd Hod Hdr w Hd Ht). apply Hnothing. }
  rewrite (main_configured env args Hpd Hod Hdr w Hd Ht).
  destruct (mkdir env (trace w) od).
  { exists [Mkdir od]. split; [ reflexivity | ]. cbn.
    do 4 (split; [ lia | ]).
    intros pd' _. split; [ lia | discriminate ]. }
  destruct (iter_paper_files env pd) as [|p0 files0] eqn:Hf.
  { eexists [_; _]. cbn [snd fst emit trace]. rewrite <- app_assoc.
    split; [ reflexivity | ]. cbn. do 4 (split; [ lia | ]).
    intros pd' E. assert (pd' = pd) by congruence. subst pd'.
    rewrite Hf. cbn. repeat split; lia. }
  destruct (loop_events env pd od dr (format args)
              (extension_of (format args)) (p0 :: files0)
              (emit (Mkdir od) w)) as (tr & Htr & Hb).
  apply batch_events_counts in Hb
    as (B1 & B2 & B3 & B4 & B5 & B6 & B7).
  exists ([Mkdir od] ++ tr). split.
  { rewrite Htr. cbn [emit trace]. rewrite <- app_assoc. reflexivity. }
  rewrite !count_app.
  change (count is_write [Mkdir od]) with 0.
  change (count is_export [Mkdir od]) with 0.
  change (count is_mkdir [Mkdir od]) with 1.
  change (count is_processing [Mkdir od]) with 0.
  change (count is_skipping [Mkdir od]) with 0.
  do 4 (split; [ lia | ]).
  intros pd' E. assert (pd' = pd) by congruence. subst pd'.
  rewrite Hf. split; [ lia | ].
  intros code Hc.
  destruct (process_files env pd od dr (format args)
              (extension_of (format args)) (p0 :: files0)
              (emit (Mkdir od) w)) as [[c|e0] w'];
    [ | discriminate ].
  destruct (B7 eq_refl) as (J1 & J2 & J3). repeat split; lia.
Qed.

Lemma main_accounts_witness :
  exists new,
    trace (snd (main Demo.unknown_env Demo.notes_args Demo.start)) = new
    /\ count is_write new = 2 /\ count is_skipping new = 1
    /\ count is_processing new = 3 /\ count is_mkdir new = 3.
Proof.
  destruct (@main_accounts _ Demo.unknown_env Demo.notes_args Demo.start)
    as (new & Hn & _ & _ & _ & _ & Hall).
  exists new. split; [ exact Hn | ].
  destruct (Hall (Demo.path "/home/u/Dropbox/notes") eq_refl) as [_ Hret].
  destruct (Hret 0%Z eq_refl) as (Hp & Hs & Hm).
  cbn [trace Demo.start app] in Hn. rewrite <- Hn.
  repeat split; reflexivity.
Defined.

(** Where exports go.  For every discovered file the target is
    defined, so the path arithmetic of the loop never raises, and it
    lies strictly under the output directory.  Two discovered files,
    neither named exactly [.paper], never share a target: no export
    overwrites another. *)
Theorem targets_of_discovered_files
        (R : Type) (env : Env R) (pd od : Path) (export_format : str) :
  let ext := extension_of export_format in
  (forall p,
      In p (iter_paper_files env pd) ->
      exists target,
        target_of pd od ext p = Ok target /\ strictly_under target od)
  /\ (forall p q target,
         In p (iter_paper_files env pd) ->
         In q (iter_paper_files env pd) ->
         PurePath.name p <> lit ".paper" ->
         PurePath.name q <> lit ".paper" ->
         target_of pd od ext p = Ok target ->
         target_of pd od ext q = Ok target ->
         p = q).
Proof.
  intros ext.
  assert (Hname : forall dir stem,
             PurePath.name
               (mkPath (root pd) (tail pd ++ dir ++ [stem ++ lit ".paper"]))
             <> lit ".paper" -> truthy stem = true).
  { intros dir stem H. destruct stem; [ | reflexivity ]. exfalso. apply H.
    unfold PurePath.name. cbn [tail]. rewrite !app_assoc. apply last_last. }
  split.
  - intros p Hp. apply discovered_shape in Hp as (dir & stem & _ & ->).
    unfold ext. rewrite target_of_discovered by apply valid_suffix_extension.
    eexists. split; [ reflexivity | ].
    eexists (dir ++ [_]). split; [ destruct dir; discriminate | reflexivity ].
  - intros p q target Hp Hq Np Nq Tp Tq.
    apply discovered_shape in Hp as (dp & sp & _ & ->).
    apply discovered_shape in Hq as (dq & sq & _ & ->).
    unfold ext in Tp, Tq.
    rewrite target_of_discovered in Tp, Tq by apply valid_suffix_extension.
    rewrite (Hname _ _ Np) in Tp. rewrite (Hname _ _ Nq) in Tq.
    rewrite <- Tq in Tp. injection Tp as Tp.
    apply app_inv_head in Tp. apply app_inj_tail in Tp as [-> Tp].
    apply app_inv_tail in Tp. subst sq. reflexivity.
Qed.

Lemma targets_of_discovered_files_witness :
  exists target,
    target_of (Demo.path "/home/u/Dropbox/notes") (Demo.path "/home/u/out")
              (lit ".html") (Demo.path "/home/u/Dropbox/notes/sub/b.paper")
    = Ok target
    /\ strictly_under target (Demo.path "/home/u/out").
Proof.
  destruct (@targets_of_discovered_files _ Demo.notes_env
              (Demo.path "/home/u/Dropbox/notes") (Demo.path "/home/u/out")
              (lit "html")) as [Hdef _].
  apply (Hdef (Demo.path "/home/u/Dropbox/notes/sub/b.paper")).
  vm_compute. do 2 right. left. reflexivity.
Defined.

(** What the directory creation or the write of an export raises is
    caught nowhere.  In a run that got past its checks, where the
    sorted files are [pre], then [p], then [post], [pre] was processed
    without an abort and the export of [p] succeeds with [text] for the
    target [target]: when the creation of the directory of [target]
    raises, the run ends with that exception and no write is asked for;
    when the write raises, the run ends with that exception; in both
    cases the exit status is 1 and no file of [post] is processed. *)
Theorem storing_failure_ends_run
        (R : Type) (env : Env R) (args : Args) (w w1 w2 : World R)
        (pd od dr : Path) (pre post : list Path) (p target : Path)
        (text : str) :
  expanduser env (paper_dir args) = Ok pd ->
  expanduser env (output_dir args) = Ok od ->
  expanduser env (dropbox_root args) = Ok dr ->
  is_dir env pd = true ->
  opt_truthy (py_or (dropbox_token args)
                    (environ_get env (lit "DROPBOX_ACCESS_TOKEN"))) = true ->
  mkdir env (trace w) od = None ->
  iter_paper_files env pd = pre ++ p :: post ->
  process_files env pd od dr (format args) (extension_of (format args))
                pre (emit (Mkdir od) w) = (Returned 0, w1) ->
  attempt env dr (format args) p
          (emit (Print (lit "Processing " ++ to_str p)) w1) = (Ok text, w2) ->
  target_of pd od (extension_of (format args)) p = Ok target ->
  (forall e,
      mkdir env (trace w2) (parent target) = Some e ->
      main env args w
      = (Raised e,
         {| remote := remote w2;
            trace := trace w2 ++ [Mkdir (parent target)] |})
      /\ exit_status (fst (main env args w)) = 1%Z)
  /\ (forall e,
         mkdir env (trace w2) (parent target) = None ->
         write_text env (trace w2 ++ [Mkdir (parent target)]) target text
         = Some e ->
         main env args w
         = (Raised e,
            {| remote := remote w2;
               trace := trace w2 ++ [Mkdir (parent target);
                                     WriteText target text] |})
         /\ exit_status (fst (main env args w)) = 1%Z).
Proof.
  intros Hpd Hod Hdr Hd Ht Hmk Hf Hpre Ha Htarget.
  assert (Hm : main env args w
               = match mkdir env (trace w2) (parent target) with
                 | Some e => (Raised e, emit (Mkdir (parent target)) w2)
                 | None =>
                     match write_text env (trace w2 ++ [Mkdir (parent target)])
                                      target text with
                     | Some e =>
                         (Raised e,
                          emit (WriteText target text)
                               (emit (Mkdir (parent target)) w2))
                     | None =>
                         process_files env pd od dr (format args)
                           (extension_of (format args)) post
                           (emit (WriteText target text)
                                 (emit (Mkdir (parent target)) w2))
                     end
                 end).
  { rewrite (main_run env args Hpd Hod Hdr w Hd Ht Hmk);
      [ | rewrite Hf; destruct pre; discriminate ].
    rewrite Hf, loop_app, Hpre.
    rewrite (loop_cons_ok env pd od dr (format args)
               (extension_of (format args)) p post w1 Ha).
    rewrite Htarget. reflexivity. }
  split.
  - intros e Hmake. rewrite Hm, Hmake. split; reflexivity.
  - intros e Hmake Hwrite. rewrite Hm, Hmake, Hwrite.
    unfold emit. cbn [remote trace]. rewrite <- app_assoc.
    split; reflexivity.
Qed.

Lemma storing_failure_ends_run_witness :
  main Demo.clash_env Demo.notes_args Demo.start
  = (Raised (OtherError (lit "IsADirectoryError")),
     {| remote := 2;
        trace :=
          [ Mkdir (Demo.path "/home/u/out");
            Print (lit "Processing /home/u/Dropbox/notes/a.md/b.paper");
            FilesExport (lit "/notes/a.md/b.paper") (lit "markdown");
            Mkdir (Demo.path "/home/u/out/a.md");
            WriteText (Demo.path "/home/u/out/a.md/b.md")
                      (lit "# Note (exported as markdown)"
                       ++ [newline; newline] ++ lit "hi");
            Print (lit "Processing /home/u/Dropbox/notes/a.paper");
            FilesExport (lit "/notes/a.paper") (lit "markdown");
            Mkdir (Demo.path "/home/u/out");
            WriteText (Demo.path "/home/u/out/a.md")
                      (lit "# Note (exported as markdown)"
                       ++ [newline; newline] ++ lit "hi") ] |})
  /\ exit_status (fst (main Demo.clash_env Demo.notes_args Demo.start)) = 1%Z.
Proof.
  destruct (@storing_failure_ends_run _ Demo.clash_env Demo.notes_args
              Demo.start
              (snd (process_files Demo.clash_env
                      (Demo.path "/home/u/Dropbox/notes")
                      (Demo.path "/home/u/out") (Demo.path "/home/u/Dropbox")
                      (lit "markdown") (lit ".md")
                      [Demo.path "/home/u/Dropbox/notes/a.md/b.paper"]
                      (emit (Mkdir (Demo.path "/home/u/out")) Demo.start)))
              (snd (attempt Demo.clash_env (Demo.path "/home/u/Dropbox")
                      (lit "markdown")
                      (Demo.path "/home/u/Dropbox/notes/a.paper")
                      (emit (Print (lit "Processing /home/u/Dropbox/notes/a.paper"))
                            (snd (process_files Demo.clash_env
                                    (Demo.path "/home/u/Dropbox/notes")
                                    (Demo.path "/home/u/out")
                                    (Demo.path "/home/u/Dropbox")
                                    (lit "markdown") (lit ".md")
                                    [Demo.path "/home/u/Dropbox/notes/a.md/b.paper"]
                                    (emit (Mkdir (Demo.path "/home/u/out"))
                                          Demo.start))))))
              (Demo.path "/home/u/Dropbox/notes")
              (Demo.path "/home/u/out") (Demo.path "/home/u/Dropbox")
              [Demo.path "/home/u/Dropbox/notes/a.md/b.paper"]
              []
              (Demo.path "/home/u/Dropbox/notes/a.paper")
              (Demo.path "/home/u/out/a.md")
              (lit "# Note (exported as markdown)"
               ++ [newline; newline] ++ lit "hi"))
    as (_ & Hwrite); try reflexivity.
  apply (Hwrite (OtherError (lit "IsADirectoryError"))); reflexivity.
Defined.

(* ================================================================== *)
(** * Further properties of [export_paper] and [compute_remote_path] *)
(* ================================================================== *)

(** The strict attempt changes nothing: the text [export_paper] works
    with is always what decoding with the replacing handler alone
    gives. *)
Theorem decode_content_is_replacing (response : Dropbox.Response) :
  decode_content response
  = Utf8.bytes_decode Utf8.Replace (Dropbox.content response).
Proof.
  destruct (decode_content_ok response) as (text & -> & Hr).
  unfold Utf8.bytes_decode. rewrite Hr. reflexivity.
Qed.

(** A payload of ASCII bytes is decoded byte for byte; in particular an
    empty payload gives the empty text. *)
Theorem decode_content_ascii (response : Dropbox.Response) :
  ascii_only (Dropbox.content response) = true ->
  decode_content response
  = Ok (List.map Byte.to_N (Dropbox.content response)).
Proof.
  intros H.
  assert (Hs : Utf8.decode Utf8.Strict (Dropbox.content response)
               = Some (List.map Byte.to_N (Dropbox.content response))).
  { unfold ascii_only in H.
    induction (Dropbox.content response) as [|b s IH]; [ reflexivity | ].
    cbn [forallb] in H. apply andb_true_iff in H as [Hb Hs].
    rewrite Utf8Facts.decode_cons, Hb, (IH Hs). reflexivity. }
  unfold decode_content, Utf8.bytes_decode. rewrite Hs. reflexivity.
Qed.

Lemma decode_content_ascii_witness :
  decode_content {| Dropbox.content := Demo.hi |} = Ok (lit "hi").
Proof.
  apply (@decode_content_ascii {| Dropbox.content := Demo.hi |}).
  reflexivity.
Defined.

(** The decoded text never has more characters than the payload has
    bytes, and it is empty only for an empty payload. *)
Theorem decode_content_length (response : Dropbox.Response) (text : str) :
  decode_content response = Ok text ->
  length text <= length (Dropbox.content response)
  /\ (text = [] <-> Dropbox.content response = []).
Proof.
  destruct (decode_content_ok response) as (t & -> & Hr).
  intros H. injection H as <-.
  revert t Hr.
  induction (Dropbox.content response) as [s IH] using Utf8Facts.bytes_ind_len.
  intros t Hr. destruct s as [|b1 s1].
  { cbn in Hr. injection Hr as <-. split; [ reflexivity | tauto ]. }
  destruct (Utf8Facts.decode_step_len b1 s1)
    as [(ch & rest & Heq & Hlen & _)|(rest & Heq & Hlen)];
    rewrite Heq in Hr; cbn in Hr;
    destruct (Utf8.decode Utf8.Replace rest) as [t'|] eqn:Hrest;
    try discriminate; cbn in Hr; injection Hr as <-;
    destruct (IH rest Hlen t' Hrest) as [Hle _];
    (split; [ cbn [length] in *; lia | split; discriminate ]).
Qed.

Lemma decode_content_length_witness :
  exists text,
    decode_content {| Dropbox.content := Demo.broken |} = Ok text
    /\ length text <= 2.
Proof.
  exists [104; Utf8.REPLACEMENT]%N. split; [ reflexivity | ].
  apply (@decode_content_length {| Dropbox.content := Demo.broken |}
           [104; Utf8.REPLACEMENT]%N).
  reflexivity.
Defined.

Lemma parse_posix_form rel :
  wf_tail rel = true -> parse (posix_form rel) = mkPath [] rel.
Proof.
  intros H. destruct rel as [|c rel]; [ reflexivity | ].
  apply parse_join. exact H.
Qed.

(** What [compute_remote_path] returns, when it returns: both paths
    resolved, and the result is a ["/"] followed by the forward-slash
    form of well-formed components, those that lead from the resolved
    root to the resolved file; split at ["/"], a remote path of a file
    below the root is an empty segment and then those components, none
    of them empty. *)
Theorem remote_path_shape
        (R : Type) (env : Env R) (local_file dropbox_root : Path)
        (remote_path : str) :
  compute_remote_path env local_file dropbox_root = Ok remote_path ->
  exists file root_dir rel,
    resolve env local_file = Ok file
    /\ resolve env dropbox_root = Ok root_dir
    /\ wf_tail rel = true
    /\ file = joinpath root_dir (mkPath [] rel)
    /\ remote_path = lit "/" ++ posix_form rel
    /\ (rel <> [] -> split sep remote_path = [] :: rel).
Proof.
  intros H.
  destruct (compute_remote_path_inv env _ _ H)
    as (file & root_dir & rel & H1 & H2 & Hwf & Hrel & ->).
  exists file, root_dir, rel.
  split; [ exact H1 | ]. split; [ exact H2 | ].
  split; [ exact Hwf | ]. split; [ exact Hrel | ].
  split; [ reflexivity | ].
  intros Hne. destruct rel as [|c rel]; [ contradiction | ].
  change (split sep ([] ++ sep :: join [sep] (c :: rel)) = [] :: c :: rel).
  rewrite split_app_sep by (intros []).
  f_equal. apply split_join; [ discriminate | ].
  apply Forall_forall. intros x Hx.
  unfold wf_tail in Hwf. rewrite forallb_forall in Hwf.
  specialize (Hwf x Hx). apply wf_component_iff in Hwf. tauto.
Qed.

Lemma remote_path_shape_witness :
  exists rel,
    split sep (lit "/notes/sub/b.paper") = [] :: rel
    /\ rel = [lit "notes"; lit "sub"; lit "b.paper"].
Proof.
  destruct (@remote_path_shape _ Demo.notes_env
              (Demo.path "/home/u/Dropbox/notes/sub/b.paper")
              (Demo.path "/home/u/Dropbox")
              (lit "/notes/sub/b.paper") eq_refl)
    as (file & root_dir & rel & H1 & H2 & _ & Hrel & _ & Hsplit).
  assert (E : rel = [lit "notes"; lit "sub"; lit "b.paper"]).
  { vm_compute in H1, H2. injection H1 as <-. injection H2 as <-.
    unfold joinpath in Hrel. vm_compute in Hrel. injection Hrel as Hrel.
    symmetry. exact Hrel. }
  exists rel. split; [ | exact E ].
  apply Hsplit. rewrite E. discriminate.
Defined.

(** Two local files are mapped to the same remote path only when they
    resolve to the same path: distinct documents below the root never
    collide on the service, and a link has the remote path of the file
    it leads to. *)
Theorem remote_paths_do_not_collide
        (R : Type) (env : Env R) (file1 file2 dropbox_root : Path)
        (remote_path : str) :
  compute_remote_path env file1 dropbox_root = Ok remote_path ->
  compute_remote_path env file2 dropbox_root = Ok remote_path ->
  exists file,
    resolve env file1 = Ok file /\ resolve env file2 = Ok file.
Proof.
  intros H1 H2.
  apply compute_remote_path_inv in H1
    as (f1 & r1 & rel1 & Hf1 & Hr1 & Hwf1 & Hj1 & E1).
  apply compute_remote_path_inv in H2
    as (f2 & r2 & rel2 & Hf2 & Hr2 & Hwf2 & Hj2 & E2).
  assert (r2 = r1) by congruence. subst r2.
  rewrite E1 in E2. apply app_inv_head in E2.
  assert (E : mkPath [] rel1 = mkPath [] rel2).
  { rewrite <- (parse_posix_form _ Hwf1), <- (parse_posix_form _ Hwf2), E2.
    reflexivity. }
  exists f1. split; [ exact Hf1 | ].
  rewrite Hf2, Hj2, Hj1, E. reflexivity.
Qed.

Lemma remote_paths_do_not_collide_witness :
  Demo.path "/home/u/Dropbox/notes/c.paper"
  <> Demo.path "/home/u/Dropbox/notes/a.paper"
  /\ exists file,
      resolve Demo.aliased_env (Demo.path "/home/u/Dropbox/notes/c.paper")
      = Ok file
      /\ resolve Demo.aliased_env (Demo.path "/home/u/Dropbox/notes/a.paper")
         = Ok file.
Proof.
  split; [ discriminate | ].
  apply (@remote_paths_do_not_collide _ Demo.aliased_env
           (Demo.path "/home/u/Dropbox/notes/c.paper")
           (Demo.path "/home/u/Dropbox/notes/a.paper")
           (Demo.path "/home/u/Dropbox") (lit "/notes/a.paper"));
    reflexivity.
Defined.



(* ================================================================== *)
(** * Further properties of [iter_paper_files] *)
(* ================================================================== *)

Lemma unique_names_Dir entries :
  unique_names (Dir entries)
  <-> NoDup (List.map fst entries)
      /\ Forall (fun e => unique_names (snd e)) entries.
Proof.
  cbn [unique_names].
  assert (H : forall es,
             (fix all (es : list (str * Tree)) : Prop :=
                match es with
                | [] => True
                | (_, sub) :: es' => unique_names sub /\ all es'
                end) es
             <-> Forall (fun e => unique_names (snd e)) es).
  { induction es as [|[nm sub] es IH]; split.
    - constructor.
    - intros _. exact I.
    - intros [Hs Ha]. constructor; [ exact Hs | apply IH; exact Ha ].
    - intros Hf. inversion Hf; subst. split; [ assumption | apply IH; assumption ]. }
  rewrite H. reflexivity.
Qed.

Lemma child_inj here a b : child here a = child here b -> a = b.
Proof.
  unfold child. intros H. injection H as H.
  apply app_inv_head in H. congruence.
Qed.

(** A listing of a tree without repeated names yields no path twice. *)
Lemma rglob_NoDup pat t :
  unique_names t -> forall here, NoDup (rglob pat here t).
Proof.
  induction t as [|entries IH] using Tree_nested_ind; intros Hu here.
  - constructor.
  - apply unique_names_Dir in Hu as [Hnames Hsubs].
    rewrite rglob_Dir. apply NoDup_app.
    + assert (Hf : NoDup (filter (fnmatch pat) (List.map fst entries)))
        by (apply NoDup_filter; exact Hnames).
      induction Hf as [|nm l Hnm _ IHl]; cbn; constructor; [ | exact IHl ].
      intros Hin. apply in_map_iff in Hin as (nm' & E & Hin).
      apply child_inj in E. subst nm'. contradiction.
    + induction entries as [|[nm sub] es IHes]; cbn [flat_map]; [ constructor | ].
      cbn [List.map fst] in Hnames. apply NoDup_cons_iff in Hnames as [Hnm Hnames].
      apply Forall_cons_iff in Hsubs as [Hsub Hsubs].
      apply Forall_cons_iff in IH as [IHsub IHrest].
      apply NoDup_app.
      * apply IHsub. exact Hsub.
      * apply IHes; assumption.
      * intros p Hp Hp'. cbn [fst snd] in Hp.
        apply in_rglob in Hp as (dir & leaf & _ & _ & ->).
        apply in_flat_map in Hp' as ([nm' sub'] & He & Hp').
        apply in_rglob in Hp' as (dir' & leaf' & _ & _ & E).
        cbn [fst snd child root tail] in E. injection E as E.
        rewrite <- !app_assoc in E. apply app_inv_head in E.
        cbn [app] in E. injection E as E _.
        apply Hnm. subst nm. apply in_map_iff. exists (nm', sub').
        split; [ reflexivity | exact He ].
    + intros p Hp Hp'.
      apply in_map_iff in Hp as (nm & <- & _).
      apply in_flat_map in Hp' as ([nm' sub'] & _ & Hp').
      apply in_rglob in Hp' as (dir' & leaf' & _ & _ & E).
      cbn [fst snd child root tail] in E. injection E as E.
      rewrite <- !app_assoc in E. apply app_inv_head in E.
      cbn [app] in E. injection E as _ E. destruct dir'; discriminate.
Qed.

(** When no directory of the scanned tree lists a name twice, no file
    is discovered twice, and the sorted list is strictly increasing in
    the lexicographic order: every file is worked on once. *)
Theorem iter_paper_files_once (R : Type) (env : Env R) (pd : Path) :
  unique_names (scan env pd) ->
  NoDup (iter_paper_files env pd)
  /\ StronglySorted path_lt (iter_paper_files env pd).
Proof.
  intros Hu.
  assert (Hnd : NoDup (iter_paper_files env pd)).
  { eapply Permutation_NoDup; [ apply sorted_perm | ].
    apply rglob_NoDup. exact Hu. }
  split; [ exact Hnd | ].
  assert (Hroot : forall p, In p (iter_paper_files env pd) -> root p = root pd).
  { intros p Hp. apply discovered_shape in Hp as (? & ? & _ & ->). reflexivity. }
  pose proof (sorted_sorted (rglob (lit "*.paper") pd (scan env pd))) as Hs.
  fold (iter_paper_files env pd) in Hs.
  induction Hs as [|p l Hs IH Hp]; constructor.
  - apply IH.
    + apply NoDup_cons_iff in Hnd. tauto.
    + intros q Hq. apply Hroot. right. exact Hq.
  - apply NoDup_cons_iff in Hnd as [Hnotin _].
    apply Forall_forall. intros q Hq. rewrite Forall_forall in Hp.
    specialize (Hp q Hq). apply path_ltb_lex.
    destruct (ltb p q) eqn:E; [ reflexivity | exfalso ].
    apply Hnotin.
    assert (p = q); [ | congruence ].
    apply same_root_parts.
    + rewrite (Hroot p), (Hroot q); [ reflexivity | right; exact Hq | left; reflexivity ].
    + apply le_antisym; [ exact Hp | exact E ].
Qed.

Lemma iter_paper_files_once_witness :
  NoDup (iter_paper_files Demo.notes_env (Demo.path "/home/u/Dropbox/notes")).
Proof.
  apply (@iter_paper_files_once _ Demo.notes_env
           (Demo.path "/home/u/Dropbox/notes")).
  cbn. repeat split; repeat constructor;
    cbn; intuition discriminate.
Defined.

(* ================================================================== *)
(** * Facts about the encoder *)
(* ================================================================== *)

Module Utf8EncoderFacts.

Import Utf8 Utf8Encoder.

Lemma to_N_byte_of n : (n < 256)%N -> Byte.to_N (byte_of n) = n.
Proof.
  intros H. unfold byte_of. destruct (Byte.of_N n) as [b|] eqn:E.
  - apply Byte.to_of_N. exact E.
  - apply Byte.of_N_None_iff in E. lia.
Qed.

Lemma byte_of_to_N b : byte_of (Byte.to_N b) = b.
Proof. unfold byte_of. rewrite Byte.of_to_N. reflexivity. Qed.

Lemma lor_add a b : N.land a b = 0%N -> N.lor a b = (a + b)%N.
Proof.
  intros H. rewrite (N.add_nocarry_lxor a b H). symmetry.
  apply N.lxor_lor. exact H.
Qed.

(** A marker with its low [k] bits clear, joined to a value of [k] bits. *)
Lemma lor_marker hi lo k :
  N.land hi (N.ones k) = 0%N -> (lo < 2 ^ k)%N -> N.lor hi lo = (hi + lo)%N.
Proof.
  intros Hhi Hlo. apply lor_add.
  replace lo with (N.land (N.ones k) lo)
    by (rewrite N.land_comm, N.land_ones; apply N.mod_small; exact Hlo).
  rewrite N.land_assoc, Hhi. apply N.land_0_l.
Qed.

Lemma land_3F x : N.land x 0x3F = (x mod 64)%N.
Proof. change 0x3F%N with (N.ones 6). apply N.land_ones. Qed.

Lemma shiftr_6 x : N.shiftr x 6 = (x / 64)%N.
Proof. apply N.shiftr_div_pow2. Qed.

Lemma shiftr_12 x : N.shiftr x 12 = (x / 4096)%N.
Proof. apply N.shiftr_div_pow2. Qed.

Lemma shiftr_18 x : N.shiftr x 18 = (x / 262144)%N.
Proof. apply N.shiftr_div_pow2. Qed.

Lemma continuation_byte x : N.lor 0x80 (x mod 64) = (128 + x mod 64)%N.
Proof.
  apply (@lor_marker 0x80 (x mod 64) 6); [ reflexivity | ].
  apply N.mod_lt. discriminate.
Qed.

(** The encoder in arithmetic: the markers added, the payload bits taken
    by division. *)
Lemma encode_char_2 ch :
  (0x80 <= ch)%N -> (ch < 0x800)%N ->
  encode_char ch
  = Some [byte_of (192 + ch / 64); byte_of (128 + ch mod 64)]%N.
Proof.
  intros H1 H2. unfold encode_char.
  rewrite (proj2 (N.ltb_ge ch 0x80) H1), (proj2 (N.ltb_lt ch 0x800) H2).
  rewrite land_3F, shiftr_6, continuation_byte.
  rewrite (@lor_marker 0xC0 (ch / 64) 5); [ reflexivity | reflexivity | ].
  apply N.Div0.div_lt_upper_bound. exact H2.
Qed.

Lemma encode_char_3 ch :
  (0x800 <= ch)%N -> (ch < 0x10000)%N -> is_surrogate ch = false ->
  encode_char ch
  = Some [byte_of (224 + ch / 4096); byte_of (128 + (ch / 64) mod 64);
          byte_of (128 + ch mod 64)]%N.
Proof.
  intros H1 H2 Hs. unfold encode_char.
  rewrite (proj2 (N.ltb_ge ch 0x80)) by lia.
  rewrite (proj2 (N.ltb_ge ch 0x800) H1), Hs.
  rewrite (proj2 (N.ltb_lt ch 0x10000) H2).
  rewrite !land_3F, shiftr_6, shiftr_12, !continuation_byte.
  rewrite (@lor_marker 0xE0 (ch / 4096) 4); [ reflexivity | reflexivity | ].
  apply N.Div0.div_lt_upper_bound. exact H2.
Qed.

Lemma encode_char_4 ch :
  (0x10000 <= ch)%N -> (ch < 0x110000)%N ->
  encode_char ch
  = Some [byte_of (240 + ch / 262144); byte_of (128 + (ch / 4096) mod 64);
          byte_of (128 + (ch / 64) mod 64); byte_of (128 + ch mod 64)]%N.
Proof.
  intros H1 H2. unfold encode_char.
  rewrite (proj2 (N.ltb_ge ch 0x80)) by lia.
  rewrite (proj2 (N.ltb_ge ch 0x800)) by lia.
  replace (is_surrogate ch) with false.
  2:{ symmetry. unfold is_surrogate. apply andb_false_iff. right.
      apply N.leb_gt. lia. }
  rewrite (proj2 (N.ltb_ge ch 0x10000) H1).
  rewrite (proj2 (N.ltb_lt ch 0x110000) H2).
  rewrite !land_3F, shiftr_6, shiftr_12, shiftr_18, !continuation_byte.
  rewrite (@lor_marker 0xF0 (ch / 262144) 3); [ reflexivity | reflexivity | ].
  apply N.Div0.div_lt_upper_bound. change (2 ^ 3 * 262144)%N with 2097152%N.
  lia.
Qed.

(** Quotient and remainder read off a decomposition. *)
Lemma split_digits base x q r :
  (r < base)%N -> x = (base * q + r)%N ->
  (x / base)%N = q /\ (x mod base)%N = r.
Proof.
  intros Hr Hx. split; symmetry.
  - apply (N.div_unique x base q r Hr Hx).
  - apply (N.mod_unique x base q r Hr Hx).
Qed.

Ltac settle_one :=
  match goal with
  | |- context [(?a <? ?b)%N] =>
      first [ replace (a <? b)%N with true
                by (symmetry; apply N.ltb_lt; lia)
            | replace (a <? b)%N with false
                by (symmetry; apply N.ltb_ge; lia) ]
  | |- context [(?a =? ?b)%N] =>
      first [ replace (a =? b)%N with true
                by (symmetry; apply N.eqb_eq; lia)
            | replace (a =? b)%N with false
                by (symmetry; apply N.eqb_neq; lia) ]
  | |- context [(?a <=? ?b)%N] =>
      first [ replace (a <=? b)%N with true
                by (symmetry; apply N.leb_le; lia)
            | replace (a <=? b)%N with false
                by (symmetry; apply N.leb_gt; lia) ]
  end.

Ltac settle := repeat (settle_one; cbv beta match delta [negb orb andb]).

(** The base-64 digits of a code point. *)
Lemma digits ch :
  exists c1 c2 c3 r0 r1 r2,
    (ch = 64 * c1 + r0 /\ c1 = 64 * c2 + r1 /\ c2 = 64 * c3 + r2
     /\ r0 < 64 /\ r1 < 64 /\ r2 < 64
     /\ ch / 64 = c1 /\ ch mod 64 = r0
     /\ ch / 4096 = c2 /\ (ch / 64) mod 64 = r1
     /\ ch / 262144 = c3 /\ (ch / 4096) mod 64 = r2)%N.
Proof.
  exists (ch / 64)%N, (ch / 64 / 64)%N, (ch / 64 / 64 / 64)%N,
         (ch mod 64)%N, ((ch / 64) mod 64)%N, ((ch / 64 / 64) mod 64)%N.
  assert (E2 : (ch / 4096 = ch / 64 / 64)%N)
    by (rewrite N.Div0.div_div; reflexivity).
  assert (E3 : (ch / 262144 = ch / 64 / 64 / 64)%N)
    by (rewrite !N.Div0.div_div; reflexivity).
  rewrite E2, E3.
  repeat split; try apply N.div_mod'; try (apply N.mod_lt; discriminate).
Qed.

(** What the encoder writes for a code point, the decoder reads as that
    code point, whatever follows and whatever the handler. *)
Lemma decode_encode_char ch bytes :
  encode_char ch = Some bytes ->
  forall errors tl,
    decode errors (bytes ++ tl) = accept ch (decode errors tl).
Proof.
  intros H errors tl.
  destruct (digits ch)
    as (c1 & c2 & c3 & r0 & r1 & r2 & D0 & D1 & D2 & B0 & B1 & B2
        & Q1 & R0 & Q2 & R1 & Q3 & R2).
  destruct (N.lt_ge_cases ch 0x80) as [L1|L1].
  { unfold encode_char in H. rewrite (proj2 (N.ltb_lt _ _) L1) in H.
    injection H as <-. cbn [app]. rewrite Utf8Facts.decode_cons.
    rewrite to_N_byte_of by lia. rewrite (proj2 (N.ltb_lt _ _) L1).
    reflexivity. }
  destruct (N.lt_ge_cases ch 0x800) as [L2|L2].
  { rewrite encode_char_2 in H by assumption.
    apply (f_equal (fun o => match o with Some l => l | None => [] end)) in H.
    cbv beta iota in H. subst bytes.
    rewrite Q1, R0. cbn [app]. rewrite Utf8Facts.decode_cons.
    rewrite !to_N_byte_of by lia. unfold is_continuation. settle.
    f_equal. rewrite !N.shiftl_mul_pow2. change (2 ^ 6)%N with 64%N. lia. }
  destruct (is_surrogate ch) eqn:Hs.
  { unfold encode_char in H.
    rewrite (proj2 (N.ltb_ge _ _) L1), (proj2 (N.ltb_ge _ _) L2), Hs in H.
    discriminate. }
  assert (Hsur : (ch < 0xD800 \/ 0xDFFF < ch)%N).
  { unfold is_surrogate in Hs. apply andb_false_iff in Hs as [Hs|Hs];
      [ apply N.leb_gt in Hs | apply N.leb_gt in Hs ]; lia. }
  destruct (N.lt_ge_cases ch 0x10000) as [L3|L3].
  { rewrite encode_char_3 in H by assumption.
    apply (f_equal (fun o => match o with Some l => l | None => [] end)) in H.
    cbv beta iota in H. subst bytes.
    rewrite Q2, R1, R0. cbn [app]. rewrite Utf8Facts.decode_cons.
    rewrite !to_N_byte_of by lia. unfold is_continuation.
    destruct (N.lt_ge_cases r1 32); settle;
      (f_equal; rewrite !N.shiftl_mul_pow2;
       change (2 ^ 6)%N with 64%N; change (2 ^ 12)%N with 4096%N; lia). }
  destruct (N.lt_ge_cases ch 0x110000) as [L4|L4].
  { rewrite encode_char_4 in H by assumption.
    apply (f_equal (fun o => match o with Some l => l | None => [] end)) in H.
    cbv beta iota in H. subst bytes.
    rewrite Q3, R2, R1, R0. cbn [app]. rewrite Utf8Facts.decode_cons.
    rewrite !to_N_byte_of by lia. unfold is_continuation.
    destruct (N.lt_ge_cases r2 16); settle;
      (f_equal; rewrite !N.shiftl_mul_pow2;
       change (2 ^ 6)%N with 64%N; change (2 ^ 12)%N with 4096%N;
       change (2 ^ 18)%N with 262144%N; lia). }
  unfold encode_char in H.
  rewrite (proj2 (N.ltb_ge _ _) L1), (proj2 (N.ltb_ge _ _) L2), Hs,
    (proj2 (N.ltb_ge _ _) L3), (proj2 (N.ltb_ge _ _) L4) in H.
  discriminate.
Qed.

(** What is encoded decodes to the same text, under either handler. *)
Lemma decode_encode text :
  forall bytes,
    encode text = Some bytes ->
    forall errors, decode errors bytes = Some text.
Proof.
  induction text as [|ch text IH]; intros bytes H errors.
  - cbn in H. injection H as <-. reflexivity.
  - cbn [encode] in H.
    destruct (encode_char ch) as [first|] eqn:Hc; [ | discriminate ].
    destruct (encode text) as [rest|] eqn:Hr; [ | discriminate ].
    injection H as <-.
    rewrite (decode_encode_char _ Hc), (IH rest eq_refl). reflexivity.
Qed.

Lemma encode_app a b :
  encode (a ++ b)
  = match encode a, encode b with
    | Some x, Some y => Some (x ++ y)
    | _, _ => None
    end.
Proof.
  induction a as [|ch a IH]; cbn [app encode].
  - destruct (encode b); reflexivity.
  - rewrite IH. destruct (encode_char ch), (encode a), (encode b);
      try reflexivity. rewrite app_assoc. reflexivity.
Qed.

(** A scalar value is encoded, in one to four bytes. *)
Lemma encode_char_scalar ch :
  is_scalar ch = true -> exists bytes, encode_char ch = Some bytes.
Proof.
  intros H. unfold is_scalar in H. apply andb_true_iff in H as [Hlt Hs].
  apply N.ltb_lt in Hlt. apply negb_true_iff in Hs.
  unfold encode_char.
  destruct (ch <? 0x80)%N; [ eauto | ].
  destruct (ch <? 0x800)%N; [ eauto | ].
  replace (is_surrogate ch) with false.
  - destruct (ch <? 0x10000)%N; [ eauto | ].
    rewrite (proj2 (N.ltb_lt _ _) Hlt). eauto.
  - symmetry. unfold is_surrogate.
    apply andb_false_iff in Hs as [Hs|Hs]; apply andb_false_iff.
    + left. exact Hs.
    + right. apply N.ltb_ge in Hs. apply N.leb_gt. lia.
Qed.

Lemma encode_scalar text :
  Forall (fun ch => is_scalar ch = true) text ->
  exists bytes, encode text = Some bytes.
Proof.
  induction 1 as [|ch text Hch _ [rest IH]]; [ exists []; reflexivity | ].
  destruct (encode_char_scalar _ Hch) as [first Hf].
  exists (first ++ rest). cbn [encode]. rewrite Hf, IH. reflexivity.
Qed.

(** The code point of a valid sequence is encoded as that sequence. *)
Lemma encode_decoded_2 b1 b2 :
  (0xC2 <= Byte.to_N b1)%N -> (Byte.to_N b1 < 0xE0)%N ->
  is_continuation (Byte.to_N b2) = true ->
  encode_char (N.shiftl (Byte.to_N b1) 6 + Byte.to_N b2
               - (N.shiftl 0xC0 6 + 0x80))%N
  = Some [b1; b2].
Proof.
  intros L1 L2 C2. unfold is_continuation in C2.
  apply andb_true_iff in C2 as [C2a C2b].
  apply N.leb_le in C2a. apply N.ltb_lt in C2b.
  rewrite !N.shiftl_mul_pow2. change (2 ^ 6)%N with 64%N.
  set (ch := (Byte.to_N b1 * 64 + Byte.to_N b2 - (192 * 64 + 128))%N).
  destruct (@split_digits 64 ch (Byte.to_N b1 - 192) (Byte.to_N b2 - 128))%N
    as [Q R]; [ lia | unfold ch; lia | ].
  rewrite encode_char_2 by (unfold ch; lia). rewrite Q, R.
  replace (192 + (Byte.to_N b1 - 192))%N with (Byte.to_N b1) by lia.
  replace (128 + (Byte.to_N b2 - 128))%N with (Byte.to_N b2) by lia.
  rewrite !byte_of_to_N. reflexivity.
Qed.

Lemma encode_decoded_3 b1 b2 b3 :
  (0xE0 <= Byte.to_N b1)%N -> (Byte.to_N b1 < 0xF0)%N ->
  is_continuation (Byte.to_N b2) = true ->
  (if (Byte.to_N b2 <? 0xA0)%N then (Byte.to_N b1 =? 0xE0)%N
   else (Byte.to_N b1 =? 0xED)%N) = false ->
  is_continuation (Byte.to_N b3) = true ->
  encode_char (N.shiftl (Byte.to_N b1) 12 + N.shiftl (Byte.to_N b2) 6
               + Byte.to_N b3
               - (N.shiftl 0xE0 12 + N.shiftl 0x80 6 + 0x80))%N
  = Some [b1; b2; b3].
Proof.
  intros L1 L2 C2 X C3. unfold is_continuation in C2, C3.
  apply andb_true_iff in C2 as [C2a C2b]. apply andb_true_iff in C3 as [C3a C3b].
  apply N.leb_le in C2a, C3a. apply N.ltb_lt in C2b, C3b.
  assert (HX : (Byte.to_N b2 < 0xA0 -> Byte.to_N b1 <> 0xE0)%N
               /\ (0xA0 <= Byte.to_N b2 -> Byte.to_N b1 <> 0xED)%N).
  { destruct (Byte.to_N b2 <? 0xA0)%N eqn:E.
    - apply N.ltb_lt in E. apply N.eqb_neq in X. split; [ tauto | lia ].
    - apply N.ltb_ge in E. apply N.eqb_neq in X. split; [ lia | tauto ]. }
  destruct HX as [HX1 HX2].
  rewrite !N.shiftl_mul_pow2.
  change (2 ^ 6)%N with 64%N. change (2 ^ 12)%N with 4096%N.
  set (ch := (Byte.to_N b1 * 4096 + Byte.to_N b2 * 64 + Byte.to_N b3
              - (224 * 4096 + 128 * 64 + 128))%N).
  destruct (digits ch)
    as (c1 & c2 & c3 & r0 & r1 & r2 & D0 & D1 & D2 & B0 & B1 & B2
        & Q1 & R0 & Q2 & R1 & Q3 & R2).
  assert (Hch : (ch = 4096 * (Byte.to_N b1 - 224)
                      + 64 * (Byte.to_N b2 - 128) + (Byte.to_N b3 - 128))%N)
    by (unfold ch; lia).
  assert (E0 : r0 = (Byte.to_N b3 - 128)%N) by lia.
  assert (E1 : r1 = (Byte.to_N b2 - 128)%N) by lia.
  assert (E2 : c2 = (Byte.to_N b1 - 224)%N) by lia.
  rewrite encode_char_3.
  - rewrite Q2, R1, R0, E0, E1, E2.
    replace (224 + (Byte.to_N b1 - 224))%N with (Byte.to_N b1) by lia.
    replace (128 + (Byte.to_N b2 - 128))%N with (Byte.to_N b2) by lia.
    replace (128 + (Byte.to_N b3 - 128))%N with (Byte.to_N b3) by lia.
    rewrite !byte_of_to_N. reflexivity.
  - destruct (N.lt_ge_cases (Byte.to_N b2) 0xA0); lia.
  - lia.
  - unfold is_surrogate. apply andb_false_iff.
    destruct (N.lt_ge_cases (Byte.to_N b2) 0xA0).
    + destruct (N.lt_ge_cases (Byte.to_N b1) 0xEE).
      * left. apply N.leb_gt. lia.
      * right. apply N.leb_gt. lia.
    + destruct (N.lt_ge_cases (Byte.to_N b1) 0xED).
      * left. apply N.leb_gt. lia.
      * right. apply N.leb_gt. lia.
Qed.

Lemma encode_decoded_4 b1 b2 b3 b4 :
  (0xF0 <= Byte.to_N b1)%N -> (Byte.to_N b1 < 0xF5)%N ->
  is_continuation (Byte.to_N b2) = true ->
  (if (Byte.to_N b2 <? 0x90)%N then (Byte.to_N b1 =? 0xF0)%N
   else (Byte.to_N b1 =? 0xF4)%N) = false ->
  is_continuation (Byte.to_N b3) = true ->
  is_continuation (Byte.to_N b4) = true ->
  encode_char (N.shiftl (Byte.to_N b1) 18 + N.shiftl (Byte.to_N b2) 12
               + N.shiftl (Byte.to_N b3) 6 + Byte.to_N b4
               - (N.shiftl 0xF0 18 + N.shiftl 0x80 12
                  + N.shiftl 0x80 6 + 0x80))%N
  = Some [b1; b2; b3; b4].
Proof.
  intros L1 L2 C2 X C3 C4. unfold is_continuation in C2, C3, C4.
  apply andb_true_iff in C2 as [C2a C2b]. apply andb_true_iff in C3 as [C3a C3b].
  apply andb_true_iff in C4 as [C4a C4b].
  apply N.leb_le in C2a, C3a, C4a. apply N.ltb_lt in C2b, C3b, C4b.
  assert (HX : (Byte.to_N b2 < 0x90 -> Byte.to_N b1 <> 0xF0)%N
               /\ (0x90 <= Byte.to_N b2 -> Byte.to_N b1 <> 0xF4)%N).
  { destruct (Byte.to_N b2 <? 0x90)%N eqn:E.
    - apply N.ltb_lt in E. apply N.eqb_neq in X. split; [ tauto | lia ].
    - apply N.ltb_ge in E. apply N.eqb_neq in X. split; [ lia | tauto ]. }
  destruct HX as [HX1 HX2].
  rewrite !N.shiftl_mul_pow2.
  change (2 ^ 6)%N with 64%N. change (2 ^ 12)%N with 4096%N.
  change (2 ^ 18)%N with 262144%N.
  set (ch := (Byte.to_N b1 * 262144 + Byte.to_N b2 * 4096
              + Byte.to_N b3 * 64 + Byte.to_N b4
              - (240 * 262144 + 128 * 4096 + 128 * 64 + 128))%N).
  destruct (digits ch)
    as (c1 & c2 & c3 & r0 & r1 & r2 & D0 & D1 & D2 & B0 & B1 & B2
        & Q1 & R0 & Q2 & R1 & Q3 & R2).
  assert (Hch : (ch = 262144 * (Byte.to_N b1 - 240)
                      + 4096 * (Byte.to_N b2 - 128)
                      + 64 * (Byte.to_N b3 - 128) + (Byte.to_N b4 - 128))%N)
    by (unfold ch; lia).
  assert (E0 : r0 = (Byte.to_N b4 - 128)%N) by lia.
  assert (E1 : r1 = (Byte.to_N b3 - 128)%N) by lia.
  assert (E2 : r2 = (Byte.to_N b2 - 128)%N) by lia.
  assert (E3 : c3 = (Byte.to_N b1 - 240)%N) by lia.
  rewrite encode_char_4.
  - rewrite Q3, R2, R1, R0, E0, E1, E2, E3.
    replace (240 + (Byte.to_N b1 - 240))%N with (Byte.to_N b1) by lia.
    replace (128 + (Byte.to_N b2 - 128))%N with (Byte.to_N b2) by lia.
    replace (128 + (Byte.to_N b3 - 128))%N with (Byte.to_N b3) by lia.
    replace (128 + (Byte.to_N b4 - 128))%N with (Byte.to_N b4) by lia.
    rewrite !byte_of_to_N. reflexivity.
  - destruct (N.lt_ge_cases (Byte.to_N b2) 0x90); lia.
  - destruct (N.lt_ge_cases (Byte.to_N b2) 0x90); lia.
Qed.

Ltac strict_step :=
  rewrite Utf8Facts.decode_cons;
  repeat match goal with
         | H : _ = true |- _ => rewrite H
         | H : _ = false |- _ => rewrite H
         end;
  cbn [negb orb andb on_error]; reflexivity.

Ltac invalid := left; strict_step.

Ltac valid c r :=
  right; eexists; exists c, r;
  split; [ reflexivity | ];
  split; [ cbn [length]; lia | ];
  apply and_comm; split; [ strict_step | ].

(** One step of strict decoding, with the bytes it consumed. *)
Lemma decode_step_encoded b1 s1 :
  decode Strict (b1 :: s1) = None
  \/ exists ch consumed rest,
       b1 :: s1 = consumed ++ rest
       /\ length rest < length (b1 :: s1)
       /\ encode_char ch = Some consumed
       /\ decode Strict (b1 :: s1) = accept ch (decode Strict rest).
Proof.
  destruct (Byte.to_N b1 <? 0x80)%N eqn:H1.
  { valid [b1] s1. unfold encode_char. rewrite H1, byte_of_to_N. reflexivity. }
  destruct (Byte.to_N b1 <? 0xC2)%N eqn:H2; [ invalid | ].
  destruct (Byte.to_N b1 <? 0xE0)%N eqn:H3.
  { destruct s1 as [|b2 s2]; [ invalid | ].
    destruct (is_continuation (Byte.to_N b2)) eqn:C2; [ | invalid ].
    valid [b1; b2] s2.
    apply encode_decoded_2;
      [ apply N.ltb_ge; assumption | apply N.ltb_lt; assumption | assumption ]. }
  destruct (Byte.to_N b1 <? 0xF0)%N eqn:H4.
  { destruct s1 as [|b2 s2]; [ invalid | ].
    destruct (is_continuation (Byte.to_N b2)) eqn:C2; [ | invalid ].
    destruct (if (Byte.to_N b2 <? 0xA0)%N then (Byte.to_N b1 =? 0xE0)%N
              else (Byte.to_N b1 =? 0xED)%N) eqn:X; [ invalid | ].
    destruct s2 as [|b3 s3]; [ invalid | ].
    destruct (is_continuation (Byte.to_N b3)) eqn:C3; [ | invalid ].
    valid [b1; b2; b3] s3.
    apply encode_decoded_3;
      [ apply N.ltb_ge; assumption | apply N.ltb_lt; assumption
      | assumption | assumption | assumption ]. }
  destruct (Byte.to_N b1 <? 0xF5)%N eqn:H5; [ | invalid ].
  destruct s1 as [|b2 s2]; [ invalid | ].
  destruct (is_continuation (Byte.to_N b2)) eqn:C2; [ | invalid ].
  destruct (if (Byte.to_N b2 <? 0x90)%N then (Byte.to_N b1 =? 0xF0)%N
            else (Byte.to_N b1 =? 0xF4)%N) eqn:X; [ invalid | ].
  destruct s2 as [|b3 s3]; [ invalid | ].
  destruct (is_continuation (Byte.to_N b3)) eqn:C3; [ | invalid ].
  destruct s3 as [|b4 s4]; [ invalid | ].
  destruct (is_continuation (Byte.to_N b4)) eqn:C4; [ | invalid ].
  valid [b1; b2; b3; b4] s4.
  apply encode_decoded_4;
    [ apply N.ltb_ge; assumption | apply N.ltb_lt; assumption
    | assumption | assumption | assumption | assumption ].
Qed.

(** Valid UTF-8 is encoded back to itself. *)
Lemma encode_decode bytes :
  forall text, decode Strict bytes = Some text -> encode text = Some bytes.
Proof.
  induction bytes as [s IH] using Utf8Facts.bytes_ind_len.
  destruct s as [|b1 s1]; intros text H.
  { cbn in H. injection H as <-. reflexivity. }
  destruct (decode_step_encoded b1 s1)
    as [Hn|(ch & consumed & rest & Hs & Hlen & Hc & Hd)]; [ congruence | ].
  rewrite Hd in H. unfold accept in H.
  destruct (decode Strict rest) as [text'|] eqn:Hr; [ | discriminate ].
  cbn in H. injection H as <-. cbn [encode].
  rewrite Hc, (IH rest Hlen text' Hr), Hs. reflexivity.
Qed.

End Utf8EncoderFacts.

(* ================================================================== *)
(** * What [write_text] puts on disk *)
(* ================================================================== *)

Lemma decoded_text_round_trip_aux (response : Dropbox.Response) (text : str) :
  decode_content response = Ok text ->
  exists bytes,
    Utf8Encoder.encode text = Some bytes
    /\ Utf8.decode Utf8.Strict bytes = Some text
    /\ (forall valid,
           Utf8.decode Utf8.Strict (Dropbox.content response) = Some valid ->
           bytes = Dropbox.content response).
Proof.
  intros H.
  destruct (decode_content_ok response) as (text' & Hd & Hr).
  assert (text' = text) by congruence. subst text'.
  destruct (Utf8EncoderFacts.encode_scalar (Utf8Facts.decode_scalar _ _ Hr))
    as [bytes Hb].
  exists bytes. split; [ exact Hb | ].
  split; [ apply (Utf8EncoderFacts.decode_encode _ Hb) | ].
  intros valid Hv.
  pose proof (Utf8Facts.decode_strict_replace _ Hv) as Hv'.
  assert (valid = text) by congruence. subst valid.
  apply Utf8EncoderFacts.encode_decode in Hv. congruence.
Qed.

(** The text decoded from any payload can always be encoded again, so
    writing it raises no [UnicodeEncodeError]; the bytes written read
    back, strictly, as the same text; and for a payload that is valid
    UTF-8 they are the payload itself, byte for byte. *)
Theorem decoded_text_is_written_back
        (response : Dropbox.Response) (text : str) :
  decode_content response = Ok text ->
  exists bytes,
    Utf8Encoder.encode text = Some bytes
    /\ Utf8.decode Utf8.Strict bytes = Some text
    /\ (forall valid,
           Utf8.decode Utf8.Strict (Dropbox.content response) = Some valid ->
           bytes = Dropbox.content response).
Proof.
  intros H.
  destruct (decode_content_ok response) as (text' & Hd & Hr).
  assert (text' = text) by congruence. subst text'.
  pose proof (Utf8Facts.decode_scalar _ _ Hr) as Hscalar.
  destruct (Utf8EncoderFacts.encode_scalar Hscalar) as [bytes Hb].
  exists bytes. split; [ exact Hb | ].
  split; [ apply (Utf8EncoderFacts.decode_encode _ Hb) | ].
  intros valid Hv.
  assert (Hsame : valid = text).
  { apply Utf8Facts.decode_strict_replace in Hv. congruence. }
  subst valid. apply Utf8EncoderFacts.encode_decode in Hv. congruence.
Qed.

Lemma decoded_text_is_written_back_witness :
  exists bytes,
    Utf8Encoder.encode [104; Utf8.REPLACEMENT]%N = Some bytes
    /\ Utf8.decode Utf8.Strict bytes = Some [104; Utf8.REPLACEMENT]%N.
Proof.
  destruct (@decoded_text_is_written_back
              {| Dropbox.content := Demo.broken |}
              [104; Utf8.REPLACEMENT]%N eq_refl) as (bytes & Hb & Hd & _).
  exists bytes. split; [ exact Hb | exact Hd ].
Defined.

Lemma lit_scalar (s : string) :
  forallb Utf8.is_scalar (lit s) = true ->
  Forall (fun ch => Utf8.is_scalar ch = true) (lit s).
Proof. intros H. apply Forall_forall. apply forallb_forall. exact H. Qed.

(** The file of a successful export.  When the title and the format
    hold Unicode scalar values only, the content [export_paper] returns
    can be encoded as UTF-8: the bytes are those of the heading followed
    by those of the text, they read back as the very content, and for a
    valid UTF-8 payload the file ends with the payload, byte for byte. *)
Theorem exported_file_round_trip
        (R : Type) (env : Env R) (w : World R)
        (remote_path export_format : str)
        (metadata : Dropbox.ExportMetadata) (response : Dropbox.Response)
        (st : R) :
  files_export env (remote w) remote_path export_format
  = (Ok (metadata, response), st) ->
  Forall (fun ch => Utf8.is_scalar ch = true)
         (getattr_name metadata (rsplit_last sep remote_path)) ->
  Forall (fun ch => Utf8.is_scalar ch = true) export_format ->
  exists content heading body,
    fst (export_paper env w remote_path export_format) = Ok content
    /\ Utf8Encoder.encode content = Some (heading ++ body)
    /\ Utf8.decode Utf8.Strict (heading ++ body) = Some content
    /\ Utf8.decode Utf8.Replace body
       = Utf8.decode Utf8.Replace (Dropbox.content response)
    /\ (forall valid,
           Utf8.decode Utf8.Strict (Dropbox.content response) = Some valid ->
           body = Dropbox.content response).
Proof.
  intros H Htitle Hformat.
  destruct (export_paper_ok env w remote_path export_format H)
    as (text & Hr & He).
  destruct (decode_content_ok response) as (text' & Hd & Hr').
  assert (text' = text) by congruence. subst text'.
  destruct (@decoded_text_round_trip_aux response text Hd)
    as (body & Hb & Hback & Hsame).
  set (head_text :=
         lit "# " ++ getattr_name metadata (rsplit_last sep remote_path)
         ++ (if truthy export_format
             then lit " (exported as " ++ export_format ++ lit ")"
             else []) ++ [newline; newline]).
  assert (Hhead : exists heading, Utf8Encoder.encode head_text = Some heading).
  { apply Utf8EncoderFacts.encode_scalar. unfold head_text.
    apply Forall_app. split; [ apply lit_scalar; reflexivity | ].
    apply Forall_app. split; [ exact Htitle | ].
    apply Forall_app. split; [ | repeat constructor ].
    destruct (truthy export_format); [ | constructor ].
    apply Forall_app. split; [ apply lit_scalar; reflexivity | ].
    apply Forall_app. split; [ exact Hformat | ].
    apply lit_scalar. reflexivity. }
  destruct Hhead as [heading Hh].
  assert (Henc : Utf8Encoder.encode (head_text ++ text) = Some (heading ++ body)).
  { rewrite Utf8EncoderFacts.encode_app, Hh, Hb. reflexivity. }
  exists (head_text ++ text), heading, body.
  split; [ rewrite He; cbn [fst]; unfold head_text; rewrite <- !app_assoc; reflexivity | ].
  split; [ exact Henc | ].
  split; [ apply (Utf8EncoderFacts.decode_encode _ Henc) | ].
  split; [ | exact Hsame ].
  rewrite Hr. apply (Utf8EncoderFacts.decode_encode _ Hb).
Qed.

Lemma exported_file_round_trip_witness :
  exists content heading body,
    fst (export_paper Demo.notes_env Demo.start
                      (lit "/notes/a.paper") (lit "markdown")) = Ok content
    /\ Utf8Encoder.encode content = Some (heading ++ body)
    /\ body = Demo.hi.
Proof.
  destruct (@exported_file_round_trip _ Demo.notes_env Demo.start
              (lit "/notes/a.paper") (lit "markdown")
              {| Dropbox.name := Some (lit "Note") |}
              {| Dropbox.content := Demo.hi |} 1 eq_refl)
    as (content & heading & body & Hc & He & _ & _ & Hv).
  - apply lit_scalar. reflexivity.
  - apply lit_scalar. reflexivity.
  - exists content, heading, body. split; [ exact Hc | ].
    split; [ exact He | ]. apply (Hv (lit "hi")). reflexivity.
Defined.
